(** * filelog: a rotating log-file writer

    A shallow embedding of package [filelog] (the log4go writer of
    go-sizeof-webapp) and of the application logger built on it, and the
    properties of its rotation, retention and shutdown logic.

    The Go code is a goroutine that owns a [Writer] and talks to the
    operating system; the embedding is a state monad over a [World] that
    holds a small file system, the table of open files, the record of every
    system call made, and an oracle that decides which calls fail and what
    the clock shows.  Every statement below quantifies over the oracle, so it
    holds for every pattern of I/O failures.  *)

From Stdlib Require Import ZArith List String Ascii Bool Lia Arith.
From Stdlib Require Import DecimalString DecimalN DecimalPos.
Import ListNotations.

Local Open Scope string_scope.
Local Open Scope Z_scope.

(** ** Machine integers *)

Module Int.

Definition maxInt64 : Z := 2 ^ 63 - 1.
Definition minInt64 : Z := - 2 ^ 63.
Definition maxUint64 : Z := 2 ^ 64 - 1.

(** Go's [int] on a 64-bit platform: arithmetic wraps around. *)
Definition wrapInt (x : Z) : Z := (x + 2 ^ 63) mod 2 ^ 64 - 2 ^ 63.

(** [uint64] arithmetic and the conversion [uint64(x)]. *)
Definition wrapUint64 (x : Z) : Z := x mod 2 ^ 64.

End Int.

(** ** The parts of Go's standard library the writer calls *)

Module Strings.

(** [strings.HasPrefix(s, prefix)]. *)
Definition HasPrefix (s pre : string) : bool := String.prefix pre s.

(** [strings.TrimPrefix(s, prefix)]. *)
Definition TrimPrefix (s pre : string) : string :=
  if HasPrefix s pre
  then substring (String.length pre) (String.length s - String.length pre) s
  else s.

End Strings.

Module Strconv.

Inductive NumError := ErrSyntax | ErrRange.

Definition digit (c : ascii) : option Z :=
  let n := Z.of_nat (nat_of_ascii c) in
  if (48 <=? n) && (n <=? 57) then Some (n - 48) else None.

(** The digit loop of [strconv.ParseUint(s, 10, 64)]: it stops at the
    first character that is not a digit (syntax error, value 0) or at the
    first digit that overflows 64 bits (range error, largest value),
    whichever comes first. *)
Fixpoint parseUintLoop (cs : string) (n : Z) : Z * option NumError :=
  match cs with
  | EmptyString => (n, None)
  | String c cs' =>
      match digit c with
      | None => (0, Some ErrSyntax)
      | Some d =>
          if n >=? Int.maxUint64 / 10 + 1 then (Int.maxUint64, Some ErrRange)
          else
            let n1 := n * 10 + d in
            if n1 >? Int.maxUint64 then (Int.maxUint64, Some ErrRange)
            else parseUintLoop cs' n1
      end
  end.

Definition ParseUint (s : string) : Z * option NumError :=
  match s with
  | EmptyString => (0, Some ErrSyntax)
  | _ => parseUintLoop s 0
  end.

(** [strconv.ParseInt(s, 10, 0)] with a 64-bit [int]. *)
Definition ParseInt (s : string) : Z * option NumError :=
  match s with
  | EmptyString => (0, Some ErrSyntax)
  | String c rest =>
      let neg := Ascii.eqb c "-" in
      let s' := if Ascii.eqb c "+" || neg then rest else s in
      let '(un, err) := ParseUint s' in
      match err with
      | Some ErrSyntax => (0, Some ErrSyntax)
      | _ =>
          let cutoff := 2 ^ 63 in
          if negb neg && (un >=? cutoff) then (cutoff - 1, Some ErrRange)
          else if neg && (un >? cutoff) then (- cutoff, Some ErrRange)
          else ((if neg then - un else un), None)
      end
  end.

(** The fast path of [strconv.Atoi] for strings shorter than 19 bytes. *)
Fixpoint atoiFast (cs : string) (n : Z) : Z * option NumError :=
  match cs with
  | EmptyString => (n, None)
  | String c cs' =>
      match digit c with
      | None => (0, Some ErrSyntax)
      | Some d => atoiFast cs' (n * 10 + d)
      end
  end.

(** [strconv.Atoi(s)].  A string that is not a number gives 0; a number
    that does not fit in [int] gives the largest (or smallest) [int]; both
    come with an error. *)
Definition Atoi (s : string) : Z * option NumError :=
  let sLen := String.length s in
  if ((0 <? sLen) && (sLen <? 19))%nat then
    match s with
    | EmptyString => (0, Some ErrSyntax)
    | String c rest =>
        let signed := Ascii.eqb c "-" || Ascii.eqb c "+" in
        let s' := if signed then rest else s in
        if signed && (String.length s' <? 1)%nat then (0, Some ErrSyntax)
        else
          let '(n, err) := atoiFast s' 0 in
          match err with
          | Some e => (0, Some e)
          | None => ((if Ascii.eqb c "-" then - n else n), None)
          end
    end
  else ParseInt s.

End Strconv.

Module Fmt.

(** The decimal digits of a natural number. *)
Definition digits (n : Z) : string :=
  NilEmpty.string_of_uint (N.to_uint (Z.to_N n)).

Fixpoint zeros (k : nat) : string :=
  match k with
  | O => EmptyString
  | S k' => String "0" (zeros k')
  end.

Definition padZeros (width : nat) (s : string) : string :=
  zeros (width - String.length s) ++ s.

(** [fmt.Sprintf("%03d", n)]: at least three characters, padded with
    zeros, the sign counting as one of them. *)
Definition Sprintf_03d (n : Z) : string :=
  if n <? 0 then "-" ++ padZeros 2 (digits (- n))
  else padZeros 3 (digits n).

End Fmt.

Module Filepath.

(** [filepath.Split]: the path up to and including its last separator,
    and what follows it. *)
Fixpoint Split (p : string) : string * string :=
  match p with
  | EmptyString => (EmptyString, EmptyString)
  | String c rest =>
      let '(d, f) := Split rest in
      if Ascii.eqb c "/" then
        (if (String.length d =? 0)%nat then (String c EmptyString, rest)
         else (String c d, f))
      else
        (if (String.length d =? 0)%nat then (EmptyString, String c f)
         else (String c d, f))
  end.

Definition dropLast (s : string) : string :=
  substring 0 (String.length s - 1) s.

(** [filepath.Base], [filepath.Dir] and [filepath.Join] on the paths the
    writer handles: slash-separated, already clean, not ending in a
    separator. *)
Definition Base (p : string) : string :=
  if (p =? EmptyString)%string then "." else snd (Split p).

Definition Dir (p : string) : string :=
  let d := fst (Split p) in
  if (d =? EmptyString)%string then "."
  else if (d =? "/")%string then "/"
  else dropLast d.

Definition Join (dir name : string) : string :=
  if (dir =? ".")%string then name
  else if (dir =? "/")%string then "/" ++ name
  else dir ++ "/" ++ name.

End Filepath.

Module Bufio.

(** [bufio.MaxScanTokenSize]. *)
Definition MaxScanTokenSize : Z := 65536.

(** What the loop [for scanner.Scan() { num++ }] counts over a whole
    file with the default line splitter: one token per line, the last one
    counted also when it has no newline.  [cur] is the length of the line
    being read; a line of [MaxScanTokenSize] bytes or more stops the scan
    with "token too long" ([true]) and the count reached so far. *)
Fixpoint countLines (s : string) (cur : Z) (num : Z) : Z * bool :=
  match s with
  | EmptyString => ((if cur =? 0 then num else num + 1), false)
  | String c s' =>
      if Ascii.eqb c "010" then countLines s' 0 (num + 1)
      else if MaxScanTokenSize <=? cur + 1 then (num, true)
      else countLines s' (cur + 1) num
  end.

End Bufio.


(** ** Errors and results *)

Inductive Errno := ENOENT | EEXIST | EISDIR | EACCES | EIO | ENOSPC.

(** Go [error] values the writer can meet. *)
Inductive error :=
| OsError (e : Errno)      (* *os.PathError, *os.LinkError around an errno *)
| ErrClosed                (* os.ErrClosed: the file is already closed *)
| ErrTooLong               (* bufio.ErrTooLong *)
| RotationFailed (cause : error).   (* fmt.Errorf("rotation failed: %s", err) *)

Inductive result (A : Type) :=
| Ok (a : A)
| Err (e : error).
Arguments Ok {A} a.
Arguments Err {A} e.

(** [os.IsNotExist(err)]. *)
Definition os_IsNotExist (e : error) : bool :=
  match e with
  | OsError ENOENT => true
  | _ => false
  end.

(** ** The operating system *)

(** The identity of an [*os.File] value. *)
Definition Fd := nat.

Record Inode := {
  i_isDir : bool;
  i_mtime : Z;          (* modification time, nanoseconds *)
  i_data : string
}.

Record Dirent := {
  d_dir : string;
  d_name : string;
  d_ino : nat
}.

(** What [os.FileInfo] carries. *)
Record FileInfo := {
  fi_name : string;
  fi_isDir : bool;
  fi_modTime : Z;
  fi_size : Z
}.

(** System calls, as the fault oracle sees them. *)
Inductive Op :=
| OpOpen (path : string)
| OpStat (fd : Fd)
| OpRead (fd : Fd)
| OpWrite (fd : Fd)
| OpStdout
| OpClose (fd : Fd)
| OpRename (old new : string)
| OpRemove (path : string)
| OpReadDir (dir : string).

(** Lines on the standard error stream. *)
Inductive Diag :=
| DiagNewWriter (filename : string) (e : error)
| DiagRemove (fileName : string) (e : error)
| DiagClose (e : error).

(** The calls that change something, in the order they were made. *)
Inductive Event :=
| EvOpen (path : string) (r : result Fd)
| EvWrite (fd : Fd) (data : string) (err : option error)
| EvStdout (data : string) (err : option error)
| EvClose (fd : Fd) (err : option error)
| EvRename (old new : string) (err : option error)
| EvRemove (path : string) (err : option error)
| EvStderr (d : Diag).

Record World := {
  dirents : list Dirent;          (* the names, each bound to an inode *)
  inodes : nat -> Inode;
  next_ino : nat;
  handles : list (Fd * nat);      (* the open files and their inodes *)
  next_fd : Fd;
  ticks : nat;                    (* system calls made so far *)
  trace : list Event;
  fault : nat -> Op -> option Errno;   (* which call fails, and how *)
  clock : nat -> Z                     (* the time at each call *)
}.

Definition IO (A : Type) : Type := World -> A * World.

Definition ret {A} (a : A) : IO A := fun st => (a, st).

Definition bind {A B} (c : IO A) (k : A -> IO B) : IO B :=
  fun st => let (a, st') := c st in k a st'.

Declare Scope io_scope.
Delimit Scope io_scope with io.
Notation "x <- c ;; k" := (bind c (fun x => k))
  (at level 61, c at next level, right associativity) : io_scope.
Notation "' pat <- c ;; k" := (bind c (fun x => match x with pat => k end))
  (at level 61, pat pattern, c at next level, right associativity) : io_scope.
Notation "c ;; k" := (bind c (fun _ => k))
  (at level 61, right associativity) : io_scope.
Local Open Scope io_scope.

Module OS.

Definition path_of (d : Dirent) : string := Filepath.Join (d_dir d) (d_name d).

Definition lookup (path : string) (ds : list Dirent) : option Dirent :=
  find (fun d => (path_of d =? path)%string) ds.

Definition handle (fd : Fd) (hs : list (Fd * nat)) : option nat :=
  option_map snd (find (fun h => (fst h =? fd)%nat) hs).

Definition setInode (f : nat -> Inode) (i : nat) (x : Inode) : nat -> Inode :=
  fun j => if (j =? i)%nat then x else f j.

(** *** Changes to the world *)

(** One more system call has been made. *)
Definition tick (st : World) : World :=
  {| dirents := dirents st; inodes := inodes st; next_ino := next_ino st;
     handles := handles st; next_fd := next_fd st; ticks := S (ticks st);
     trace := trace st; fault := fault st; clock := clock st |}.

Definition log (e : Event) (st : World) : World :=
  {| dirents := dirents st; inodes := inodes st; next_ino := next_ino st;
     handles := handles st; next_fd := next_fd st; ticks := ticks st;
     trace := trace st ++ [e]; fault := fault st; clock := clock st |}.

Definition withDirents (ds : list Dirent) (st : World) : World :=
  {| dirents := ds; inodes := inodes st; next_ino := next_ino st;
     handles := handles st; next_fd := next_fd st; ticks := ticks st;
     trace := trace st; fault := fault st; clock := clock st |}.

Definition withInode (i : nat) (x : Inode) (st : World) : World :=
  {| dirents := dirents st; inodes := setInode (inodes st) i x;
     next_ino := next_ino st;
     handles := handles st; next_fd := next_fd st; ticks := ticks st;
     trace := trace st; fault := fault st; clock := clock st |}.

(** A new file: a fresh inode, empty, bound to [path]. *)
Definition created (path : string) (now : Z) (st : World) : World :=
  {| dirents := dirents st ++
                [{| d_dir := Filepath.Dir path; d_name := Filepath.Base path;
                    d_ino := next_ino st |}];
     inodes := setInode (inodes st) (next_ino st)
                 {| i_isDir := false; i_mtime := now; i_data := EmptyString |};
     next_ino := S (next_ino st);
     handles := handles st; next_fd := next_fd st; ticks := ticks st;
     trace := trace st; fault := fault st; clock := clock st |}.

(** A new [*os.File] on inode [ino]; it is [next_fd]. *)
Definition opened (ino : nat) (st : World) : World :=
  {| dirents := dirents st; inodes := inodes st; next_ino := next_ino st;
     handles := (next_fd st, ino) :: handles st; next_fd := S (next_fd st);
     ticks := ticks st;
     trace := trace st; fault := fault st; clock := clock st |}.

Definition closed (fd : Fd) (st : World) : World :=
  {| dirents := dirents st; inodes := inodes st; next_ino := next_ino st;
     handles := filter (fun h => negb (fst h =? fd)%nat) (handles st);
     next_fd := next_fd st; ticks := ticks st;
     trace := trace st; fault := fault st; clock := clock st |}.

(** *** The system calls

    Each call asks the oracle once, at the current count of calls, and
    counts itself. *)

(** [os.OpenFile(path, os.O_RDWR|os.O_APPEND|os.O_CREATE, 0660)]: the
    file is created when it is missing and is never truncated. *)
Definition OpenFile (path : string) : IO (result Fd) :=
  fun st =>
    let failed e := (Err e, log (EvOpen path (Err e)) (tick st)) in
    let fd := next_fd st in
    match fault st (ticks st) (OpOpen path) with
    | Some e => failed (OsError e)
    | None =>
        match lookup path (dirents st) with
        | Some d =>
            if i_isDir (inodes st (d_ino d)) then failed (OsError EISDIR)
            else (Ok fd, log (EvOpen path (Ok fd)) (opened (d_ino d) (tick st)))
        | None =>
            (Ok fd,
             log (EvOpen path (Ok fd))
                 (opened (next_ino st)
                    (created path (clock st (ticks st)) (tick st))))
        end
    end.

(** [fd.Stat()]: modification time and size. *)
Definition Stat (fd : Fd) : IO (result FileInfo) :=
  fun st =>
    match handle fd (handles st) with
    | None => (Err ErrClosed, st)
    | Some i =>
        match fault st (ticks st) (OpStat fd) with
        | Some e => (Err (OsError e), tick st)
        | None =>
            (Ok {| fi_name := EmptyString; fi_isDir := i_isDir (inodes st i);
                   fi_modTime := i_mtime (inodes st i);
                   fi_size :=
                     Z.of_nat (String.length (i_data (inodes st i))) |},
             tick st)
        end
    end.

(** Reading the file from its start to its end, as the line scanner
    does right after the file is opened. *)
Definition ReadAll (fd : Fd) : IO (result string) :=
  fun st =>
    match handle fd (handles st) with
    | None => (Err ErrClosed, st)
    | Some i =>
        match fault st (ticks st) (OpRead fd) with
        | Some e => (Err (OsError e), tick st)
        | None => (Ok (i_data (inodes st i)), tick st)
        end
    end.

(** [fd.Write(data)] on a file opened with [O_APPEND]: all of [data]
    goes to the end of the file, or the call fails and nothing does. *)
Definition Write (fd : Fd) (data : string) : IO (result Z) :=
  fun st =>
    match handle fd (handles st) with
    | None => (Err ErrClosed, log (EvWrite fd data (Some ErrClosed)) st)
    | Some i =>
        match fault st (ticks st) (OpWrite fd) with
        | Some e =>
            (Err (OsError e),
             log (EvWrite fd data (Some (OsError e))) (tick st))
        | None =>
            let old := inodes st i in
            (Ok (Z.of_nat (String.length data)),
             log (EvWrite fd data None)
                 (withInode i
                    {| i_isDir := i_isDir old;
                       i_mtime :=
                         if (data =? EmptyString)%string then i_mtime old
                         else clock st (ticks st);
                       i_data := i_data old ++ data |}
                    (tick st)))
        end
    end.

(** [os.Stdout.Write(data)]. *)
Definition StdoutWrite (data : string) : IO (result Z) :=
  fun st =>
    match fault st (ticks st) OpStdout with
    | Some e =>
        (Err (OsError e), log (EvStdout data (Some (OsError e))) (tick st))
    | None =>
        (Ok (Z.of_nat (String.length data)),
         log (EvStdout data None) (tick st))
    end.

(** [fd.Close()]: the file is closed also when the call reports an error;
    closing it again is an error. *)
Definition Close (fd : Fd) : IO (option error) :=
  fun st =>
    match handle fd (handles st) with
    | None => (Some ErrClosed, log (EvClose fd (Some ErrClosed)) st)
    | Some _ =>
        let r := option_map OsError (fault st (ticks st) (OpClose fd)) in
        (r, log (EvClose fd r) (closed fd (tick st)))
    end.

(** [os.Rename(old, new)]: a missing [old] is "file does not exist"; an
    existing file at [new] is replaced, a directory there is an error. *)
Definition Rename (old new : string) : IO (option error) :=
  fun st =>
    let failed e := (Some e, log (EvRename old new (Some e)) (tick st)) in
    match fault st (ticks st) (OpRename old new) with
    | Some e => failed (OsError e)
    | None =>
        match lookup old (dirents st) with
        | None => failed (OsError ENOENT)
        | Some d =>
            let onDir :=
              match lookup new (dirents st) with
              | Some d' => i_isDir (inodes st (d_ino d'))
              | None => false
              end in
            if onDir then failed (OsError EEXIST)
            else
              (None,
               log (EvRename old new None)
                   (withDirents
                      (map (fun x =>
                              if (path_of x =? old)%string
                              then {| d_dir := Filepath.Dir new;
                                      d_name := Filepath.Base new;
                                      d_ino := d_ino x |}
                              else x)
                           (filter (fun x => negb (path_of x =? new)%string)
                                   (dirents st)))
                      (tick st)))
        end
    end.

(** [os.Remove(path)]. *)
Definition Remove (path : string) : IO (option error) :=
  fun st =>
    let failed e := (Some e, log (EvRemove path (Some e)) (tick st)) in
    match fault st (ticks st) (OpRemove path) with
    | Some e => failed (OsError e)
    | None =>
        match lookup path (dirents st) with
        | None => failed (OsError ENOENT)
        | Some _ =>
            (None,
             log (EvRemove path None)
                 (withDirents
                    (filter (fun x => negb (path_of x =? path)%string)
                            (dirents st))
                    (tick st)))
        end
    end.

Fixpoint insertByName (x : FileInfo) (l : list FileInfo) : list FileInfo :=
  match l with
  | [] => [x]
  | y :: l' =>
      if String.leb (fi_name x) (fi_name y) then x :: l
      else y :: insertByName x l'
  end.

Definition sortByName (l : list FileInfo) : list FileInfo :=
  fold_right insertByName [] l.

Definition info (ino : nat -> Inode) (d : Dirent) : FileInfo :=
  {| fi_name := d_name d;
     fi_isDir := i_isDir (ino (d_ino d));
     fi_modTime := i_mtime (ino (d_ino d));
     fi_size := Z.of_nat (String.length (i_data (ino (d_ino d)))) |}.

(** [ioutil.ReadDir(dir)]: the entries of [dir], sorted by name. *)
Definition ReadDir (dir : string) : IO (result (list FileInfo)) :=
  fun st =>
    match fault st (ticks st) (OpReadDir dir) with
    | Some e => (Err (OsError e), tick st)
    | None =>
        (Ok (sortByName
               (map (info (inodes st))
                    (filter (fun d => (d_dir d =? dir)%string) (dirents st)))),
         tick st)
    end.

(** [time.Now()]. *)
Definition Now : IO Z :=
  fun st => (clock st (ticks st), tick st).

(** A line on [os.Stderr]. *)
Definition Stderr (d : Diag) : IO unit :=
  fun st => (tt, log (EvStderr d) st).

End OS.

Module Time.

Definition maxDuration : Z := Int.maxInt64.
Definition minDuration : Z := Int.minInt64.

(** [t.Sub(u)]: the difference, held within the range of [Duration]. *)
Definition Sub (t u : Z) : Z :=
  Z.max minDuration (Z.min maxDuration (t - u)).

Definition Second : Z := 1000000000.

End Time.

(** ** Package log4go and the time format *)

(** [log4go.LogRecord]. *)
Record LogRecord := {
  Level : Z;
  Created : Z;
  Source : string;
  Message : string
}.

(** What the writer takes from outside the repository: log4go's record
    formatter and buffer length, and [t.Format(dayFormat)], the calendar day
    of a time in the process's time zone. *)
Class Platform := {
  FormatLogRecord : string -> LogRecord -> string;
  LogBufferLength : nat;
  FormatDay : Z -> string
}.

(** ** The writer *)

(** The fields of [Writer] that the goroutine owns; the two channels and the
    wait group are in [System] below.  [writer] is [io.MultiWriter(fd,
    os.Stdout)] for the [fd] it holds, or nil. *)
Record Writer := {
  filename : string;
  file : option Fd;
  writer : option Fd;
  format : string;
  header : string;
  trailer : string;
  keepRotatedSeconds : Z;
  maxlines : Z;
  maxlinesCurlines : Z;
  maxsize : Z;
  maxsizeCursize : Z;
  daily : bool;
  dailyOpenDate : string;
  rotate : bool;
  waitOnClose : bool
}.

Definition set_file (w : Writer) (fd : Fd) : Writer :=
  {| filename := filename w; file := Some fd; writer := Some fd;
     format := format w; header := header w; trailer := trailer w;
     keepRotatedSeconds := keepRotatedSeconds w;
     maxlines := maxlines w; maxlinesCurlines := maxlinesCurlines w;
     maxsize := maxsize w; maxsizeCursize := maxsizeCursize w;
     daily := daily w; dailyOpenDate := dailyOpenDate w;
     rotate := rotate w; waitOnClose := waitOnClose w |}.

Definition set_stat (w : Writer) (day : string) (size : Z) : Writer :=
  {| filename := filename w; file := file w; writer := writer w;
     format := format w; header := header w; trailer := trailer w;
     keepRotatedSeconds := keepRotatedSeconds w;
     maxlines := maxlines w; maxlinesCurlines := maxlinesCurlines w;
     maxsize := maxsize w; maxsizeCursize := size;
     daily := daily w; dailyOpenDate := day;
     rotate := rotate w; waitOnClose := waitOnClose w |}.

Definition set_counters (w : Writer) (lines size : Z) : Writer :=
  {| filename := filename w; file := file w; writer := writer w;
     format := format w; header := header w; trailer := trailer w;
     keepRotatedSeconds := keepRotatedSeconds w;
     maxlines := maxlines w; maxlinesCurlines := lines;
     maxsize := maxsize w; maxsizeCursize := size;
     daily := daily w; dailyOpenDate := dailyOpenDate w;
     rotate := rotate w; waitOnClose := waitOnClose w |}.

(** The state [NewWriter(fName, rotate)] builds. *)
Definition NewWriter_state (fName : string) (rot : bool) : Writer :=
  {| filename := fName; file := None; writer := None;
     format := "[%D %T] [%L] (%S) %M";
     header := EmptyString; trailer := EmptyString;
     keepRotatedSeconds := 0;
     maxlines := 0; maxlinesCurlines := 0;
     maxsize := 0; maxsizeCursize := 0;
     daily := false; dailyOpenDate := EmptyString;
     rotate := rot; waitOnClose := false |}.

(** The chainable setters. *)
Definition SetFormat (f : string) (w : Writer) : Writer :=
  {| filename := filename w; file := file w; writer := writer w;
     format := f; header := header w; trailer := trailer w;
     keepRotatedSeconds := keepRotatedSeconds w;
     maxlines := maxlines w; maxlinesCurlines := maxlinesCurlines w;
     maxsize := maxsize w; maxsizeCursize := maxsizeCursize w;
     daily := daily w; dailyOpenDate := dailyOpenDate w;
     rotate := rotate w; waitOnClose := waitOnClose w |}.

Definition SetHeadFoot (head foot : string) (w : Writer) : Writer :=
  {| filename := filename w; file := file w; writer := writer w;
     format := format w; header := head; trailer := foot;
     keepRotatedSeconds := keepRotatedSeconds w;
     maxlines := maxlines w; maxlinesCurlines := maxlinesCurlines w;
     maxsize := maxsize w; maxsizeCursize := maxsizeCursize w;
     daily := daily w; dailyOpenDate := dailyOpenDate w;
     rotate := rotate w; waitOnClose := waitOnClose w |}.

Definition SetRotateLines (n : Z) (w : Writer) : Writer :=
  {| filename := filename w; file := file w; writer := writer w;
     format := format w; header := header w; trailer := trailer w;
     keepRotatedSeconds := keepRotatedSeconds w;
     maxlines := Int.wrapUint64 n; maxlinesCurlines := maxlinesCurlines w;
     maxsize := maxsize w; maxsizeCursize := maxsizeCursize w;
     daily := daily w; dailyOpenDate := dailyOpenDate w;
     rotate := rotate w; waitOnClose := waitOnClose w |}.

Definition SetRotateSize (n : Z) (w : Writer) : Writer :=
  {| filename := filename w; file := file w; writer := writer w;
     format := format w; header := header w; trailer := trailer w;
     keepRotatedSeconds := keepRotatedSeconds w;
     maxlines := maxlines w; maxlinesCurlines := maxlinesCurlines w;
     maxsize := Int.wrapUint64 n; maxsizeCursize := maxsizeCursize w;
     daily := daily w; dailyOpenDate := dailyOpenDate w;
     rotate := rotate w; waitOnClose := waitOnClose w |}.

Definition SetRotateDaily (d : bool) (w : Writer) : Writer :=
  {| filename := filename w; file := file w; writer := writer w;
     format := format w; header := header w; trailer := trailer w;
     keepRotatedSeconds := keepRotatedSeconds w;
     maxlines := maxlines w; maxlinesCurlines := maxlinesCurlines w;
     maxsize := maxsize w; maxsizeCursize := maxsizeCursize w;
     daily := d; dailyOpenDate := dailyOpenDate w;
     rotate := rotate w; waitOnClose := waitOnClose w |}.

Definition SetRotate (r : bool) (w : Writer) : Writer :=
  {| filename := filename w; file := file w; writer := writer w;
     format := format w; header := header w; trailer := trailer w;
     keepRotatedSeconds := keepRotatedSeconds w;
     maxlines := maxlines w; maxlinesCurlines := maxlinesCurlines w;
     maxsize := maxsize w; maxsizeCursize := maxsizeCursize w;
     daily := daily w; dailyOpenDate := dailyOpenDate w;
     rotate := r; waitOnClose := waitOnClose w |}.

(** [time.Duration(seconds) * time.Second]: a 64-bit product. *)
Definition SetRotatedFilesExpiration (seconds : Z) (w : Writer) : Writer :=
  {| filename := filename w; file := file w; writer := writer w;
     format := format w; header := header w; trailer := trailer w;
     keepRotatedSeconds := Int.wrapInt (seconds * Time.Second);
     maxlines := maxlines w; maxlinesCurlines := maxlinesCurlines w;
     maxsize := maxsize w; maxsizeCursize := maxsizeCursize w;
     daily := daily w; dailyOpenDate := dailyOpenDate w;
     rotate := rotate w; waitOnClose := waitOnClose w |}.

Definition SetWaitOnClose (yes : bool) (w : Writer) : Writer :=
  {| filename := filename w; file := file w; writer := writer w;
     format := format w; header := header w; trailer := trailer w;
     keepRotatedSeconds := keepRotatedSeconds w;
     maxlines := maxlines w; maxlinesCurlines := maxlinesCurlines w;
     maxsize := maxsize w; maxsizeCursize := maxsizeCursize w;
     daily := daily w; dailyOpenDate := dailyOpenDate w;
     rotate := rotate w; waitOnClose := yes |}.

Section Filelog.

Context {P : Platform}.

(** A record that carries only its creation time, as the header and the
    trailer are formatted with. *)
Definition stamp (now : Z) : LogRecord :=
  {| Level := 0; Created := now;
     Source := EmptyString; Message := EmptyString |}.

(** [fmt.Fprint(w.writer, s)] through [io.MultiWriter(fd, os.Stdout)]:
    the file first, then the standard output; the first error stops the
    write and is returned.  The goroutine never prints through a nil writer
    (Go would panic); here that is an error. *)
Definition Fprint (wr : option Fd) (s : string) : IO (result Z) :=
  match wr with
  | None => ret (Err ErrClosed)
  | Some fd =>
      r <- OS.Write fd s ;;
      match r with
      | Err e => ret (Err e)
      | Ok _ => OS.StdoutWrite s
      end
  end.

(** Closes the current file, if any, after writing the trailer to it. *)
Definition closeCurrentFile (w : Writer) : IO unit :=
  match file w with
  | None => ret tt
  | Some fd =>
      now <- OS.Now ;;
      _ <- Fprint (writer w) (FormatLogRecord (trailer w) (stamp now)) ;;
      err <- OS.Close fd ;;
      match err with
      | Some e => OS.Stderr (DiagClose e)
      | None => ret tt
      end
  end.

(** Opens the file to write logs into and recovers the counters from what
    it already holds. *)
Definition openNewFile (w : Writer) : IO (Writer * option error) :=
  r <- OS.OpenFile (filename w) ;;
  match r with
  | Err e => ret (w, Some e)
  | Ok fd =>
      let w := set_file w fd in
      r <- OS.Stat fd ;;
      match r with
      | Err e => ret (w, Some e)
      | Ok fi =>
          let w := set_stat w (FormatDay (fi_modTime fi))
                     (Int.wrapUint64 (fi_size fi)) in
          r <- OS.ReadAll fd ;;
          let '(num, e) :=
            match r with
            | Err e => (0, Some e)
            | Ok data =>
                let '(num, long) := Bufio.countLines data 0 0 in
                (Int.wrapUint64 num, if long then Some ErrTooLong else None)
            end in
          let w := set_counters w num (maxsizeCursize w) in
          match e with
          | Some e => ret (w, Some e)
          | None =>
              now <- OS.Now ;;
              _ <- Fprint (writer w) (FormatLogRecord (header w) (stamp now)) ;;
              ret (w, None)
          end
      end
  end.

(** The loop of [processAlreadyRotatedFiles] over the directory's
    entries; [lastNum] is the largest number seen so far. *)
Fixpoint scanRotatedFiles (w : Writer) (dir base : string) (now : Z)
    (files : list FileInfo) (lastNum : Z) : IO Z :=
  match files with
  | [] => ret lastNum
  | f :: rest =>
      let fileName := fi_name f in
      if fi_isDir f || negb (Strings.HasPrefix fileName base)
      then scanRotatedFiles w dir base now rest lastNum
      else
        let suffix := Strings.TrimPrefix fileName base in
        if (suffix =? EmptyString)%string
        then scanRotatedFiles w dir base now rest lastNum
        else
          let num := fst (Strconv.Atoi (Strings.TrimPrefix suffix ".")) in
          let lastNum := if num >? lastNum then num else lastNum in
          (if (keepRotatedSeconds w >? 0) &&
              (Time.Sub now (fi_modTime f) >? keepRotatedSeconds w)
           then
             err <- OS.Remove (Filepath.Join dir fileName) ;;
             match err with
             | Some e => OS.Stderr (DiagRemove fileName e)
             | None => ret tt
             end
           else ret tt) ;;
          scanRotatedFiles w dir base now rest lastNum
  end.

(** Removes the expired rotated files and returns the name of the next
    file to rotate into. *)
Definition processAlreadyRotatedFiles (w : Writer) : IO string :=
  let dir := Filepath.Dir (filename w) in
  r <- OS.ReadDir dir ;;
  lastNum <-
    match r with
    | Ok files =>
        let base := Filepath.Base (filename w) in
        now <- OS.Now ;;
        scanRotatedFiles w dir base now files 0
    | Err _ => ret 0
    end ;;
  let lastNum := if lastNum <? 1 then 0 else lastNum in
  ret (filename w ++ "." ++ Fmt.Sprintf_03d (Int.wrapInt (lastNum + 1)))%string.

(** Rotates the log file. *)
Definition doRotation (w : Writer) : IO (Writer * option error) :=
  closeCurrentFile w ;;
  failed <-
    (if rotate w then
       name <- processAlreadyRotatedFiles w ;;
       err <- OS.Rename (filename w) name ;;
       match err with
       | Some e => if negb (os_IsNotExist e)
                   then ret (Some (RotationFailed e)) else ret None
       | None => ret None
       end
     else ret None) ;;
  match failed with
  | Some e => ret (w, Some e)
  | None =>
      match file w with
      | Some _ => openNewFile w
      | None => ret (w, None)
      end
  end.

(** The removal of one expired file in [scanRotatedFiles], on its own. *)
Definition removeExpired (dir : string) (f : FileInfo) : IO unit :=
  err <- OS.Remove (Filepath.Join dir (fi_name f)) ;;
  match err with
  | Some e => OS.Stderr (DiagRemove (fi_name f) e)
  | None => ret tt
  end.

(** The renaming step of [doRotation], on its own. *)
Definition renameStep (w : Writer) : IO (option error) :=
  if rotate w then
    name <- processAlreadyRotatedFiles w ;;
    err <- OS.Rename (filename w) name ;;
    match err with
    | Some e => if negb (os_IsNotExist e)
                then ret (Some (RotationFailed e)) else ret None
    | None => ret None
    end
  else ret None.

(** Writes one record into the open file and counts it. *)
Definition write (w : Writer) (rec : LogRecord) : IO (Writer * option error) :=
  r <- Fprint (writer w) (FormatLogRecord (format w) rec) ;;
  match r with
  | Err e => ret (w, Some e)
  | Ok n =>
      ret (set_counters w
             (Int.wrapUint64 (maxlinesCurlines w + 1))
             (Int.wrapUint64 (maxsizeCursize w + n)),
           None)
  end.

(** The condition under which the goroutine rotates before a write. *)
Definition rotationDue (w : Writer) (now : Z) : bool :=
  ((maxlines w >? 0) && (maxlinesCurlines w >=? maxlines w)) ||
  ((maxsize w >? 0) && (maxsizeCursize w >=? maxsize w)) ||
  (daily w && negb (FormatDay now =? dailyOpenDate w)%string).

(** The test the goroutine makes before each write; the clock is read
    only when neither counter has reached its threshold and daily rotation
    is on. *)
Definition checkRotation (w : Writer) : IO bool :=
  if ((maxlines w >? 0) && (maxlinesCurlines w >=? maxlines w)) ||
     ((maxsize w >? 0) && (maxsizeCursize w >=? maxsize w))
  then ret true
  else if daily w then
    now <- OS.Now ;;
    ret (negb (FormatDay now =? dailyOpenDate w)%string)
  else ret false.

(** What the goroutine's [select] receives. *)
Inductive Item :=
| RotItem                       (* a value from [w.rot] *)
| RecItem (rec : LogRecord)     (* a record from [w.rec] *)
| ClosedItem.                   (* [w.rec] is closed and empty *)

Definition printErr (w : Writer) (e : error) : IO unit :=
  OS.Stderr (DiagNewWriter (filename w) e).

(** What the goroutine does with a record once a file is open: it rotates
    first when rotation is due, then writes the record.  [true] when it
    returns from the goroutine. *)
Definition rotateAndWrite (w : Writer) (rec : LogRecord) : IO (Writer * bool) :=
  due <- checkRotation w ;;
  '(w, err) <- (if due then doRotation w else ret (w, None)) ;;
  match err with
  | Some e => printErr w e ;; ret (w, true)
  | None =>
      '(w, err) <- write w rec ;;
      match err with
      | Some e => printErr w e ;; ret (w, true)
      | None => ret (w, false)
      end
  end.

(** The file is opened when the first record arrives. *)
Definition ensureOpen (w : Writer) : IO (Writer * option error) :=
  match file w with
  | None => openNewFile w
  | Some _ => ret (w, None)
  end.

(** One turn of the goroutine's loop; [true] when it returns from the
    goroutine. *)
Definition handleItem (w : Writer) (it : Item) : IO (Writer * bool) :=
  match it with
  | RotItem =>
      '(w, err) <- doRotation w ;;
      match err with
      | Some e => printErr w e ;; ret (w, true)
      | None => ret (w, false)
      end
  | ClosedItem => ret (w, true)
  | RecItem rec =>
      '(w, err) <- ensureOpen w ;;
      match err with
      | Some e => printErr w e ;; ret (w, true)
      | None => rotateAndWrite w rec
      end
  end.

(** The loop over the items received, until one makes it return. *)
Fixpoint loop (w : Writer) (items : list Item) : IO (Writer * bool) :=
  match items with
  | [] => ret (w, false)
  | it :: rest =>
      '(w, stop) <- handleItem w it ;;
      if stop then ret (w, true) else loop w rest
  end.

(** The goroutine of [NewWriter] on the items it receives: when the loop
    returns, the deferred [closeCurrentFile] runs (and then
    [waiter.Done]).  [false]: it is still waiting in [select]. *)
Definition goroutine (w : Writer) (items : list Item) : IO (Writer * bool) :=
  '(w, stop) <- loop w items ;;
  if stop then closeCurrentFile w ;; ret (w, true)
  else ret (w, false).

End Filelog.

(** ** The channels, the clients and the goroutine together *)

Section Channels.

Context {P : Platform}.

(** A writer at work: the goroutine's state, the operating system, the
    buffered channel [w.rec], the unbuffered channel [w.rot] (only the
    number of callers blocked in a send matters) and whether the goroutine
    has returned.  [sent] and [received] keep the history: the records and
    rotation requests the clients handed to the channels, in the order of
    the calls, and those the goroutine took, in the order it took them. *)
Record System := {
  wr : Writer;
  world : World;
  recBuf : list LogRecord;
  recClosed : bool;
  rotSenders : nat;
  exited : bool;
  sent : list Item;
  received : list Item
}.

(** What [NewWriter(fName, rotate)] starts from. *)
Definition NewWriter (fName : string) (rot : bool) (st : World) : System :=
  {| wr := NewWriter_state fName rot; world := st;
     recBuf := []; recClosed := false; rotSenders := 0%nat; exited := false;
     sent := []; received := [] |}.

(** The setters, called before the first record. *)
Definition configure (f : Writer -> Writer) (s : System) : System :=
  {| wr := f (wr s); world := world s;
     recBuf := recBuf s; recClosed := recClosed s;
     rotSenders := rotSenders s; exited := exited s;
     sent := sent s; received := received s |}.

Inductive Call :=
| LogWrite (rec : LogRecord)    (* [w.rec <- rec] *)
| Rotate                        (* [w.rot <- true]: the caller starts to wait *)
| Close.                        (* [close(w.rec)] *)

(** The case the goroutine's [select] takes. *)
Inductive Case :=
| CaseRot      (* [<-w.rot] *)
| CaseRec.     (* [<-w.rec] *)

Inductive Action :=
| Client (c : Call)
| Select (k : Case).

Inductive outcome :=
| Next (s : System)
| Panic (msg : string)
| Blocked.

(** A client's call.  Sending on a closed channel and closing a closed
    channel panic; a send on the full buffer blocks. *)
Definition call (s : System) (c : Call) : outcome :=
  match c with
  | LogWrite rec =>
      if recClosed s then Panic "send on closed channel"
      else if (List.length (recBuf s) <? LogBufferLength)%nat then
        Next {| wr := wr s; world := world s;
                recBuf := recBuf s ++ [rec]; recClosed := recClosed s;
                rotSenders := rotSenders s; exited := exited s;
                sent := sent s ++ [RecItem rec]; received := received s |}
      else Blocked
  | Rotate =>
      Next {| wr := wr s; world := world s;
              recBuf := recBuf s; recClosed := recClosed s;
              rotSenders := S (rotSenders s); exited := exited s;
              sent := sent s ++ [RotItem]; received := received s |}
  | Close =>
      if recClosed s then Panic "close of closed channel"
      else
        Next {| wr := wr s; world := world s;
                recBuf := recBuf s; recClosed := true;
                rotSenders := rotSenders s; exited := exited s;
                sent := sent s; received := received s |}
  end.

(** The goroutine takes [it] from a channel, leaving [buf] and [rot]
    behind, and handles it; when that makes it return, the deferred
    [closeCurrentFile] runs and the wait group is done. *)
Definition receive (s : System) (it : Item) (buf : list LogRecord)
    (rot : nat) : System :=
  let '((w', stop), st') := handleItem (wr s) it (world s) in
  let st'' := if stop then snd (closeCurrentFile w' st') else st' in
  {| wr := w'; world := st'';
     recBuf := buf; recClosed := recClosed s;
     rotSenders := rot; exited := stop;
     sent := sent s;
     received := received s ++
                 match it with ClosedItem => [] | _ => [it] end |}.

(** One [select] of the goroutine.  A case is ready when a sender waits on
    [w.rot], when [w.rec] holds a record, or when [w.rec] is closed and
    empty; [select] may take any ready case. *)
Definition select (s : System) (k : Case) : outcome :=
  if exited s then Blocked
  else
    match k with
    | CaseRot =>
        match rotSenders s with
        | S n => Next (receive s RotItem (recBuf s) n)
        | O => Blocked
        end
    | CaseRec =>
        match recBuf s with
        | rec :: q => Next (receive s (RecItem rec) q (rotSenders s))
        | [] =>
            if recClosed s
            then Next (receive s ClosedItem [] (rotSenders s))
            else Blocked
        end
    end.

Definition act (s : System) (a : Action) : outcome :=
  match a with
  | Client c => call s c
  | Select k => select s k
  end.

(** A schedule: the actions in the order they take effect. *)
Fixpoint exec (s : System) (acts : list Action) : outcome :=
  match acts with
  | [] => Next s
  | a :: rest =>
      match act s a with
      | Next s' => exec s' rest
      | o => o
      end
  end.

(** [w.waiter.Wait()] returns once the goroutine has. *)
Definition waitReturns (s : System) : bool := exited s.

Definition records (l : list Item) : list LogRecord :=
  flat_map (fun it => match it with RecItem r => [r] | _ => [] end) l.

Definition rotations (l : list Item) : nat :=
  List.length
    (filter (fun it => match it with RotItem => true | _ => false end) l).

End Channels.

(** ** The application's logger *)

Module Log.

(** The path of the application log, relative to the application's root. *)
Definition ApplicationLogFile : string := "logs/application.log".

(** [l4g.INFO]. *)
Definition INFO : Z := 4.

(** [l4g.Filter]: a level and the writer that takes the records at or
    above it. *)
Record Filter := {
  Level : Z;
  LogWriter : System
}.

(** [l4g.Logger]: the filters by name. *)
Definition Logger := list (string * Filter).

(** [NewApplicationLogger()].  [filelog.NewWriter] returns the address
    of a new [Writer], which is never nil: the error of the first branch is
    never returned. *)
Definition NewApplicationLogger (st : World) : Logger * option string :=
  let lgr : Logger := [] in
  let flw := NewWriter ApplicationLogFile false st in
  let flw := configure (SetFormat "[%D %T][%L] %M") flw in
  let flw := configure (SetWaitOnClose true) flw in
  (("s", {| Level := INFO; LogWriter := flw |}) :: lgr, None).

End Log.

(** ** A platform and worlds to run the writer on *)

Module Sample.

(** Splits a template at its percent signs. *)
Fixpoint pieces (s : string) (cur : string) : list string :=
  match s with
  | EmptyString => [cur]
  | String c s' =>
      if Ascii.eqb c "%" then cur :: pieces s' EmptyString
      else pieces s' (cur ++ String c EmptyString)
  end.

Definition levelString (l : Z) : string :=
  nth (Z.to_nat l)
      ["FNST"; "FINE"; "DEBG"; "TRAC"; "INFO"; "WARN"; "EROR"; "CRIT"]
      EmptyString.

Definition verb (rec : LogRecord) (piece : string) : string :=
  match piece with
  | EmptyString => EmptyString
  | String c rest =>
      (if Ascii.eqb c "M" then Message rec
       else if Ascii.eqb c "S" then Source rec
       else if Ascii.eqb c "L" then levelString (Level rec)
       else EmptyString) ++ rest
  end.

(** log4go's [FormatLogRecord] on templates whose verbs are [%M], [%S]
    and [%L]: an empty template gives nothing, any other gives one line.
    The date and time verbs print nothing here. *)
Definition formatLogRecord (fmt : string) (rec : LogRecord) : string :=
  if (fmt =? EmptyString)%string then EmptyString
  else
    match pieces fmt EmptyString with
    | [] => String "010" EmptyString
    | first :: rest =>
        first ++ concat EmptyString (map (verb rec) rest) ++ String "010" EmptyString
    end.

(** The civil date of a day number (days since 1970-01-01). *)
Definition civil (days : Z) : Z * Z * Z :=
  let z := days + 719468 in
  let era := z / 146097 in
  let doe := z - era * 146097 in
  let yoe := (doe - doe / 1460 + doe / 36524 - doe / 146096) / 365 in
  let doy := doe - (365 * yoe + yoe / 4 - yoe / 100) in
  let mp := (5 * doy + 2) / 153 in
  let d := doy - (153 * mp + 2) / 5 + 1 in
  let m := if mp <? 10 then mp + 3 else mp - 9 in
  let y := yoe + era * 400 + (if m <=? 2 then 1 else 0) in
  (y, m, d).

(** [t.Format("2006-01-02")] in UTC, [t] in nanoseconds since 1970. *)
Definition formatDay (t : Z) : string :=
  let '(y, m, d) := civil (t / (86400 * Time.Second)) in
  Fmt.padZeros 4 (Fmt.digits y) ++ "-" ++ Fmt.padZeros 2 (Fmt.digits m) ++ "-"
    ++ Fmt.padZeros 2 (Fmt.digits d).

#[export] Instance platform : Platform := {
  FormatLogRecord := formatLogRecord;
  LogBufferLength := 32;
  FormatDay := formatDay
}.

Definition msg (m : string) : LogRecord :=
  {| Level := 4; Created := 0; Source := "main"; Message := m |}.

Definition nl : string := String "010" EmptyString.

(** A file of the directory listing a world starts with. *)
Record File := {
  f_dir : string;
  f_name : string;
  f_isDir : bool;
  f_mtime : Z;
  f_data : string
}.

Definition noInode : Inode :=
  {| i_isDir := false; i_mtime := 0; i_data := EmptyString |}.

(** The world holding [files], with the given oracle. *)
Definition mkWorld (files : list File)
    (flt : nat -> Op -> option Errno) (clk : nat -> Z) : World :=
  {| dirents :=
       map (fun '(i, f) =>
              {| d_dir := f_dir f; d_name := f_name f; d_ino := i |})
           (combine (seq 0 (List.length files)) files);
     inodes := fun i =>
       match nth_error files i with
       | Some f => {| i_isDir := f_isDir f; i_mtime := f_mtime f;
                      i_data := f_data f |}
       | None => noInode
       end;
     next_ino := List.length files;
     handles := [];
     next_fd := 3%nat;
     ticks := 0%nat;
     trace := [];
     fault := flt;
     clock := clk |}.

Definition noFault : nat -> Op -> option Errno := fun _ _ => None.

(** A clock that stands still. *)
Definition at_time (t : Z) : nat -> Z := fun _ => t.

(** What is in the file at [path], if there is one. *)
Definition content (path : string) (st : World) : option string :=
  option_map (fun d => i_data (inodes st (d_ino d)))
             (OS.lookup path (dirents st)).

(** The names in directory [dir]. *)
Definition names (dir : string) (st : World) : list string :=
  map d_name (filter (fun d => (d_dir d =? dir)%string) (dirents st)).

End Sample.

(** ** Scenarios *)

Module Scenario.

Import Sample.

Definition fileAt (name : string) (mtime : Z) (data : string) : File :=
  {| f_dir := "."; f_name := name; f_isDir := false; f_mtime := mtime;
     f_data := data |}.

Definition dirAt (name : string) : File :=
  {| f_dir := "."; f_name := name; f_isDir := true; f_mtime := 0;
     f_data := EmptyString |}.

(** Two lines, four bytes. *)
Definition twoLines : string := ("a" ++ nl ++ "b" ++ nl)%string.

(** A directory that holds [app.log] with two lines. *)
Definition stTwoLines : World :=
  mkWorld [fileAt "app.log" 0 twoLines] noFault (at_time 0).

Definition stEmpty : World := mkWorld [] noFault (at_time 0).

(** Writers on [app.log] that print the message alone. *)
Definition plain (keep : bool) : Writer :=
  SetFormat "%M" (NewWriter_state "app.log" keep).

Definition wLines2 (keep : bool) : Writer := SetRotateLines 2 (plain keep).

Definition wHeader : Writer := SetHeadFoot "H" EmptyString (plain true).

(** The state of the goroutine and of the world after [items]. *)
Definition writerAfter (w : Writer) (items : list Item) (st : World) : Writer :=
  fst (fst (goroutine w items st)).

Definition worldAfter (w : Writer) (items : list Item) (st : World) : World :=
  snd (goroutine w items st).

(** A directory where the name of the next rotated file is taken by a
    directory. *)
Definition stBlocked : World :=
  mkWorld [fileAt "app.log" 0 twoLines; dirAt "app.log.001"]
          noFault (at_time 0).

(** Rotated files of two seconds and of half a second of age, at time
    two seconds. *)
Definition stAged : World :=
  mkWorld [fileAt "app.log.001" 0 twoLines;
           fileAt "app.log.002" 1500000000 twoLines]
          noFault (at_time 2000000000).

Definition wKeep1s : Writer := SetRotatedFilesExpiration 1 (plain true).

(** A directory with a rotated file whose number does not fit in [int]. *)
Definition stHuge : World :=
  mkWorld [fileAt "app.log" 0 twoLines;
           fileAt "app.log.99999999999999999999" 0 twoLines]
          noFault (at_time 0).

(** A writer at work on [app.log], waiting on close. *)
Definition sys0 : System :=
  configure (fun w => SetWaitOnClose true (SetFormat "%M" w))
            (NewWriter "app.log" true stEmpty).

Definition stateOf (o : outcome) : System :=
  match o with
  | Next s => s
  | _ => sys0
  end.

(** The inputs the theorems are tried on. *)



Definition c5_w : Writer := wHeader.
Definition c5_rec : LogRecord := msg "c".
Definition c5_st : World := stTwoLines.
Definition c5_w0 : Writer := fst (fst (openNewFile c5_w c5_st)).
Definition c5_st0 : World := snd (openNewFile c5_w c5_st).
Definition c5_w' : Writer := fst (fst (handleItem c5_w (RecItem c5_rec) c5_st)).
Definition c5_st' : World := snd (handleItem c5_w (RecItem c5_rec) c5_st).

Definition c8_w : Writer := plain true.
Definition c8_st : World := stBlocked.
Definition c8_name : string := "app.log.001".
Definition c8_st2 : World :=
  snd (processAlreadyRotatedFiles c8_w (snd (closeCurrentFile c8_w c8_st))).
Definition c8_err : error := OsError EEXIST.
Definition c8_st3 : World := snd (OS.Rename (filename c8_w) c8_name c8_st2).

Definition c9_w : Writer := wKeep1s.
Definition c9_st : World := stAged.
Definition c9_d : Dirent :=
  {| d_dir := "."; d_name := "app.log.001"; d_ino := 0 |}.

Definition c2_acts : list Action :=
  [Client (LogWrite (msg "a")); Select CaseRec; Client Rotate;
   Client (LogWrite (msg "b")); Select CaseRec].
Definition c2_s : System := stateOf (exec sys0 c2_acts).

Definition c3_acts : list Action :=
  [Client (LogWrite (msg "a")); Select CaseRec; Client Close].
Definition c3_s : System := stateOf (exec sys0 c3_acts).

(** The runs that the corrected claims fail on. *)

(** A record is sent, then a rotation is asked for; [select] takes the
    rotation request first. *)
Definition c2_early : System :=
  stateOf (exec sys0 [Client (LogWrite (msg "a")); Client Rotate;
                      Select CaseRot; Select CaseRec]).

(** A rotation is asked for, then a record is sent; [select] takes the
    record first. *)
Definition c2_late : System :=
  stateOf (exec sys0 [Client (LogWrite (msg "a")); Select CaseRec;
                      Client Rotate; Client (LogWrite (msg "b"));
                      Select CaseRec; Select CaseRot]).


(** Three records under a threshold of two lines, without keeping the
    rotated files. *)
Definition c4_st' : World :=
  worldAfter (wLines2 false)
    [RecItem (msg "a"); RecItem (msg "b"); RecItem (msg "c")] stEmpty.

(** More inputs: a log file and a rotated file, both two seconds old. *)
Definition stOld : World :=
  mkWorld [fileAt "app.log" 0 twoLines; fileAt "app.log.001" 0 twoLines]
          noFault (at_time 2000000000).




Definition x4_d : Dirent :=
  {| d_dir := "."; d_name := "app.log"; d_ino := 0 |}.

Definition x7_w' : Writer := fst (fst (openNewFile (plain true) stTwoLines)).
Definition x7_st' : World := snd (openNewFile (plain true) stTwoLines).

Definition x9_items : list Item := [RecItem (msg "a"); ClosedItem].
Definition x9_w' : Writer := writerAfter (plain true) x9_items stEmpty.
Definition x9_st' : World := worldAfter (plain true) x9_items stEmpty.

Definition x12_w : Writer := SetHeadFoot "H" "T" (plain true).

(** The goroutine has returned: a rotation has failed. *)
Definition x13_s : System :=
  stateOf (exec (configure (SetFormat "%M")
                             (NewWriter "app.log" true stBlocked))
             [Client (LogWrite (msg "a")); Select CaseRec;
              Client Rotate; Select CaseRot]).
Definition x13_acts : list Action :=
  [Client (LogWrite (msg "b")); Client Rotate].
Definition x13_s' : System := stateOf (exec x13_s x13_acts).


(** A session on [app.log], which held two lines, after one record. *)
Definition x17_w : Writer :=
  writerAfter (SetHeadFoot "H" "T" (plain true)) [RecItem (msg "c")]
              stTwoLines.
Definition x17_st : World :=
  worldAfter (SetHeadFoot "H" "T" (plain true)) [RecItem (msg "c")]
             stTwoLines.
Definition x17_w' : Writer := fst (fst (doRotation x17_w x17_st)).
Definition x17_st' : World := snd (doRotation x17_w x17_st).

(** A writer whose path is a directory. *)
Definition x16_w : Writer :=
  SetFormat "%M" (NewWriter_state "app.log.001" true).

End Scenario.

Local Open Scope list_scope.

(** ** What a run shows *)

(** The data of the writes that reached a file, in order. *)
Definition fileData (d : list Event) : list string :=
  flat_map
    (fun e => match e with EvWrite _ data None => [data] | _ => [] end) d.

(** The data handed to the standard output, in order. *)
Definition stdoutData (d : list Event) : list string :=
  flat_map (fun e => match e with EvStdout data _ => [data] | _ => [] end) d.

(** [fd] is an open file. *)
Definition isOpen (fd : Fd) (st : World) : bool :=
  match OS.handle fd (handles st) with
  | Some _ => true
  | None => false
  end.

(** The events of [st'] that came after [st]. *)
Definition since (st st' : World) : list Event :=
  skipn (List.length (trace st)) (trace st').

(** [c] relates every world to the one it leaves. *)
Definition after {A} (R : World -> World -> Prop) (c : IO A) : Prop :=
  forall st, R st (snd (c st)).

(** The trace only grows, by events that satisfy [Q]. *)
Definition grows (Q : list Event -> Prop) (st st' : World) : Prop :=
  exists d, trace st' = trace st ++ d /\ Q d.

(** What reached a file was handed to the standard output, and nothing
    else was. *)
Definition balanced (d : list Event) : Prop := fileData d = stdoutData d.

Definition bal : World -> World -> Prop := grows balanced.


(** The oracle stays the same, and every write to the standard output ends
    as the oracle says at some call. *)
Definition byOracle (st st' : World) : Prop :=
  fault st' = fault st /\
  exists d, trace st' = trace st ++ d /\
    forall data r, In (EvStdout data r) d ->
      exists n, r = option_map OsError (fault st n OpStdout).

(** What the setters fix. *)
Definition config (w : Writer) :=
  (filename w, format w, header w, trailer w, keepRotatedSeconds w,
   maxlines w, maxsize w, daily w, rotate w, waitOnClose w).

Definition heldAt (path : string) (st : World) : string * Z :=
  match OS.lookup path (dirents st) with
  | Some d => (i_data (inodes st (d_ino d)), i_mtime (inodes st (d_ino d)))
  | None => (EmptyString, clock st (ticks st))
  end.

(** The events of one [Fprint] of [s] through the writer on [fd]: the write
    to the file failed, or it went through ([ok]) and the standard output was
    written next. *)
Definition printed (fd : Fd) (s : string) (d : list Event) (ok : bool) : Prop :=
  (exists e, d = [EvWrite fd s (Some e)] /\ ok = false) \/
  (exists r, d = [EvWrite fd s None; EvStdout s r] /\ ok = true).

Definition quietEvent (e : Event) : Prop :=
  match e with
  | EvRename _ _ _ | EvRemove _ _ | EvStderr _ => True
  | _ => False
  end.

(** No event of [d] opens, writes or closes a file. *)
Definition quiet (d : list Event) : Prop := Forall quietEvent d.

(** The open files stay as they are. *)
Definition frame (st st' : World) : Prop :=
  handles st' = handles st /\ next_fd st' = next_fd st /\ grows quiet st st'.

(** The writer's file, when it has one, is a file that was opened. *)
Definition owns (w : Writer) (st : World) : Prop :=
  writer w = file w /\ forall fd, file w = Some fd -> (fd < next_fd st)%nat.

(** The rotation policy as the specification words it. *)
Definition due (lineCount maxLines byteSize maxBytes : Z)
    (dailyRotation : bool) (openDate today : string) : bool :=
  ((maxLines >? 0) && (lineCount >=? maxLines)) ||
  ((maxBytes >? 0) && (byteSize >=? maxBytes)) ||
  (dailyRotation && negb (openDate =? today)%string).

(** A directory entry that [processAlreadyRotatedFiles] takes for a rotated
    file of [base]: not a directory, named [base] and something more. *)
Definition rotated (base : string) (f : FileInfo) : bool :=
  negb (fi_isDir f) && Strings.HasPrefix (fi_name f) base &&
  negb (Strings.TrimPrefix (fi_name f) base =? EmptyString)%string.

(** The entry is older than the writer keeps rotated files. *)
Definition expired (w : Writer) (now : Z) (f : FileInfo) : bool :=
  (keepRotatedSeconds w >? 0) &&
  (Time.Sub now (fi_modTime f) >? keepRotatedSeconds w).

(** [fd] was opened once and is closed now; it will not open again. *)
Definition stale (fd : Fd) (st : World) : Prop :=
  isOpen fd st = false /\ (fd < next_fd st)%nat.

(** From [st] to [st'], files are opened under new descriptors only, and
    no write reaches a file that was closed in [st]. *)
Definition sound (st st' : World) : Prop :=
  (next_fd st <= next_fd st')%nat /\
  (forall fd, stale fd st -> stale fd st') /\
  exists d, trace st' = trace st ++ d /\
    forall fd data, In (EvWrite fd data None) d -> ~ stale fd st.

(** The writer holds its file open. *)
Definition live (w : Writer) (st : World) : Prop :=
  writer w = file w /\
  forall fd, file w = Some fd -> isOpen fd st = true /\ (fd < next_fd st)%nat.

Section Invariants.

Context {P : Platform}.

(** While the goroutine runs, the writer holds its file open. *)
Definition Live (s : System) : Prop :=
  exited s = false -> live (wr s) (world s).

(** Each channel hands over what it was given, in order. *)
Definition fifo (s : System) : Prop :=
  records (sent s) = records (received s) ++ recBuf s /\
  rotations (sent s) = (rotations (received s) + rotSenders s)%nat.

(** Where every writer starts: [NewWriter], then setters. *)
Definition started (s : System) : Prop :=
  file (wr s) = None /\ writer (wr s) = None /\ exited s = false /\
  recBuf s = [] /\ rotSenders s = 0%nat /\ sent s = [] /\ received s = [].

End Invariants.

(** ** What more a run shows *)

(** The number that the digits [u] denote after the digits of [acc]. *)
Fixpoint decimalValue (u : Decimal.uint) (acc : Z) : Z :=
  match u with
  | Decimal.Nil => acc
  | Decimal.D0 l => decimalValue l (acc * 10 + 0)
  | Decimal.D1 l => decimalValue l (acc * 10 + 1)
  | Decimal.D2 l => decimalValue l (acc * 10 + 2)
  | Decimal.D3 l => decimalValue l (acc * 10 + 3)
  | Decimal.D4 l => decimalValue l (acc * 10 + 4)
  | Decimal.D5 l => decimalValue l (acc * 10 + 5)
  | Decimal.D6 l => decimalValue l (acc * 10 + 6)
  | Decimal.D7 l => decimalValue l (acc * 10 + 7)
  | Decimal.D8 l => decimalValue l (acc * 10 + 8)
  | Decimal.D9 l => decimalValue l (acc * 10 + 9)
  end.

(** The number [processAlreadyRotatedFiles] reads in the name of a rotated
    file. *)
Definition numberOf (base : string) (f : FileInfo) : Z :=
  fst (Strconv.Atoi
         (Strings.TrimPrefix (Strings.TrimPrefix (fi_name f) base) ".")).

(** [s] holds a newline. *)
Fixpoint hasNewline (s : string) : bool :=
  match s with
  | EmptyString => false
  | String c s' => Ascii.eqb c "010" || hasNewline s'
  end.

(** A line that the scanner of [openNewFile] can take: no newline inside,
    shorter than the scanner's buffer. *)
Definition shortLine (l : string) : Prop :=
  hasNewline l = false /\
  Z.of_nat (String.length l) < Bufio.MaxScanTokenSize.

(** The text of the lines [ls], each ended by a newline. *)
Fixpoint unlines (ls : list string) : string :=
  match ls with
  | [] => EmptyString
  | l :: rest => l ++ String "010" (unlines rest)
  end.

(** An event that neither opens, renames nor removes a file. *)
Definition steady (e : Event) : Prop :=
  match e with
  | EvOpen _ _ | EvRename _ _ _ | EvRemove _ _ => False
  | _ => True
  end.

Definition steadily : World -> World -> Prop := grows (Forall steady).

(** The events of one session at most: the log file is opened once or not
    at all, and nothing is renamed or removed. *)
Definition oneSession (fName : string) (d : list Event) : Prop :=
  Forall steady d \/
  exists a r b, d = (a ++ EvOpen fName r :: b)%list /\ Forall steady a /\
                Forall steady b.

(** The writer has no limit that makes a record rotate the file. *)
Definition unlimited (w : Writer) : Prop :=
  maxlines w = 0 /\ maxsize w = 0 /\ daily w = false.

(** [s] holds a path separator. *)
Fixpoint hasSlash (s : string) : bool :=
  match s with
  | EmptyString => false
  | String c s' => Ascii.eqb c "/" || hasSlash s'
  end.

(** The entry that a rename puts at the path [new]. *)
Definition renamed (new : string) (x : Dirent) : Dirent :=
  {| d_dir := Filepath.Dir new; d_name := Filepath.Base new;
     d_ino := d_ino x |}.

(** Every open file is the writer's or one of [R]. *)
Definition openAmong (R : Fd -> Prop) (w : Writer) (st : World) : Prop :=
  forall fd, isOpen fd st = true -> file w = Some fd \/ R fd.

(** Every open file is one of [R]. *)
Definition openWithin (R : Fd -> Prop) (st : World) : Prop :=
  forall fd, isOpen fd st = true -> R fd.

(** What a schedule without rotation requests keeps true of a writer
    without limits, from the world [st0] on. *)
Definition calm (fName : string) (st0 : World) (s : System) : Prop :=
  rotSenders s = 0%nat /\
  (exited s = false -> unlimited (wr s) /\ filename (wr s) = fName) /\
  exists d, trace (world s) = (trace st0 ++ d)%list /\
    if exited s then oneSession fName d
    else match file (wr s) with
         | None => Forall steady d
         | Some _ => oneSession fName d
         end.

(** * Properties *)

(** ** Reasoning about computations *)

Section After.

Variable R : World -> World -> Prop.
Hypothesis R_refl : forall st, R st st.
Hypothesis R_trans : forall a b c, R a b -> R b c -> R a c.

Lemma after_ret {A} (a : A) : after R (ret a).
Proof. intros st. apply R_refl. Qed.

Lemma after_bind {A B} (c : IO A) (k : A -> IO B) :
  after R c -> (forall a, after R (k a)) -> after R (bind c k).
Proof.
  intros Hc Hk st. unfold bind.
  specialize (Hc st). destruct (c st) as [a st1]. simpl in Hc.
  eapply R_trans; [exact Hc | apply Hk].
Qed.

End After.

Lemma grows_refl (Q : list Event -> Prop) :
  Q [] -> forall st, grows Q st st.
Proof. intros H st. exists []. rewrite app_nil_r. auto. Qed.

Lemma grows_trans (Q : list Event -> Prop) :
  (forall a b, Q a -> Q b -> Q (a ++ b)) ->
  forall a b c, grows Q a b -> grows Q b c -> grows Q a c.
Proof.
  intros H a b c [d1 [E1 Q1]] [d2 [E2 Q2]].
  exists (d1 ++ d2). rewrite E2, E1, app_assoc. auto.
Qed.


(** Unfolds the system calls down to the world they build. *)
Ltac os_unfold :=
  unfold OS.OpenFile, OS.Stat, OS.ReadAll, OS.Write, OS.StdoutWrite, OS.Close,
    OS.Rename, OS.Remove, OS.ReadDir, OS.Now, OS.Stderr, bind, ret in *.

(** Decides the tests a system call makes, one after the other. *)
Ltac os_case :=
  repeat (simpl;
    match goal with
    | H : ?x = _ |- context [match ?x with _ => _ end] => rewrite H
    | H : ?x = _ |- context [option_map _ ?x] => rewrite H
    | |- context [match OS.handle ?fd ?h with _ => _ end] =>
        destruct (OS.handle fd h) eqn:?
    | |- context [match fault ?st ?n ?op with _ => _ end] =>
        destruct (fault st n op) eqn:?
    | |- context [option_map _ (fault ?st ?n ?op)] =>
        destruct (fault st n op) eqn:?
    | |- context [match OS.lookup ?p ?d with _ => _ end] =>
        destruct (OS.lookup p d) eqn:?
    | |- context [if i_isDir ?x then _ else _] => destruct (i_isDir x) eqn:?
    end); simpl.

(** Splits a computation along its binds and its case distinctions. *)
Ltac io_split known lem_ret lem_bind :=
  repeat first
    [ solve [known]
    | apply lem_ret
    | apply lem_bind; [ | intros ? ]
    | match goal with
      | |- after _ (match ?x with _ => _ end) => destruct x
      | |- after _ (if ?b then _ else _) => destruct b
      | |- after _ (let '(_, _) := ?x in _) => destruct x
      end ].

(** ** Strings, open files and quiet traces *)

Lemma append_nil_r (s : string) : (s ++ EmptyString)%string = s.
Proof. induction s; simpl; congruence. Qed.

Lemma append_assoc (a b c : string) :
  ((a ++ b) ++ c)%string = (a ++ (b ++ c))%string.
Proof. induction a; simpl; congruence. Qed.

Lemma handle_opened fd ino hs : OS.handle fd ((fd, ino) :: hs) = Some ino.
Proof. unfold OS.handle. simpl. rewrite Nat.eqb_refl. reflexivity. Qed.

Lemma handle_closed fd hs :
  OS.handle fd (filter (fun h => negb (fst h =? fd)%nat) hs) = None.
Proof.
  unfold OS.handle. induction hs as [|[a i] hs IH]; simpl; auto.
  destruct (a =? fd)%nat eqn:E; simpl; auto. rewrite E. auto.
Qed.

Lemma handle_closed_other fd fd' hs :
  fd' <> fd ->
  OS.handle fd' (filter (fun h => negb (fst h =? fd)%nat) hs) = OS.handle fd' hs.
Proof.
  intros N. unfold OS.handle. induction hs as [|[a i] hs IH]; simpl; auto.
  destruct (a =? fd)%nat eqn:E; simpl.
  - apply Nat.eqb_eq in E. subst a.
    destruct (fd =? fd')%nat eqn:E'; [apply Nat.eqb_eq in E'; congruence | auto].
  - destruct (a =? fd')%nat; auto.
Qed.

Lemma setInode_same f i x : OS.setInode f i x i = x.
Proof. unfold OS.setInode. rewrite Nat.eqb_refl. reflexivity. Qed.

Lemma setInode_other f i x j : j <> i -> OS.setInode f i x j = f j.
Proof. unfold OS.setInode. intros N. apply Nat.eqb_neq in N. rewrite N. reflexivity. Qed.

Lemma quiet_nil : quiet [].
Proof. constructor. Qed.

Lemma quiet_app a b : quiet a -> quiet b -> quiet (a ++ b).
Proof. unfold quiet. intros. apply Forall_app. auto. Qed.

Lemma frame_refl st : frame st st.
Proof. repeat split. apply grows_refl, quiet_nil. Qed.

Lemma frame_trans a b c : frame a b -> frame b c -> frame a c.
Proof.
  intros (H1 & H2 & H3) (H4 & H5 & H6). repeat split; try congruence.
  eapply grows_trans; eauto using quiet_app.
Qed.

Lemma handle_cons_other fd fd' ino hs :
  fd <> fd' -> OS.handle fd ((fd', ino) :: hs) = OS.handle fd hs.
Proof.
  intros N. unfold OS.handle. simpl.
  destruct (fd' =? fd)%nat eqn:E; [apply Nat.eqb_eq in E; congruence | reflexivity].
Qed.

(** ** Counting, sorting and time *)

Lemma countLines_nonneg s : forall cur num,
  0 <= num -> 0 <= fst (Bufio.countLines s cur num).
Proof.
  induction s as [|c s IH]; intros cur num H; simpl.
  - destruct (cur =? 0); simpl; lia.
  - destruct (Ascii.eqb c "010"); [apply IH; lia|].
    destruct (Bufio.MaxScanTokenSize <=? cur + 1); simpl; [lia | apply IH; lia].
Qed.

Lemma wrapUint64_small x : 0 <= x < 2 ^ 64 -> Int.wrapUint64 x = x.
Proof. intros H. unfold Int.wrapUint64. apply Z.mod_small. exact H. Qed.

Lemma In_insertByName x y l :
  In x (OS.insertByName y l) <-> x = y \/ In x l.
Proof.
  induction l as [|z l IH]; simpl.
  - intuition.
  - destruct (String.leb (fi_name y) (fi_name z)); simpl; [intuition|].
    rewrite IH. intuition.
Qed.

Lemma In_sortByName x l : In x (OS.sortByName l) <-> In x l.
Proof.
  unfold OS.sortByName. induction l as [|y l IH]; simpl.
  - reflexivity.
  - rewrite In_insertByName, IH. intuition.
Qed.

(** The retention age that [SetRotatedFilesExpiration] stores is never the
    largest duration: it is a multiple of two. *)
Lemma expiration_below_max secs :
  Int.wrapInt (secs * Time.Second) < Time.maxDuration.
Proof.
  unfold Int.wrapInt, Time.maxDuration, Int.maxInt64, Time.Second.
  set (a := secs * 1000000000 + 2 ^ 63).
  assert (Hr : 0 <= a mod 2 ^ 64 < 2 ^ 64) by (apply Z.mod_pos_bound; lia).
  assert (Hp : (a mod 2 ^ 64) mod 2 = 0).
  { rewrite (Z.mod_mod_divide a (2 ^ 64) 2).
    - unfold a. replace (secs * 1000000000 + 2 ^ 63)
        with ((secs * 500000000 + 2 ^ 62) * 2) by lia.
      apply Z.mod_mul. lia.
    - exists (2 ^ 63). lia. }
  assert (a mod 2 ^ 64 <> 2 ^ 64 - 1).
  { intros E. rewrite E in Hp. vm_compute in Hp. discriminate. }
  lia.
Qed.

Lemma Sub_gt now t keep :
  0 <= keep < Time.maxDuration ->
  (Time.Sub now t >? keep) = true <-> t < now - keep.
Proof.
  unfold Time.Sub, Time.maxDuration, Time.minDuration, Int.maxInt64, Int.minInt64.
  intros H. rewrite Z.gtb_lt. lia.
Qed.

(** ** Closed files *)

Lemma sound_refl st : sound st st.
Proof.
  split; [lia|]. split; [auto|]. exists []. rewrite app_nil_r.
  split; [reflexivity|]. intros fd data [].
Qed.

Lemma sound_trans a b c : sound a b -> sound b c -> sound a c.
Proof.
  intros (N1 & S1 & d1 & T1 & W1) (N2 & S2 & d2 & T2 & W2).
  split; [lia|]. split; [auto|].
  exists (d1 ++ d2). split; [rewrite T2, T1, app_assoc; reflexivity|].
  intros fd data Hin. apply in_app_or in Hin. destruct Hin as [Hin|Hin].
  - eapply W1; eauto.
  - intros Hs. eapply W2; eauto.
Qed.

Section Facts.

Context {P : Platform}.

(** *** Every write goes to the file and to the standard output *)

Lemma balanced_nil : balanced [].
Proof. reflexivity. Qed.

Lemma balanced_app a b : balanced a -> balanced b -> balanced (a ++ b).
Proof.
  unfold balanced, fileData, stdoutData. intros Ha Hb.
  rewrite !flat_map_app. congruence.
Qed.

Lemma bal_ret {A} (a : A) : after bal (ret a).
Proof. apply after_ret, grows_refl, balanced_nil. Qed.

Lemma bal_bind {A B} (c : IO A) (k : A -> IO B) :
  after bal c -> (forall a, after bal (k a)) -> after bal (bind c k).
Proof. apply after_bind, grows_trans, balanced_app. Qed.

(** Closes a goal [grows Q st st'] on an unfolded system call. *)
Ltac grows_prim :=
  intros st; os_unfold; os_case;
  eexists; (split; [ simpl; rewrite <- ?app_assoc; simpl;
                     try (symmetry; apply app_nil_r); reflexivity
                   | try reflexivity ]).

Lemma bal_Fprint wr s : after bal (Fprint wr s).
Proof. unfold Fprint. destruct wr; grows_prim. Qed.

Lemma bal_OpenFile p : after bal (OS.OpenFile p).
Proof. grows_prim. Qed.

Lemma bal_Stat fd : after bal (OS.Stat fd).
Proof. grows_prim. Qed.

Lemma bal_ReadAll fd : after bal (OS.ReadAll fd).
Proof. grows_prim. Qed.

Lemma bal_Close fd : after bal (OS.Close fd).
Proof. grows_prim. Qed.

Lemma bal_Rename a b : after bal (OS.Rename a b).
Proof. grows_prim. Qed.

Lemma bal_Remove p : after bal (OS.Remove p).
Proof. grows_prim. Qed.

Lemma bal_ReadDir p : after bal (OS.ReadDir p).
Proof. grows_prim. Qed.

Lemma bal_Now : after bal OS.Now.
Proof. grows_prim. Qed.

Lemma bal_Stderr d : after bal (OS.Stderr d).
Proof. grows_prim. Qed.

Create HintDb bal.
Hint Resolve bal_Fprint bal_OpenFile bal_Stat bal_ReadAll bal_Close
  bal_Rename bal_Remove bal_ReadDir bal_Now bal_Stderr : bal.

Ltac bal_auto := io_split ltac:(auto with bal) @bal_ret @bal_bind.

Lemma bal_closeCurrentFile w : after bal (closeCurrentFile w).
Proof. unfold closeCurrentFile. bal_auto. Qed.

Lemma bal_openNewFile w : after bal (openNewFile w).
Proof. unfold openNewFile. bal_auto. Qed.

Lemma bal_scanRotatedFiles w dir base now files :
  forall lastNum, after bal (scanRotatedFiles w dir base now files lastNum).
Proof.
  induction files as [|f rest IH]; intros lastNum; simpl.
  - apply bal_ret.
  - bal_auto.
Qed.

Lemma bal_processAlreadyRotatedFiles w :
  after bal (processAlreadyRotatedFiles w).
Proof.
  unfold processAlreadyRotatedFiles.
  pose proof (bal_scanRotatedFiles w). bal_auto.
Qed.







(** *** With a working standard output, it receives what the file does *)

Lemma byOracle_refl st : byOracle st st.
Proof.
  split; [reflexivity|]. exists []. rewrite app_nil_r.
  split; [reflexivity|]. intros data r [].
Qed.

Lemma byOracle_trans a b c : byOracle a b -> byOracle b c -> byOracle a c.
Proof.
  intros (F1 & d1 & T1 & S1) (F2 & d2 & T2 & S2).
  split; [congruence|].
  exists (d1 ++ d2). split; [rewrite T2, T1, app_assoc; reflexivity|].
  intros data r Hin. apply in_app_or in Hin. destruct Hin as [Hin|Hin].
  - eapply S1; eauto.
  - destruct (S2 _ _ Hin) as [n Hn]. exists n. rewrite <- F1. exact Hn.
Qed.


Lemma byOracle_ret {A} (a : A) : after byOracle (ret a).
Proof. apply after_ret, byOracle_refl. Qed.

Lemma byOracle_bind {A B} (c : IO A) (k : A -> IO B) :
  after byOracle c -> (forall a, after byOracle (k a)) ->
  after byOracle (bind c k).
Proof. apply after_bind, byOracle_trans. Qed.

Lemma frame_byOracle_prim st st' :
  fault st' = fault st ->
  (exists d, trace st' = trace st ++ d /\
     forall data r, ~ In (EvStdout data r) d) ->
  byOracle st st'.
Proof.
  intros F (d & T & H). split; [exact F|]. exists d. split; [exact T|].
  intros data r Hin. exfalso. eapply H; eauto.
Qed.

Ltac byOracle_prim :=
  intros st; os_unfold; os_case;
  (apply frame_byOracle_prim; [reflexivity|]);
  eexists; (split; [ simpl; rewrite <- ?app_assoc; simpl;
                     try (symmetry; apply app_nil_r); reflexivity
                   | intros data r Hin; simpl in Hin;
                     repeat (destruct Hin as [Hin|Hin]; try discriminate);
                     try contradiction ]).

Lemma byOracle_OpenFile p : after byOracle (OS.OpenFile p).
Proof. byOracle_prim. Qed.
Lemma byOracle_Stat fd : after byOracle (OS.Stat fd).
Proof. byOracle_prim. Qed.
Lemma byOracle_ReadAll fd : after byOracle (OS.ReadAll fd).
Proof. byOracle_prim. Qed.
Lemma byOracle_Close fd : after byOracle (OS.Close fd).
Proof. byOracle_prim. Qed.
Lemma byOracle_Rename a b : after byOracle (OS.Rename a b).
Proof. byOracle_prim. Qed.
Lemma byOracle_Remove p : after byOracle (OS.Remove p).
Proof. byOracle_prim. Qed.
Lemma byOracle_ReadDir p : after byOracle (OS.ReadDir p).
Proof. byOracle_prim. Qed.
Lemma byOracle_Now : after byOracle OS.Now.
Proof. byOracle_prim. Qed.
Lemma byOracle_Stderr d : after byOracle (OS.Stderr d).
Proof. byOracle_prim. Qed.

Lemma byOracle_Fprint wr s : after byOracle (Fprint wr s).
Proof.
  intros st. unfold Fprint. destruct wr as [fd|]; [|apply byOracle_refl].
  unfold byOracle. os_unfold. os_case.
  all: split; [reflexivity|].
  all: eexists; (split; [rewrite <- ?app_assoc; simpl; reflexivity|]).
  all: intros data r Hin; simpl in Hin.
  all: repeat (destruct Hin as [Hin|Hin]; try discriminate); try contradiction.
  all: injection Hin as <- <-; eexists; rewrite Heqo1; reflexivity.
Qed.

Create HintDb byOracle.
Hint Resolve byOracle_Fprint byOracle_OpenFile byOracle_Stat
  byOracle_ReadAll byOracle_Close byOracle_Rename byOracle_Remove
  byOracle_ReadDir byOracle_Now byOracle_Stderr : byOracle.

Ltac byOracle_auto :=
  io_split ltac:(auto with byOracle) @byOracle_ret @byOracle_bind.

Lemma byOracle_closeCurrentFile w : after byOracle (closeCurrentFile w).
Proof. unfold closeCurrentFile. byOracle_auto. Qed.


Lemma byOracle_scanRotatedFiles w dir base now files :
  forall lastNum,
    after byOracle (scanRotatedFiles w dir base now files lastNum).
Proof.
  induction files as [|f rest IH]; intros lastNum; simpl.
  - apply byOracle_ret.
  - byOracle_auto.
Qed.

Lemma byOracle_processAlreadyRotatedFiles w :
  after byOracle (processAlreadyRotatedFiles w).
Proof.
  unfold processAlreadyRotatedFiles.
  pose proof (byOracle_scanRotatedFiles w). byOracle_auto.
Qed.








(** *** Steps that leave the open files alone *)

Lemma frame_ret {A} (a : A) : after frame (ret a).
Proof. apply after_ret, frame_refl. Qed.

Lemma frame_bind {A B} (c : IO A) (k : A -> IO B) :
  after frame c -> (forall a, after frame (k a)) -> after frame (bind c k).
Proof. apply after_bind, frame_trans. Qed.

Ltac frame_prim :=
  intros st; os_unfold; os_case;
  (split; [reflexivity | split; [reflexivity | ]]);
  eexists; (split; [ simpl; rewrite <- ?app_assoc; simpl;
                     try (symmetry; apply app_nil_r); reflexivity
                   | repeat constructor ]).

Lemma frame_Now : after frame OS.Now.
Proof. frame_prim. Qed.
Lemma frame_Stderr d : after frame (OS.Stderr d).
Proof. frame_prim. Qed.
Lemma frame_ReadDir p : after frame (OS.ReadDir p).
Proof. frame_prim. Qed.
Lemma frame_Remove p : after frame (OS.Remove p).
Proof. frame_prim. Qed.
Lemma frame_Rename a b : after frame (OS.Rename a b).
Proof. frame_prim. Qed.
Lemma frame_Stat fd : after frame (OS.Stat fd).
Proof. frame_prim. Qed.
Lemma frame_ReadAll fd : after frame (OS.ReadAll fd).
Proof. frame_prim. Qed.

Create HintDb frame.
Hint Resolve frame_Now frame_Stderr frame_ReadDir frame_Remove frame_Rename
  frame_Stat frame_ReadAll : frame.

Ltac frame_auto := io_split ltac:(auto with frame) @frame_ret @frame_bind.

Lemma frame_scanRotatedFiles w dir base now files :
  forall lastNum, after frame (scanRotatedFiles w dir base now files lastNum).
Proof.
  induction files as [|f rest IH]; intros lastNum; simpl.
  - apply frame_ret.
  - frame_auto.
Qed.

Lemma frame_processAlreadyRotatedFiles w :
  after frame (processAlreadyRotatedFiles w).
Proof.
  unfold processAlreadyRotatedFiles.
  pose proof (frame_scanRotatedFiles w). frame_auto.
Qed.

Lemma frame_checkRotation w : after frame (checkRotation w).
Proof. unfold checkRotation. frame_auto. Qed.

(** *** Opening, printing, closing and writing *)

Lemma openNewFile_ok w st w' st' :
  openNewFile w st = ((w', None), st') ->
  let fd := next_fd st in
  let data := fst (heldAt (filename w) st) in
  file w' = Some fd /\ writer w' = Some fd /\ config w' = config w /\
  Bufio.countLines data 0 0 = (fst (Bufio.countLines data 0 0), false) /\
  maxlinesCurlines w' = Int.wrapUint64 (fst (Bufio.countLines data 0 0)) /\
  maxsizeCursize w' = Int.wrapUint64 (Z.of_nat (String.length data)) /\
  dailyOpenDate w' = FormatDay (snd (heldAt (filename w) st)) /\
  next_fd st' = S fd /\ 
  exists ino now d ok, 
    let hdr := FormatLogRecord (header w) (stamp now) in
    handles st' = (fd, ino) :: handles st /\
    trace st' = trace st ++ EvOpen (filename w) (Ok fd) :: d /\ printed fd hdr d ok /\
    i_data (inodes st' ino) = (data ++ (if ok then hdr else EmptyString))%string.
Proof.
  unfold openNewFile, Fprint, heldAt. os_unfold. 
  os_case; try discriminate.
  all: rewrite ?handle_opened; simpl.
  all: os_case; try discriminate.
  all: try (destruct (Bufio.countLines _ 0 0) as [num [|]] eqn:EC; simpl; try discriminate).
  all: rewrite ?handle_opened; simpl.
  all: os_case; try discriminate.
  all: rewrite handle_opened in *.
  all: repeat match goal with H : Some _ = Some _ |- _ => injection H as H; subst end.
  all: intros H; injection H as <- <-; simpl.
  all: rewrite ?setInode_same in *; simpl in *.
  all: try (injection EC as <-).
  all: rewrite ?EC; simpl.
  all: repeat (split; [reflexivity|]).
  all: do 4 eexists.
  all: (split; [reflexivity|]).
  all: (split; [rewrite <- ?app_assoc; simpl; reflexivity|]).
  all: rewrite ?setInode_same; simpl.
  all: split; [ first [ left; eexists; split; reflexivity
                      | right; eexists; split; reflexivity ] | ].
  all: simpl; rewrite ?append_nil_r; reflexivity.
Qed.

Lemma closeCurrentFile_none w st :
  file w = None -> closeCurrentFile w st = (tt, st).
Proof. unfold closeCurrentFile. intros ->. reflexivity. Qed.

Lemma handle_none_filter fd hs :
  OS.handle fd hs = None ->
  filter (fun h => negb (fst h =? fd)%nat) hs = hs.
Proof.
  unfold OS.handle. induction hs as [|[a i] hs IH]; simpl; auto.
  destruct (a =? fd)%nat eqn:E; simpl; [discriminate|].
  intros H. rewrite IH; auto.
Qed.

(** What one [Fprint] through the writer on [fd] does. *)
Lemma Fprint_spec fd s st :
  let r := fst (Fprint (Some fd) s st) in
  let st' := snd (Fprint (Some fd) s st) in
  handles st' = handles st /\ next_fd st' = next_fd st /\
  dirents st' = dirents st /\
  exists d ok,
    trace st' = trace st ++ d /\ printed fd s d ok /\
    (r = Ok (Z.of_nat (String.length s)) ->
     d = [EvWrite fd s None; EvStdout s None]) /\
    (forall n, r = Ok n -> n = Z.of_nat (String.length s)) /\
    (if ok
     then exists ino, OS.handle fd (handles st) = Some ino /\
            i_data (inodes st' ino) = (i_data (inodes st ino) ++ s)%string /\
            forall j, j <> ino -> inodes st' j = inodes st j
     else inodes st' = inodes st).
Proof.
  unfold Fprint. os_unfold. os_case.
  all: repeat (split; [reflexivity|]).
  all: do 2 eexists.
  all: (split; [rewrite <- ?app_assoc; simpl; reflexivity|]).
  all: (split; [ first [ left; eexists; split; reflexivity
                       | right; eexists; split; reflexivity ] | ]).
  all: (split; [ intros H; try discriminate; reflexivity | ]).
  all: (split; [ intros k H; try discriminate; congruence | ]).
  all: simpl; try reflexivity.
  all: eexists; split; [reflexivity|]; split;
       [ rewrite setInode_same; reflexivity
       | intros j Hj; apply setInode_other; exact Hj ].
Qed.

Lemma Close_spec fd st :
  let r := fst (OS.Close fd st) in
  let st' := snd (OS.Close fd st) in
  trace st' = trace st ++ [EvClose fd r] /\
  handles st' = filter (fun h => negb (fst h =? fd)%nat) (handles st) /\
  next_fd st' = next_fd st /\
  (isOpen fd st = true -> r <> Some ErrClosed) /\
  (isOpen fd st = false -> r = Some ErrClosed).
Proof.
  unfold isOpen. os_unfold.
  destruct (OS.handle fd (handles st)) eqn:E; simpl.
  - repeat split; try discriminate.
    destruct (fault st (ticks st) (OpClose fd)); discriminate.
  - repeat split; try discriminate.
    symmetry. apply handle_none_filter, E.
Qed.

Lemma closeCurrentFile_some w fd st u st' :
  file w = Some fd -> writer w = Some fd ->
  closeCurrentFile w st = (u, st') ->
  handles st' = filter (fun h => negb (fst h =? fd)%nat) (handles st) /\
  next_fd st' = next_fd st /\
  exists now d ok r tail,
    trace st' = trace st ++ d ++ EvClose fd r :: tail /\
    printed fd (FormatLogRecord (trailer w) (stamp now)) d ok /\
    quiet tail /\
    (isOpen fd st = true -> r <> Some ErrClosed).
Proof.
  unfold closeCurrentFile. intros -> -> H. unfold bind, OS.Now in H.
  set (s := FormatLogRecord (trailer w) (stamp (clock st (ticks st)))) in *.
  destruct (Fprint_spec fd s (OS.tick st)) as (Fh & Fn & _ & d & ok & Ft & Fp & _).
  destruct (Fprint (Some fd) s (OS.tick st)) as [r1 st1]. simpl in Fh, Fn, Ft.
  destruct (Close_spec fd st1) as (Ct & Ch & Cn & Co & _).
  destruct (OS.Close fd st1) as [r2 st2]. simpl in Ct, Ch, Cn, Co.
  assert (Hopen : isOpen fd st1 = isOpen fd st) by (unfold isOpen; rewrite Fh; reflexivity).
  rewrite Hopen in Co.
  destruct r2 as [e|]; unfold OS.Stderr, ret in H; injection H as _ <-; simpl.
  - split; [congruence|]. split; [congruence|].
    exists (clock st (ticks st)), d, ok, (Some e), [EvStderr (DiagClose e)].
    split; [rewrite Ct, Ft, <- !app_assoc; reflexivity|].
    split; [exact Fp|]. split; [repeat constructor | exact Co].
  - split; [congruence|]. split; [congruence|].
    exists (clock st (ticks st)), d, ok, None, [].
    split; [rewrite Ct, Ft, <- !app_assoc; reflexivity|].
    split; [exact Fp|]. split; [constructor | exact Co].
Qed.

Lemma write_ok w rec st w' st' fd :
  writer w = Some fd ->
  write w rec st = ((w', None), st') ->
  let data := FormatLogRecord (format w) rec in
  trace st' = trace st ++ [EvWrite fd data None; EvStdout data None] /\
  handles st' = handles st /\ next_fd st' = next_fd st /\
  dirents st' = dirents st /\
  file w' = file w /\ writer w' = writer w /\ config w' = config w /\
  dailyOpenDate w' = dailyOpenDate w /\
  maxlinesCurlines w' = Int.wrapUint64 (maxlinesCurlines w + 1) /\
  maxsizeCursize w' =
    Int.wrapUint64 (maxsizeCursize w + Z.of_nat (String.length data)) /\
  exists ino, OS.handle fd (handles st) = Some ino /\
    i_data (inodes st' ino) = (i_data (inodes st ino) ++ data)%string /\
    forall j, j <> ino -> inodes st' j = inodes st j.
Proof.
  intros Hw. unfold write, bind. rewrite Hw.
  set (data := FormatLogRecord (format w) rec).
  destruct (Fprint_spec fd data st) as (Fh & Fn & Fd' & d & ok & Ft & Fp & Fok & Flen & Fi).
  destruct (Fprint (Some fd) data st) as [r st1]. simpl in *.
  destruct r as [n|e]; [|discriminate].
  intros H. injection H as <- <-. simpl.
  pose proof (Flen n eq_refl) as ->. rewrite (Fok eq_refl) in *.
  repeat (split; [assumption || reflexivity|]).
  destruct Fp as [(e & He & _)|(r & He & ->)]; [discriminate|].
  exact Fi.
Qed.

(** *** One rotation *)

Lemma frame_renameStep w : after frame (renameStep w).
Proof.
  unfold renameStep. pose proof frame_processAlreadyRotatedFiles.
  io_split ltac:(auto using frame_Rename) @frame_ret @frame_bind.
Qed.

(** [doRotation] in its three steps. *)
Lemma doRotation_steps w st :
  doRotation w st =
  (let st1 := snd (closeCurrentFile w st) in
   let '(failed, st2) := renameStep w st1 in
   match failed with
   | Some e => ((w, Some e), st2)
   | None =>
       match file w with
       | Some _ => openNewFile w st2
       | None => ((w, None), st2)
       end
   end).
Proof.
  unfold doRotation, renameStep, bind.
  destruct (closeCurrentFile w st) as [[] st1]. simpl.
  destruct (rotate w); simpl; [|destruct (file w); reflexivity].
  destruct (processAlreadyRotatedFiles w st1) as [name st2].
  destruct (OS.Rename (filename w) name st2) as [[e|] st3]; simpl.
  - destruct (negb (os_IsNotExist e)); simpl; [reflexivity|].
    destruct (file w); reflexivity.
  - destruct (file w); reflexivity.
Qed.

Lemma doRotation_session w fd st w' st' :
  file w = Some fd -> writer w = Some fd -> (fd < next_fd st)%nat ->
  doRotation w st = ((w', None), st') ->
  let fd' := next_fd st in
  file w' = Some fd' /\ writer w' = Some fd' /\ config w' = config w /\
  next_fd st' = S fd' /\ isOpen fd st' = false /\ isOpen fd' st' = true /\
  exists tnow tr tok r mid hnow hd hok data ino,
    let tlr := FormatLogRecord (trailer w) (stamp tnow) in
    let hdr := FormatLogRecord (header w) (stamp hnow) in
    trace st' = trace st ++ tr ++ EvClose fd r :: mid ++
                  EvOpen (filename w) (Ok fd') :: hd /\
    printed fd tlr tr tok /\ quiet mid /\ printed fd' hdr hd hok /\
    (isOpen fd st = true -> r <> Some ErrClosed) /\
    Bufio.countLines data 0 0 = (fst (Bufio.countLines data 0 0), false) /\
    maxlinesCurlines w' = Int.wrapUint64 (fst (Bufio.countLines data 0 0)) /\
    maxsizeCursize w' = Int.wrapUint64 (Z.of_nat (String.length data)) /\
    OS.handle fd' (handles st') = Some ino /\
    i_data (inodes st' ino) = (data ++ (if hok then hdr else EmptyString))%string.
Proof.
  intros Hf Hw Hlt H. rewrite doRotation_steps in H. cbv zeta in H.
  destruct (closeCurrentFile w st) as [u st1] eqn:E1.
  destruct (closeCurrentFile_some _ _ _ _ _ Hf Hw E1)
    as (Ch & Cn & tnow & tr & tok & r & tail & Ct & Cp & Cq & Co).
  simpl in H. pose proof (frame_renameStep w st1) as (Rh & Rn & mid & Rt & Rq).
  destruct (renameStep w st1) as [failed st2]. simpl in Rh, Rn, Rt.
  destruct failed as [e|]; [discriminate|]. rewrite Hf in H.
  destruct (openNewFile_ok _ _ _ _ H)
    as (Of & Ow & Oc & Ol & Oml & Oms & _ & On & ino & hnow & hd & hok & Oh & Ot & Op & Oi).
  assert (E : next_fd st2 = next_fd st) by congruence. rewrite E in *.
  repeat (split; [assumption|]).
  split.
  { unfold isOpen. rewrite Oh, handle_cons_other by lia.
    rewrite Rh, Ch, handle_closed. reflexivity. }
  split.
  { unfold isOpen. rewrite Oh, handle_opened. reflexivity. }
  exists tnow, tr, tok, r, (tail ++ mid), hnow, hd, hok,
    (fst (heldAt (filename w) st2)), ino.
  cbv zeta. split.
  { rewrite Ot, Rt, Ct. repeat (rewrite <- app_assoc; simpl). reflexivity. }
  repeat (split; [first [assumption | apply quiet_app; assumption]|]).
  split; [rewrite Oh; apply handle_opened | exact Oi].
Qed.

(** *** The rotation policy, and the record after it *)


(** The goroutine's test is the policy at the current time; it leaves the
    world as it is, but for reading the clock. *)
Lemma checkRotation_spec w st :
  fst (checkRotation w st) = rotationDue w (clock st (ticks st)) /\
  (snd (checkRotation w st) = st \/ snd (checkRotation w st) = OS.tick st).
Proof.
  unfold checkRotation, rotationDue.
  destruct ((maxlines w >? 0) && (maxlinesCurlines w >=? maxlines w) ||
            (maxsize w >? 0) && (maxsizeCursize w >=? maxsize w)); simpl.
  - auto.
  - destruct (daily w); simpl; auto.
Qed.


Lemma since_app st st' d : trace st' = trace st ++ d -> since st st' = d.
Proof.
  intros E. unfold since. rewrite E, skipn_app, skipn_all, Nat.sub_diag. reflexivity.
Qed.


(** *** A rotation request *)

Lemma doRotation_no_session w st w' e st' :
  file w = None -> doRotation w st = ((w', e), st') ->
  w' = w /\ frame st st'.
Proof.
  intros Hf H. rewrite doRotation_steps in H. cbv zeta in H.
  rewrite (closeCurrentFile_none _ _ Hf) in H. simpl in H.
  pose proof (frame_renameStep w st) as HF.
  destruct (renameStep w st) as [failed st2]. simpl in HF.
  rewrite Hf in H. destruct failed; injection H as <- <- <-; auto.
Qed.

Lemma openNewFile_brand_new w st w' st' :
  OS.lookup (filename w) (dirents st) = None ->
  openNewFile w st = ((w', None), st') ->
  maxlinesCurlines w' = 0 /\ maxsizeCursize w' = 0.
Proof.
  intros Hl H.
  destruct (openNewFile_ok _ _ _ _ H) as (_ & _ & _ & _ & Ol & Os & _).
  unfold heldAt in *. rewrite Hl in *. simpl in *. auto.
Qed.


(** C5, as amended. When a session opens the file, the line counter is the
    number of lines scanned in it, the byte counter its size and the open
    date the day of its modification time.  A record then written without
    rotation adds one line and its own length to the counters, so a file of
    N lines and B bytes gives N+1 and B+len(record); the header written at
    the opening is in the file but not in the counters. *)
Theorem C5_counters_recovered_then_counted (w : Writer) (rec : LogRecord)
    (st : World) (w0 : Writer) (st0 : World) (w' : Writer) (st' : World) :
  file w = None ->
  openNewFile w st = ((w0, None), st0) ->
  rotationDue w0 (clock st0 (ticks st0)) = false ->
  handleItem w (RecItem rec) st = ((w', false), st') ->
  let data := fst (heldAt (filename w) st) in
  let mtime := snd (heldAt (filename w) st) in
  let N := fst (Bufio.countLines data 0 0) in
  let B := Z.of_nat (String.length data) in
  let line := FormatLogRecord (format w) rec in
  (maxlinesCurlines w0 = Int.wrapUint64 N /\
   maxsizeCursize w0 = Int.wrapUint64 B /\
   dailyOpenDate w0 = FormatDay mtime) /\
  (N + 1 < 2 ^ 64 ->
   B + Z.of_nat (String.length line) < 2 ^ 64 ->
   maxlinesCurlines w0 = N /\ maxsizeCursize w0 = B /\
   maxlinesCurlines w' = N + 1 /\
   maxsizeCursize w' = B + Z.of_nat (String.length line)) /\
  exists fd ino hnow (hok : bool),
    file w' = Some fd /\ OS.handle fd (handles st') = Some ino /\
    i_data (inodes st' ino) =
      (data ++
       (if hok then FormatLogRecord (header w) (stamp hnow) else EmptyString)
       ++ line)%string.
Proof.
  intros Hf H0 Hdue H data mtime N B line.
  destruct (openNewFile_ok _ _ _ _ H0)
    as (Of & Ow & Oc & _ & Ol & Os & Od & On & ino & hnow & hd & hok & Oh
        & Ot & Op & Oi).
  fold data in Ol, Os, Oi. fold mtime in Od. fold N in Ol. fold B in Os.
  assert (HN0 : 0 <= N) by (apply countLines_nonneg; lia).
  assert (HB0 : 0 <= B) by (unfold B; lia).
  split; [auto|].
  unfold handleItem, ensureOpen, bind in H. rewrite Hf, H0 in H.
  unfold rotateAndWrite, bind in H.
  destruct (checkRotation_spec w0 st0) as [Hd Hst]. rewrite Hdue in Hd.
  destruct (checkRotation w0 st0) as [dec stc]. simpl in Hd, Hst. subst dec.
  unfold ret at 1 in H.
  destruct (write w0 rec stc) as [[w2 e2] st2] eqn:EW.
  destruct e2 as [e2|];
    [unfold printErr, OS.Stderr, ret in H; simpl in H; discriminate|].
  unfold ret in H. injection H as <- <-.
  destruct (write_ok _ _ _ _ _ _ Ow EW)
    as (_ & Wh & _ & _ & Wf & _ & _ & _ & Wl & Ws & ino' & Whd & Wi & _).
  assert (Efmt : format w0 = format w) by (unfold config in Oc; congruence).
  rewrite Efmt in *. fold line in Ws, Wi.
  split.
  { intros HN HB. rewrite Ol in Wl. rewrite Os in Ws.
    rewrite wrapUint64_small in Ol by lia.
    rewrite wrapUint64_small in Os by lia.
    rewrite (wrapUint64_small N) in Wl by lia.
    rewrite (wrapUint64_small B) in Ws by lia.
    rewrite wrapUint64_small in Wl by lia.
    rewrite wrapUint64_small in Ws by lia.
    auto. }
  assert (Hhs : handles stc = handles st0) by (destruct Hst; subst; reflexivity).
  assert (Hin : inodes stc = inodes st0) by (destruct Hst; subst; reflexivity).
  rewrite Hhs, Oh, handle_opened in Whd. injection Whd as <-.
  exists (next_fd st), ino, hnow, hok.
  split; [congruence|]. split; [rewrite Wh, Hhs, Oh; apply handle_opened|].
  rewrite Wi, Hin, Oi. rewrite append_assoc. reflexivity.
Qed.

(** *** Failures that end the goroutine *)

Lemma goroutine_stopped w it rest st w' st' :
  handleItem w it st = ((w', true), st') ->
  goroutine w (it :: rest) st = goroutine w [it] st /\
  snd (fst (goroutine w [it] st)) = true.
Proof.
  intros H. unfold goroutine, bind. simpl. unfold bind. rewrite H.
  unfold ret. simpl. destruct (closeCurrentFile w' st'). auto.
Qed.

Lemma handleItem_RotItem_failed w st w' e st' :
  doRotation w st = ((w', Some e), st') ->
  handleItem w RotItem st = ((w', true), snd (printErr w' e st')).
Proof.
  intros H. unfold handleItem, bind. rewrite H.
  unfold printErr, OS.Stderr, ret. reflexivity.
Qed.

Lemma handleItem_RecItem_failed w0 st0 w stA st rec w' e st' :
  ensureOpen w0 st0 = ((w, None), stA) ->
  checkRotation w stA = (true, st) ->
  doRotation w st = ((w', Some e), st') ->
  handleItem w0 (RecItem rec) st0 = ((w', true), snd (printErr w' e st')).
Proof.
  intros H0 Hc H. unfold handleItem, bind. rewrite H0.
  unfold rotateAndWrite, bind. rewrite Hc, H.
  unfold printErr, OS.Stderr, ret. reflexivity.
Qed.

(** C8. In a rotation that keeps the rotated files, when the rename
    fails: if the error says that the file does not exist, the rotation
    goes on as if the rename had been done; with any other error the
    rotation returns "rotation failed", and the goroutine returns without
    taking another item, whether the rotation came from a request or from
    a record that found rotation due. *)
Theorem C8_rename_failure (w : Writer) (st : World) (name : string)
    (st2 : World) (err : error) (st3 : World) :
  rotate w = true ->
  processAlreadyRotatedFiles w (snd (closeCurrentFile w st)) = (name, st2) ->
  OS.Rename (filename w) name st2 = (Some err, st3) ->
  if os_IsNotExist err
  then
    doRotation w st =
    match file w with
    | Some _ => openNewFile w st3
    | None => ((w, None), st3)
    end
  else
    doRotation w st = ((w, Some (RotationFailed err)), st3) /\
    (forall rest,
       goroutine w (RotItem :: rest) st = goroutine w [RotItem] st /\
       snd (fst (goroutine w [RotItem] st)) = true) /\
    (forall w0 st0 stA rec rest,
       ensureOpen w0 st0 = ((w, None), stA) ->
       checkRotation w stA = (true, st) ->
       goroutine w0 (RecItem rec :: rest) st0 =
         goroutine w0 [RecItem rec] st0 /\
       snd (fst (goroutine w0 [RecItem rec] st0)) = true).
Proof.
  intros Hr Hp Hn.
  assert (Hs : renameStep w (snd (closeCurrentFile w st)) =
               ((if os_IsNotExist err then None
                 else Some (RotationFailed err)), st3)).
  { unfold renameStep, bind. rewrite Hr, Hp, Hn.
    destruct (os_IsNotExist err); reflexivity. }
  pose proof (doRotation_steps w st) as HD. cbv zeta in HD. rewrite Hs in HD.
  destruct (os_IsNotExist err).
  - exact HD.
  - split; [exact HD|]. split.
    + intros rest. eapply goroutine_stopped.
      apply handleItem_RotItem_failed. exact HD.
    + intros w0 st0 stA rec rest H0 Hc. eapply goroutine_stopped.
      eapply handleItem_RecItem_failed; eauto.
Qed.

(** *** The retention scan *)

Lemma scanRotatedFiles_cons w dir base now f rest lastNum :
  scanRotatedFiles w dir base now (f :: rest) lastNum =
  if rotated base f then
    let num := fst (Strconv.Atoi
                      (Strings.TrimPrefix (Strings.TrimPrefix (fi_name f) base) ".")) in
    (if expired w now f then
       err <- OS.Remove (Filepath.Join dir (fi_name f)) ;;
       match err with
       | Some e => OS.Stderr (DiagRemove (fi_name f) e)
       | None => ret tt
       end
     else ret tt) ;;
    scanRotatedFiles w dir base now rest (if num >? lastNum then num else lastNum)
  else scanRotatedFiles w dir base now rest lastNum.
Proof.
  simpl. unfold rotated, expired.
  destruct (fi_isDir f); simpl; [reflexivity|].
  destruct (Strings.HasPrefix (fi_name f) base); simpl; [|reflexivity].
  destruct (Strings.TrimPrefix (fi_name f) base =? EmptyString)%string; reflexivity.
Qed.

Lemma removeExpired_spec dir f st u st' :
  removeExpired dir f st = (u, st') ->
  let p := Filepath.Join dir (fi_name f) in
  inodes st' = inodes st /\
  exists r tail,
    trace st' = trace st ++ EvRemove p r :: tail /\
    (r = None ->
     dirents st' = filter (fun x => negb (OS.path_of x =? p)%string) (dirents st)) /\
    (r <> None -> dirents st' = dirents st).
Proof.
  unfold removeExpired. os_unfold. os_case.
  all: intros H; injection H as _ <-; simpl.
  all: split; [reflexivity|]; do 2 eexists.
  all: (split; [rewrite <- ?app_assoc; simpl; reflexivity|]).
  all: split; intros H; try discriminate; try reflexivity; try congruence.
Qed.

Lemma scanRotatedFiles_spec w dir base now files :
  forall lastNum st n st',
    scanRotatedFiles w dir base now files lastNum st = (n, st') ->
    inodes st' = inodes st /\
    (forall d, In d (dirents st') -> In d (dirents st)) /\
    (forall d, In d (dirents st) ->
       (forall f, In f files -> rotated base f = true -> expired w now f = true ->
                  OS.path_of d <> Filepath.Join dir (fi_name f)) ->
       In d (dirents st')) /\
    (exists tr, trace st' = trace st ++ tr /\
     forall f, In f files -> rotated base f = true -> expired w now f = true ->
       exists r, In (EvRemove (Filepath.Join dir (fi_name f)) r) tr /\
         (r = None -> forall d, In d (dirents st') ->
                      OS.path_of d <> Filepath.Join dir (fi_name f))).
Proof.
  induction files as [|f rest IH]; intros lastNum st n st' H.
  - simpl in H. injection H as _ <-.
    split; [reflexivity|]. split; [auto|]. split; [auto|].
    exists []. rewrite app_nil_r. split; [reflexivity|]. intros f [].
  - rewrite scanRotatedFiles_cons in H. cbv zeta in H.
    destruct (rotated base f) eqn:Hrot.
    + destruct (expired w now f) eqn:Hexp.
      * (* the file is removed, or the removal fails *)
        fold (removeExpired dir f) in H. unfold bind at 1 in H.
        destruct (removeExpired dir f st) as [u st1] eqn:ER.
        destruct (removeExpired_spec _ _ _ _ _ ER)
          as (Ri & r & tail & Rt & Rok & Rfail).
        destruct (IH _ _ _ _ H) as (Ii & Isub & Isurv & tr & It & Idel).
        assert (Hsub1 : forall d, In d (dirents st1) -> In d (dirents st)).
        { intros d Hd. destruct r as [e|].
          - rewrite Rfail in Hd by discriminate. exact Hd.
          - rewrite (Rok eq_refl) in Hd. apply filter_In in Hd. apply Hd. }
        split; [congruence|]. split; [auto|]. split.
        { intros d Hd Hne. apply Isurv.
          - destruct r as [e|].
            + rewrite Rfail by discriminate. exact Hd.
            + rewrite (Rok eq_refl). apply filter_In. split; [exact Hd|].
              apply negb_true_iff, String.eqb_neq.
              apply (Hne f); simpl; auto.
          - intros f' Hf'. apply Hne. simpl. auto. }
        exists (EvRemove (Filepath.Join dir (fi_name f)) r :: tail ++ tr).
        split.
        { rewrite It, Rt. repeat (rewrite <- app_assoc; simpl). reflexivity. }
        intros f' Hin' Hr' He'; simpl in Hin'; destruct Hin' as [<-|Hf'].
        { exists r. split; [simpl; auto|].
          intros -> d Hd. apply Isub in Hd. rewrite (Rok eq_refl) in Hd.
          apply filter_In in Hd. destruct Hd as [_ Hd].
          apply negb_true_iff, String.eqb_neq in Hd. exact Hd. }
        destruct (Idel f' Hf' Hr' He') as (r' & Hin & Hgone).
        exists r'. split; [|exact Hgone].
        simpl. right. apply in_or_app. right. exact Hin.
      * unfold bind at 1 in H. unfold ret at 1 in H.
        destruct (IH _ _ _ _ H) as (Ii & Isub & Isurv & tr & It & Idel).
        split; [exact Ii|]. split; [exact Isub|]. split.
        { intros d Hd Hne. apply Isurv; [exact Hd|].
          intros f' Hf'. apply Hne. simpl. auto. }
        exists tr. split; [exact It|].
        intros f' Hin' Hr' He'; simpl in Hin'; destruct Hin' as [<-|Hf'];
          [congruence|]. apply Idel; auto.
    + destruct (IH _ _ _ _ H) as (Ii & Isub & Isurv & tr & It & Idel).
      split; [exact Ii|]. split; [exact Isub|]. split.
      { intros d Hd Hne. apply Isurv; [exact Hd|].
        intros f' Hf'. apply Hne. simpl. auto. }
      exists tr. split; [exact It|].
      intros f' Hin' Hr' He'; simpl in Hin'; destruct Hin' as [<-|Hf'];
        [congruence|]. apply Idel; auto.
Qed.

Lemma lookup_none p ds :
  (forall d, In d ds -> OS.path_of d <> p) -> OS.lookup p ds = None.
Proof.
  intros H. unfold OS.lookup. induction ds as [|d ds IH]; simpl; auto.
  destruct (OS.path_of d =? p)%string eqn:E.
  - apply String.eqb_eq in E. exfalso. apply (H d); simpl; auto.
  - apply IH. intros d' Hd'. apply H. simpl. auto.
Qed.

Lemma NoDup_path_inj ds d1 d2 :
  NoDup (map OS.path_of ds) -> In d1 ds -> In d2 ds ->
  OS.path_of d1 = OS.path_of d2 -> d1 = d2.
Proof.
  induction ds as [|d ds IH]; simpl; intros ND H1 H2 E; [contradiction|].
  inversion ND as [|? ? Hnin ND']; subst.
  destruct H1 as [<-|H1], H2 as [<-|H2]; auto.
  - exfalso. apply Hnin. rewrite E. apply in_map. exact H2.
  - exfalso. apply Hnin. rewrite <- E. apply in_map. exact H1.
Qed.

(** C9. In a retention scan with a retention age above zero, set by
    [SetRotatedFilesExpiration], over a directory that could be listed: every
    rotated file whose modification time is strictly older than now minus the
    retention age gets a removal, and is gone unless that removal failed;
    every rotated file that is not older is still there, untouched; a failed
    removal stops neither. *)
Theorem C9_retention_scan (w : Writer) (secs : Z) (st : World) (d : Dirent) :
  keepRotatedSeconds w = Int.wrapInt (secs * Time.Second) ->
  0 < keepRotatedSeconds w ->
  fault st (ticks st) (OpReadDir (Filepath.Dir (filename w))) = None ->
  NoDup (map OS.path_of (dirents st)) ->
  In d (dirents st) ->
  d_dir d = Filepath.Dir (filename w) ->
  rotated (Filepath.Base (filename w)) (OS.info (inodes st) d) = true ->
  let now := clock st (S (ticks st)) in
  let st' := snd (processAlreadyRotatedFiles w st) in
  let mtime := i_mtime (inodes st (d_ino d)) in
    (mtime < now - keepRotatedSeconds w ->
     exists r,
       In (EvRemove (OS.path_of d) r) (since st st') /\
       (r = None ->
        ~ In d (dirents st') /\
        OS.lookup (OS.path_of d) (dirents st') = None)) /\
    (now - keepRotatedSeconds w <= mtime ->
     In d (dirents st') /\ inodes st' (d_ino d) = inodes st (d_ino d)).
Proof.
  intros Hset Hpos Hrd ND Hd Hdir Hrot now st' mtime.
  assert (Hmax : keepRotatedSeconds w < Time.maxDuration)
    by (rewrite Hset; apply expiration_below_max).
  set (dir := Filepath.Dir (filename w)) in *.
  set (base := Filepath.Base (filename w)) in *.
  assert (Hst' : exists n,
             scanRotatedFiles w dir base now
               (OS.sortByName
                  (map (OS.info (inodes st))
                     (filter (fun x => (d_dir x =? dir)%string) (dirents st))))
               0 (OS.tick (OS.tick st)) = (n, st')).
  { unfold st', processAlreadyRotatedFiles. fold dir base.
    unfold bind at 1. unfold OS.ReadDir. rewrite Hrd.
    unfold bind at 1. unfold bind at 1. unfold OS.Now. simpl.
    fold now.
    destruct (scanRotatedFiles w dir base now _ 0 (OS.tick (OS.tick st)))
      as [n stn]. simpl. eauto. }
  destruct Hst' as [n Hscan].
  destruct (scanRotatedFiles_spec _ _ _ _ _ _ _ _ _ Hscan)
    as (Si & Ssub & Ssurv & tr & St & Sdel).
  simpl in Si, St, Ssurv, Ssub.
  assert (Hlist : forall f,
             In f (OS.sortByName
                     (map (OS.info (inodes st))
                        (filter (fun x => (d_dir x =? dir)%string) (dirents st)))) <->
             exists x, In x (dirents st) /\ d_dir x = dir /\ f = OS.info (inodes st) x).
  { intros f. rewrite In_sortByName, in_map_iff. split.
    - intros (x & <- & Hx). apply filter_In in Hx. destruct Hx as [Hx Hxd].
      apply String.eqb_eq in Hxd. eauto.
    - intros (x & Hx & Hxd & ->). exists x. split; [reflexivity|].
      apply filter_In. split; [exact Hx|]. apply String.eqb_eq. exact Hxd. }
  assert (Hpath : OS.path_of d = Filepath.Join dir (fi_name (OS.info (inodes st) d))).
  { unfold OS.path_of. rewrite Hdir. reflexivity. }
  assert (Hexp : forall x,
             expired w now (OS.info (inodes st) x) = true <->
             i_mtime (inodes st (d_ino x)) < now - keepRotatedSeconds w).
  { intros x. unfold expired. simpl.
    assert ((keepRotatedSeconds w >? 0) = true) as -> by (apply Z.gtb_lt; lia).
    simpl. apply Sub_gt. lia. }
  split.
  - intros Hold.
    destruct (Sdel (OS.info (inodes st) d)) as (r & Hin & Hgone).
    { apply Hlist. eauto. }
    { exact Hrot. }
    { apply Hexp. exact Hold. }
    exists r. rewrite Hpath. split.
    + rewrite (since_app _ _ _ St). exact Hin.
    + intros Hr. specialize (Hgone Hr). split.
      * intros Hd'. apply (Hgone d Hd'). exact Hpath.
      * apply lookup_none. exact Hgone.
  - intros Hyoung. split; [|rewrite Si; reflexivity].
    apply Ssurv; [exact Hd|].
    intros f Hf Hfr Hfe Heq.
    apply Hlist in Hf. destruct Hf as (x & Hx & Hxd & ->).
    assert (d = x).
    { apply (NoDup_path_inj (dirents st)); auto.
      rewrite Heq. unfold OS.path_of. rewrite Hxd. reflexivity. }
    subst x. apply Hexp in Hfe. fold mtime in Hfe. lia.
Qed.

(** *** A closed file stays closed *)

Lemma sound_ret {A} (a : A) : after sound (ret a).
Proof. apply after_ret, sound_refl. Qed.

Lemma sound_bind {A B} (c : IO A) (k : A -> IO B) :
  after sound c -> (forall a, after sound (k a)) -> after sound (bind c k).
Proof. apply after_bind, sound_trans. Qed.

(** A computation that leaves the open files alone and writes to none is
    sound. *)
Lemma frame_sound st st' : frame st st' -> sound st st'.
Proof.
  intros (Hh & Hn & d & Ht & Hq). unfold sound, stale, isOpen.
  rewrite Hh, Hn. split; [lia|]. split; [auto|].
  exists d. split; [exact Ht|].
  intros fd data Hin. exfalso.
  unfold quiet in Hq. rewrite Forall_forall in Hq.
  apply (Hq _ Hin).
Qed.

Lemma sound_of_frame {A} (c : IO A) : after frame c -> after sound c.
Proof. intros H st. apply frame_sound, H. Qed.

Lemma sound_OpenFile p : after sound (OS.OpenFile p).
Proof.
  intros st. unfold sound, stale, isOpen. os_unfold. os_case.
  all: split; [lia|].
  all: split;
    [ intros fd [Hc Hl]; rewrite ?handle_cons_other by lia; split; [exact Hc | lia] | ].
  all: eexists; split; [reflexivity|].
  all: intros fd data [Hin|[]]; discriminate.
Qed.

Lemma sound_Fprint wr s : after sound (Fprint wr s).
Proof.
  intros st. unfold Fprint. destruct wr as [fd|]; [|apply sound_refl].
  unfold sound, stale, isOpen. os_unfold. os_case.
  all: split; [lia|].
  all: split; [ intros fd' [Hc Hl]; split; [exact Hc | lia] | ].
  all: eexists; (split; [rewrite <- ?app_assoc; simpl; reflexivity|]).
  all: intros fd' data Hin; simpl in Hin.
  all: repeat (destruct Hin as [Hin|Hin]; try discriminate); try contradiction.
  all: injection Hin as <- <-; intros [Hc _]; rewrite Heqo in Hc; discriminate.
Qed.

Lemma sound_Close fd : after sound (OS.Close fd).
Proof.
  intros st. unfold sound, stale, isOpen. os_unfold.
  destruct (OS.handle fd (handles st)) eqn:E; simpl.
  - split; [lia|]. split.
    + intros fd' [Hc Hl]. split; [|lia].
      destruct (Nat.eq_dec fd' fd) as [->|N].
      * rewrite handle_closed. reflexivity.
      * rewrite handle_closed_other by exact N. exact Hc.
    + eexists; split; [reflexivity|].
      intros fd' data [Hin|[]]; discriminate.
  - split; [lia|]. split; [auto|].
    eexists; split; [reflexivity|].
    intros fd' data [Hin|[]]; discriminate.
Qed.

Create HintDb sound.
Hint Resolve sound_OpenFile sound_Fprint sound_Close : sound.
Hint Extern 1 (after sound _) =>
  apply sound_of_frame; solve [auto with frame] : sound.

Ltac sound_auto := io_split ltac:(auto with sound) @sound_ret @sound_bind.

Lemma sound_closeCurrentFile w : after sound (closeCurrentFile w).
Proof. unfold closeCurrentFile. sound_auto. Qed.

Lemma sound_openNewFile w : after sound (openNewFile w).
Proof. unfold openNewFile. sound_auto. Qed.

Lemma sound_doRotation w : after sound (doRotation w).
Proof.
  unfold doRotation.
  pose proof sound_closeCurrentFile. pose proof sound_openNewFile.
  pose proof (fun w => sound_of_frame _ (frame_processAlreadyRotatedFiles w)).
  sound_auto.
Qed.

Lemma sound_write w rec : after sound (write w rec).
Proof. unfold write. sound_auto. Qed.

Lemma sound_handleItem w it : after sound (handleItem w it).
Proof.
  unfold handleItem, rotateAndWrite, ensureOpen, printErr.
  pose proof sound_doRotation. pose proof sound_openNewFile.
  pose proof sound_write.
  pose proof (fun w => sound_of_frame _ (frame_checkRotation w)).
  sound_auto.
Qed.

(** *** The writer's file is open *)

Lemma live_owns w st : live w st -> owns w st.
Proof. intros [Hw H]. split; [exact Hw|]. intros fd Hf. apply (H fd Hf). Qed.

Lemma live_frame w st st' : live w st -> frame st st' -> live w st'.
Proof.
  intros [Hw H] (Hh & Hn & _). split; [exact Hw|].
  unfold isOpen. rewrite Hh, Hn. exact H.
Qed.

Lemma openNewFile_live w st w' st' :
  openNewFile w st = ((w', None), st') -> live w' st'.
Proof.
  intros H.
  destruct (openNewFile_ok _ _ _ _ H)
    as (Of & Ow & _ & _ & _ & _ & _ & On & ino & _ & _ & _ & Oh & _).
  split; [congruence|]. intros fd E. rewrite Of in E. injection E as <-.
  unfold isOpen. rewrite Oh, handle_opened, On. split; [reflexivity | lia].
Qed.

Lemma ensureOpen_live w st w0 st0 :
  live w st -> ensureOpen w st = ((w0, None), st0) ->
  live w0 st0 /\ exists fd, file w0 = Some fd.
Proof.
  unfold ensureOpen. intros HL H. destruct (file w) as [fd|] eqn:Hf.
  - injection H as <- <-. split; [exact HL | eauto].
  - split; [eapply openNewFile_live; eauto|].
    destruct (openNewFile_ok _ _ _ _ H) as (Of & _). eauto.
Qed.

Lemma doRotation_live w st w' st' :
  live w st -> doRotation w st = ((w', None), st') -> live w' st'.
Proof.
  intros HL H. destruct (file w) as [fd|] eqn:Hf.
  - destruct HL as [Hw HL]. destruct (HL fd Hf) as [Ho Hlt].
    assert (Hwr : writer w = Some fd) by congruence.
    destruct (doRotation_session _ _ _ _ _ Hf Hwr Hlt H)
      as (Rf & Rw & _ & Rn & _ & Rop & _).
    split; [congruence|]. intros fd' E. rewrite Rf in E. injection E as <-.
    split; [exact Rop | lia].
  - destruct (doRotation_no_session _ _ _ _ _ Hf H) as [-> HF].
    eapply live_frame; eauto.
Qed.

Lemma write_live w rec st w' st' :
  live w st -> (exists fd, file w = Some fd) ->
  write w rec st = ((w', None), st') -> live w' st'.
Proof.
  intros [Hw HL] [fd Hf] H.
  assert (Hwr : writer w = Some fd) by congruence.
  destruct (write_ok _ _ _ _ _ _ Hwr H) as (_ & Wh & Wn & _ & Wf & Ww & _).
  split; [congruence|]. unfold isOpen. rewrite Wh, Wn, Wf. exact HL.
Qed.

Lemma checkRotation_frame w st : frame st (snd (checkRotation w st)).
Proof. apply frame_checkRotation. Qed.

Lemma write_tail w rec st w' st' :
  (let (a, st1) := write w rec st in
   (let (w1, err) := a in
    match err with
    | Some e => printErr w1 e ;; ret (w1, true)
    | None => ret (w1, false)
    end) st1) = ((w', false), st') ->
  write w rec st = ((w', None), st').
Proof.
  destruct (write w rec st) as [[w1 [e|]] st1]; unfold printErr, OS.Stderr, bind, ret;
    intros H; [discriminate | injection H as <- <-; reflexivity].
Qed.

(** A turn of the loop that does not end the goroutine leaves the writer
    with its file open. *)
Lemma handleItem_live w it st w' st' :
  live w st -> handleItem w it st = ((w', false), st') -> live w' st'.
Proof.
  intros HL H. destruct it as [|rec|]; unfold handleItem, bind in H.
  - destruct (doRotation w st) as [[w1 [e|]] st1] eqn:ER.
    + unfold printErr, OS.Stderr, ret in H. discriminate.
    + unfold ret in H. injection H as <- <-. eapply doRotation_live; eauto.
  - destruct (ensureOpen w st) as [[w0 [e|]] st0] eqn:E0.
    + unfold printErr, OS.Stderr, ret in H. discriminate.
    + destruct (ensureOpen_live _ _ _ _ HL E0) as [HL0 Hfd].
      unfold rotateAndWrite in H. unfold bind at 1 in H.
      pose proof (checkRotation_frame w0 st0) as HF.
      destruct (checkRotation w0 st0) as [dec stc]. simpl in HF.
      pose proof (live_frame _ _ _ HL0 HF) as HLc.
      unfold bind at 1 in H.
      destruct dec.
      * destruct (doRotation w0 stc) as [[w1 [e|]] st1] eqn:ER.
        -- unfold printErr, OS.Stderr, ret, bind in H. discriminate.
        -- apply write_tail in H. eapply write_live; [| |exact H].
           ++ eapply doRotation_live; eauto.
           ++ destruct Hfd as [fd Hf]. destruct HLc as [Hw HLc].
              destruct (HLc fd Hf) as [Ho Hlt].
              assert (Hwr : writer w0 = Some fd) by congruence.
              destruct (doRotation_session _ _ _ _ _ Hf Hwr Hlt ER) as (Rf & _).
              eauto.
      * unfold ret at 1 in H. apply write_tail in H.
        eapply write_live; eauto.
  - unfold ret in H. discriminate.
Qed.

(** *** The system: invariants of every schedule *)

Lemma receive_world s it buf rot :
  let r := handleItem (wr s) it (world s) in
  wr (receive s it buf rot) = fst (fst r) /\
  exited (receive s it buf rot) = snd (fst r) /\
  world (receive s it buf rot) =
    (if snd (fst r) then snd (closeCurrentFile (fst (fst r)) (snd r))
     else snd r) /\
  recBuf (receive s it buf rot) = buf /\
  rotSenders (receive s it buf rot) = rot /\
  recClosed (receive s it buf rot) = recClosed s /\
  sent (receive s it buf rot) = sent s /\
  received (receive s it buf rot) =
    received s ++ match it with ClosedItem => [] | _ => [it] end.
Proof.
  unfold receive. destruct (handleItem (wr s) it (world s)) as [[w' stop] st'].
  simpl. repeat split.
Qed.

Lemma sound_receive s it buf rot :
  sound (world s) (world (receive s it buf rot)).
Proof.
  destruct (receive_world s it buf rot) as (_ & _ & -> & _).
  pose proof (sound_handleItem (wr s) it (world s)) as H.
  destruct (handleItem (wr s) it (world s)) as [[w' stop] st']. simpl in *.
  destruct stop; [|exact H].
  eapply sound_trans; [exact H | apply sound_closeCurrentFile].
Qed.

Lemma Live_receive s it buf rot :
  Live s -> exited s = false -> Live (receive s it buf rot).
Proof.
  intros HL He Hex. specialize (HL He).
  destruct (receive_world s it buf rot) as (-> & Hx & -> & _).
  rewrite Hx in Hex.
  destruct (handleItem (wr s) it (world s)) as [[w' stop] st'] eqn:E.
  simpl in *. subst stop. eapply handleItem_live; eauto.
Qed.

Lemma select_inv s k s' :
  select s k = Next s' ->
  exited s = false /\
  exists it buf rot, s' = receive s it buf rot /\
    match it with
    | RotItem => k = CaseRot /\ buf = recBuf s /\ rotSenders s = S rot
    | RecItem rec => k = CaseRec /\ recBuf s = rec :: buf /\ rot = rotSenders s
    | ClosedItem => k = CaseRec /\ recBuf s = [] /\ buf = [] /\
                    rot = rotSenders s /\ recClosed s = true
    end.
Proof.
  unfold select. destruct (exited s); [discriminate|].
  intros H. split; [reflexivity|]. destruct k.
  - destruct (rotSenders s) as [|n] eqn:Er; [discriminate|].
    injection H as <-. exists RotItem, (recBuf s), n. auto.
  - destruct (recBuf s) as [|rec q] eqn:Eb.
    + destruct (recClosed s) eqn:Ec; [|discriminate].
      injection H as <-. exists ClosedItem, [], (rotSenders s). auto 6.
    + injection H as <-. exists (RecItem rec), q, (rotSenders s). auto.
Qed.

Lemma call_inv s c s' :
  call s c = Next s' ->
  wr s' = wr s /\ world s' = world s /\ exited s' = exited s /\
  received s' = received s /\
  match c with
  | LogWrite rec =>
      recBuf s' = recBuf s ++ [rec] /\ sent s' = sent s ++ [RecItem rec] /\
      rotSenders s' = rotSenders s /\ recClosed s = false /\ recClosed s' = false
  | Rotate =>
      recBuf s' = recBuf s /\ sent s' = sent s ++ [RotItem] /\
      rotSenders s' = S (rotSenders s) /\ recClosed s' = recClosed s
  | Close =>
      recBuf s' = recBuf s /\ sent s' = sent s /\
      rotSenders s' = rotSenders s /\ recClosed s = false /\ recClosed s' = true
  end.
Proof.
  unfold call. destruct c as [rec| |].
  - destruct (recClosed s) eqn:Ec; [discriminate|].
    destruct (List.length (recBuf s) <? LogBufferLength)%nat; [|discriminate].
    intros H. injection H as <-. simpl. auto 10.
  - intros H. injection H as <-. simpl. auto 10.
  - destruct (recClosed s) eqn:Ec; [discriminate|].
    intros H. injection H as <-. simpl. auto 10.
Qed.

Lemma sound_act s a s' : act s a = Next s' -> sound (world s) (world s').
Proof.
  destruct a as [c|k]; simpl; intros H.
  - apply call_inv in H. destruct H as (_ & -> & _). apply sound_refl.
  - apply select_inv in H. destruct H as (_ & it & buf & rot & -> & _).
    apply sound_receive.
Qed.

Lemma Live_act s a s' : Live s -> act s a = Next s' -> Live s'.
Proof.
  destruct a as [c|k]; simpl; intros HL H.
  - apply call_inv in H. destruct H as (Hw & Hst & He & _).
    unfold Live. rewrite Hw, Hst, He. exact HL.
  - apply select_inv in H. destruct H as (He & it & buf & rot & -> & _).
    apply Live_receive; auto.
Qed.

Lemma records_app a b : records (a ++ b) = records a ++ records b.
Proof. unfold records. apply flat_map_app. Qed.

Lemma rotations_app a b : rotations (a ++ b) = (rotations a + rotations b)%nat.
Proof. unfold rotations. rewrite filter_app, length_app. reflexivity. Qed.

Lemma fifo_act s a s' : fifo s -> act s a = Next s' -> fifo s'.
Proof.
  unfold fifo. destruct a as [c|k]; simpl; intros [HR HN] H.
  - apply call_inv in H. destruct H as (_ & _ & _ & Hrc & H).
    rewrite Hrc. destruct c as [rec| |].
    + destruct H as (-> & -> & -> & _).
      rewrite records_app, rotations_app, HR, HN.
      change (records [RecItem rec]) with [rec].
      change (rotations [RecItem rec]) with 0%nat.
      rewrite <- app_assoc. split; [reflexivity | lia].
    + destruct H as (-> & -> & -> & _).
      rewrite records_app, rotations_app, HR, HN.
      change (records [RotItem]) with (@nil LogRecord).
      change (rotations [RotItem]) with 1%nat.
      rewrite app_nil_r. split; [reflexivity | lia].
    + destruct H as (-> & -> & -> & _). auto.
  - apply select_inv in H. destruct H as (_ & it & buf & rot & -> & H).
    destruct (receive_world s it buf rot) as (_ & _ & _ & -> & -> & _ & -> & ->).
    rewrite records_app, rotations_app.
    destruct it as [|rec|].
    + destruct H as (_ & -> & Hr).
      change (records [RotItem]) with (@nil LogRecord).
      change (rotations [RotItem]) with 1%nat.
      rewrite app_nil_r, HR, HN, Hr. split; [reflexivity | lia].
    + destruct H as (_ & Hb & ->).
      change (records [RecItem rec]) with [rec].
      change (rotations [RecItem rec]) with 0%nat.
      rewrite HR, HN, Hb, <- app_assoc. split; [reflexivity | lia].
    + destruct H as (_ & Hb & -> & -> & _).
      change (records []) with (@nil LogRecord).
      change (rotations []) with 0%nat.
      rewrite HR, HN, Hb, !app_nil_r. split; [reflexivity | lia].
Qed.

Lemma exec_ind (I : System -> Prop) :
  (forall s a s', I s -> act s a = Next s' -> I s') ->
  forall acts s s', I s -> exec s acts = Next s' -> I s'.
Proof.
  intros Hstep. induction acts as [|a acts IH]; intros s s' HI H; simpl in H.
  - injection H as <-. exact HI.
  - destruct (act s a) as [s1| |] eqn:E; try discriminate.
    eapply IH; [|exact H]. eapply Hstep; eauto.
Qed.

Lemma sound_exec acts : forall s s',
  exec s acts = Next s' -> sound (world s) (world s').
Proof.
  induction acts as [|a acts IH]; intros s s' H; simpl in H.
  - injection H as <-. apply sound_refl.
  - destruct (act s a) as [s1| |] eqn:E; try discriminate.
    eapply sound_trans; [eapply sound_act; eauto | eapply IH; eauto].
Qed.

Lemma started_Live s : started s -> Live s.
Proof.
  intros (Hf & Hw & _) _. split; [congruence|]. intros fd E. congruence.
Qed.

Lemma started_fifo s : started s -> fifo s.
Proof.
  intros (_ & _ & _ & Hb & Hr & Hs & Hc). unfold fifo.
  rewrite Hb, Hr, Hs, Hc. auto.
Qed.

Lemma closeCurrentFile_stale w fd st :
  live w st -> file w = Some fd -> stale fd (snd (closeCurrentFile w st)).
Proof.
  intros [Hw HL] Hf. destruct (HL fd Hf) as [_ Hlt].
  assert (Hwr : writer w = Some fd) by congruence.
  destruct (closeCurrentFile w st) as [u st1] eqn:E.
  destruct (closeCurrentFile_some _ _ _ _ _ Hf Hwr E) as (Ch & Cn & _).
  simpl. unfold stale, isOpen. rewrite Ch, Cn, handle_closed. auto.
Qed.

(** A rotation closes the file the writer held, for good. *)
Lemma doRotation_stale w fd st :
  live w st -> file w = Some fd -> stale fd (snd (doRotation w st)).
Proof.
  intros HL Hf. rewrite doRotation_steps. cbv zeta.
  pose proof (closeCurrentFile_stale _ _ _ HL Hf) as Hs.
  set (st1 := snd (closeCurrentFile w st)) in *.
  pose proof (frame_sound _ _ (frame_renameStep w st1)) as (_ & S1 & _).
  destruct (renameStep w st1) as [failed st2]. simpl in S1.
  apply S1 in Hs. destruct failed as [e|]; [exact Hs|].
  rewrite Hf. apply (sound_openNewFile w st2). exact Hs.
Qed.

Lemma handleItem_RotItem_stale w fd st :
  live w st -> file w = Some fd -> stale fd (snd (handleItem w RotItem st)).
Proof.
  intros HL Hf. pose proof (doRotation_stale _ _ _ HL Hf) as Hs.
  unfold handleItem, bind.
  destruct (doRotation w st) as [[w1 [e|]] st1]; simpl in *; exact Hs.
Qed.

Lemma receive_RotItem_stale s fd buf rot :
  live (wr s) (world s) -> file (wr s) = Some fd ->
  stale fd (world (receive s RotItem buf rot)).
Proof.
  intros HL Hf. destruct (receive_world s RotItem buf rot) as (_ & _ & -> & _).
  pose proof (handleItem_RotItem_stale _ _ _ HL Hf) as Hs.
  destruct (handleItem (wr s) RotItem (world s)) as [[w' stop] st'].
  simpl in *. destruct stop; [|exact Hs].
  apply (sound_closeCurrentFile w' st'). exact Hs.
Qed.

(** C2, as amended. In every schedule of clients and goroutine: the
    records are taken in the order they were sent, and every rotation
    request sent is either taken or still waiting; the two channels are not
    ordered against each other.  Once the goroutine has taken a rotation
    request, the file it held is closed and stays closed, and nothing is
    written to it afterwards, whatever is sent or taken later. *)
Theorem C2_order_of_records_and_rotations (s0 : System)
    (acts : list Action) (s : System) :
  started s0 ->
  exec s0 acts = Next s ->
  records (sent s) = records (received s) ++ recBuf s /\
  rotations (sent s) = (rotations (received s) + rotSenders s)%nat /\
  forall fd s2 acts2 s3,
    file (wr s) = Some fd ->
    select s CaseRot = Next s2 ->
    exec s2 acts2 = Next s3 ->
    isOpen fd (world s3) = false /\
    forall data, ~ In (EvWrite fd data None) (since (world s2) (world s3)).
Proof.
  intros H0 H.
  pose proof (exec_ind fifo fifo_act _ _ _ (started_fifo _ H0) H) as [HR HN].
  pose proof (exec_ind Live Live_act _ _ _ (started_Live _ H0) H) as HL.
  split; [exact HR|]. split; [exact HN|].
  intros fd s2 acts2 s3 Hf Hsel Hex.
  apply select_inv in Hsel.
  destruct Hsel as (He & it & buf & rot & -> & Hit).
  destruct it as [|rec|]; try (destruct Hit as [Hk _]; discriminate).
  pose proof (receive_RotItem_stale s fd buf rot (HL He) Hf) as Hs.
  destruct (sound_exec _ _ _ Hex) as (_ & S & d & Ht & Hw).
  split; [apply (S fd Hs)|].
  intros data Hin. rewrite (since_app _ _ _ Ht) in Hin.
  apply (Hw _ _ Hin). exact Hs.
Qed.


(** *** Numbers in the names of rotated files *)

Lemma decimalValue_mono u : forall acc, 0 <= acc -> acc <= decimalValue u acc.
Proof.
  induction u; intros acc H; simpl; try lia.
  all: match goal with |- _ <= decimalValue _ ?a =>
         assert (Ha : 0 <= a) by lia; specialize (IHu a Ha); lia end.
Qed.

Lemma of_uint_acc_value u : forall p,
  Z.pos (Pos.of_uint_acc u p) = decimalValue u (Z.pos p).
Proof.
  induction u; intros p; cbn [Pos.of_uint_acc decimalValue];
    try reflexivity.
  all: rewrite IHu; f_equal; lia.
Qed.

Lemma of_uint_value u : Z.of_N (N.of_uint u) = decimalValue u 0.
Proof.
  unfold N.of_uint.
  induction u; cbn [Pos.of_uint decimalValue]; try reflexivity;
    try exact IHu.
  all: cbn [Z.of_N]; rewrite of_uint_acc_value; reflexivity.
Qed.

Lemma digits_value n :
  0 <= n -> decimalValue (N.to_uint (Z.to_N n)) 0 = n.
Proof.
  intros H. rewrite <- of_uint_value, DecimalN.Unsigned.of_to. lia.
Qed.

(** Computes the digit of a character. *)
Ltac eval_digit :=
  match goal with
  | |- context [Strconv.digit ?c] =>
      let v := eval vm_compute in (Strconv.digit c) in
      change (Strconv.digit c) with v
  end; cbv iota.

Lemma atoiFast_digits u : forall acc,
  Strconv.atoiFast (NilEmpty.string_of_uint u) acc = (decimalValue u acc, None).
Proof.
  induction u; intros acc;
    cbn [NilEmpty.string_of_uint Strconv.atoiFast decimalValue];
    try reflexivity.
  all: eval_digit; rewrite IHu; reflexivity.
Qed.

Lemma parseUintLoop_digits u : forall acc,
  0 <= acc -> decimalValue u acc <= Int.maxUint64 ->
  Strconv.parseUintLoop (NilEmpty.string_of_uint u) acc =
  (decimalValue u acc, None).
Proof.
  induction u; intros acc H0 H;
    cbn [NilEmpty.string_of_uint Strconv.parseUintLoop decimalValue] in *;
    try reflexivity.
  all: eval_digit.
  all: match type of H with decimalValue _ ?a <= _ =>
         assert (Ha : 0 <= a) by lia;
         pose proof (decimalValue_mono u a Ha) as Hm end.
  all: unfold Int.maxUint64 in *.
  all: change (2 ^ 64 - 1) with 18446744073709551615 in *.
  all: change (18446744073709551615 / 10 + 1) with 1844674407370955162.
  all: destruct (acc >=? 1844674407370955162) eqn:E1; [lia|].
  all: match goal with |- context [?a >? ?b] =>
         destruct (a >? b) eqn:E2; [lia|] end.
  all: apply IHu; lia.
Qed.

Lemma atoiFast_zeros k s :
  Strconv.atoiFast (Fmt.zeros k ++ s) 0 = Strconv.atoiFast s 0.
Proof.
  induction k; [reflexivity|].
  cbn [Fmt.zeros append Strconv.atoiFast]. eval_digit. exact IHk.
Qed.

Lemma parseUintLoop_zeros k s :
  Strconv.parseUintLoop (Fmt.zeros k ++ s) 0 = Strconv.parseUintLoop s 0.
Proof.
  induction k; [reflexivity|].
  cbn [Fmt.zeros append Strconv.parseUintLoop]. eval_digit. exact IHk.
Qed.

(** The padded digits of a number start with a digit. *)
Lemma padded_head k u :
  u <> Decimal.Nil ->
  exists c rest,
    (Fmt.zeros k ++ NilEmpty.string_of_uint u)%string = String c rest /\
    Ascii.eqb c "-" = false /\ Ascii.eqb c "+" = false.
Proof.
  intros H. destruct k as [|k].
  - destruct u; simpl; try congruence.
    all: do 2 eexists; split; [reflexivity|]; split; reflexivity.
  - simpl. do 2 eexists. split; [reflexivity|]. split; reflexivity.
Qed.

Lemma to_uint_nonnil n : N.to_uint n <> Decimal.Nil.
Proof.
  destruct n; simpl; [discriminate|].
  apply DecimalPos.Unsigned.to_uint_nonnil.
Qed.

(** The number printed with [%03d] is the number [Atoi] reads. *)
Lemma Atoi_Sprintf n :
  0 <= n <= Int.maxInt64 ->
  Strconv.Atoi (Fmt.Sprintf_03d n) = (n, None).
Proof.
  intros Hn. unfold Fmt.Sprintf_03d.
  destruct (n <? 0) eqn:E; [lia|]. clear E.
  unfold Fmt.padZeros, Fmt.digits.
  set (u := N.to_uint (Z.to_N n)).
  set (k := (3 - String.length (NilEmpty.string_of_uint u))%nat).
  destruct (padded_head k u) as (c & rest & Es & Em & Ep).
  { apply to_uint_nonnil. }
  assert (Hv : decimalValue u 0 = n) by (apply digits_value; lia).
  assert (Hfast : Strconv.atoiFast (String c rest) 0 = (n, None)).
  { rewrite <- Es, atoiFast_zeros, atoiFast_digits, Hv. reflexivity. }
  assert (Hslow : Strconv.parseUintLoop (String c rest) 0 = (n, None)).
  { rewrite <- Es, parseUintLoop_zeros, parseUintLoop_digits; rewrite ?Hv;
      unfold Int.maxInt64, Int.maxUint64 in *; try lia. reflexivity. }
  rewrite Es. unfold Strconv.Atoi.
  destruct ((0 <? String.length _)%nat && (String.length _ <? 19)%nat).
  - rewrite Em, Ep. cbn [orb andb]. rewrite Hfast. reflexivity.
  - unfold Strconv.ParseInt, Strconv.ParseUint. rewrite Em, Ep.
    cbn [orb andb negb]. rewrite Hslow.
    unfold Int.maxInt64 in Hn.
    destruct (n >=? 2 ^ 63) eqn:E; [lia|]. reflexivity.
Qed.

Lemma substring_all s : substring 0 (String.length s) s = s.
Proof. induction s; simpl; congruence. Qed.

Lemma HasPrefix_app base x : Strings.HasPrefix (base ++ x) base = true.
Proof.
  unfold Strings.HasPrefix. induction base as [|c base IH]; simpl.
  - destruct x; reflexivity.
  - destruct (ascii_dec c c); [exact IH | congruence].
Qed.

Lemma TrimPrefix_app base x : Strings.TrimPrefix (base ++ x) base = x.
Proof.
  unfold Strings.TrimPrefix. rewrite HasPrefix_app.
  induction base as [|c base IH]; simpl.
  - rewrite Nat.sub_0_r. apply substring_all.
  - exact IH.
Qed.

(** The number the scan ends with: the largest it has met. *)
Lemma scanRotatedFiles_number w dir base now files :
  forall lastNum st n st',
    scanRotatedFiles w dir base now files lastNum st = (n, st') ->
    lastNum <= n /\
    (forall f, In f files -> rotated base f = true -> numberOf base f <= n) /\
    (n = lastNum \/
     exists f, In f files /\ rotated base f = true /\ numberOf base f = n).
Proof.
  induction files as [|f rest IH]; intros lastNum st n st' H.
  - simpl in H. injection H as <- _.
    split; [lia|]. split; [intros f []|auto].
  - rewrite scanRotatedFiles_cons in H. cbv zeta in H.
    fold (numberOf base f) in H.
    destruct (rotated base f) eqn:Hrot.
    + unfold bind at 1 in H.
      destruct ((if expired w now f then _ else ret tt) st) as [u st1].
      set (l := if numberOf base f >? lastNum then numberOf base f
                else lastNum) in H.
      destruct (IH _ _ _ _ H) as (Hle & Hall & Hex).
      assert (Hl : lastNum <= l /\ numberOf base f <= l /\
                   (l = lastNum \/ l = numberOf base f)).
      { unfold l. destruct (numberOf base f >? lastNum) eqn:E; lia. }
      split; [lia|]. split.
      * intros f' [<-|Hf'] Hr'; [lia|]. apply Hall; auto.
      * destruct Hex as [Hex|(f' & Hf' & Hr' & Hn')].
        -- destruct Hl as (_ & _ & [Hl|Hl]); [left; congruence|].
           right. exists f. split; [simpl; auto|]. split; [exact Hrot|].
           congruence.
        -- right. exists f'. split; [simpl; auto|]. auto.
    + destruct (IH _ _ _ _ H) as (Hle & Hall & Hex).
      split; [exact Hle|]. split.
      * intros f' [<-|Hf'] Hr'; [congruence|]. apply Hall; auto.
      * destruct Hex as [Hex|(f' & Hf' & Hr' & Hn')]; [left; exact Hex|].
        right. exists f'. split; [simpl; auto|]. auto.
Qed.

Lemma wrapInt_small x :
  Int.minInt64 <= x <= Int.maxInt64 -> Int.wrapInt x = x.
Proof.
  unfold Int.wrapInt, Int.minInt64, Int.maxInt64. intros H.
  rewrite Z.mod_small; lia.
Qed.

(** A regular file named as the scan names rotated files is a rotated file
    with the number in its name. *)
Lemma rotated_name base m f :
  0 <= m <= Int.maxInt64 ->
  fi_isDir f = false ->
  fi_name f = (base ++ "." ++ Fmt.Sprintf_03d m)%string ->
  rotated base f = true /\ numberOf base f = m.
Proof.
  intros Hm Hd Hn. unfold rotated, numberOf. rewrite Hd, Hn.
  rewrite HasPrefix_app, TrimPrefix_app, (TrimPrefix_app "."), Atoi_Sprintf
    by exact Hm.
  split; reflexivity.
Qed.

(** What [processAlreadyRotatedFiles] does once the directory is listed. *)
Lemma processAlreadyRotatedFiles_listed w st :
  let dir := Filepath.Dir (filename w) in
  fault st (ticks st) (OpReadDir dir) = None ->
  exists n,
    scanRotatedFiles w dir (Filepath.Base (filename w))
      (clock st (S (ticks st)))
      (OS.sortByName
         (map (OS.info (inodes st))
            (filter (fun x => (d_dir x =? dir)%string) (dirents st))))
      0 (OS.tick (OS.tick st)) =
    (n, snd (processAlreadyRotatedFiles w st)).
Proof.
  intros dir Hrd. unfold processAlreadyRotatedFiles. fold dir.
  unfold bind at 1. unfold OS.ReadDir. rewrite Hrd.
  unfold bind at 1. unfold bind at 1. unfold OS.Now. simpl.
  match goal with |- context [scanRotatedFiles ?w ?d ?b ?n ?f ?l ?s] =>
    destruct (scanRotatedFiles w d b n f l s) as [k stn] end.
  simpl. eauto.
Qed.

Lemma processAlreadyRotatedFiles_unlisted w st e :
  fault st (ticks st) (OpReadDir (Filepath.Dir (filename w))) = Some e ->
  snd (processAlreadyRotatedFiles w st) = OS.tick st.
Proof.
  intros Hrd. unfold processAlreadyRotatedFiles. cbv zeta.
  unfold bind at 1. unfold OS.ReadDir. rewrite Hrd. reflexivity.
Qed.

Lemma ReadDir_lists st dir f :
  In f (OS.sortByName
          (map (OS.info (inodes st))
             (filter (fun x => (d_dir x =? dir)%string) (dirents st)))) <->
  exists x, In x (dirents st) /\ d_dir x = dir /\ f = OS.info (inodes st) x.
Proof.
  rewrite In_sortByName, in_map_iff. split.
  - intros (x & <- & Hx). apply filter_In in Hx. destruct Hx as [Hx Hxd].
    apply String.eqb_eq in Hxd. eauto.
  - intros (x & Hx & Hxd & ->). exists x. split; [reflexivity|].
    apply filter_In. split; [exact Hx|]. apply String.eqb_eq. exact Hxd.
Qed.

(** X1. When the directory can be listed and holds no rotated file whose
    number is the largest [int], the name of the next rotated file is the
    log file's name, a dot and a number [m] of at least three digits, where
    [m] is one more than the largest number among the rotated files (one
    when there is none above zero).  The number read back from a name
    printed this way is the number printed, so [m] is above the number of
    every such file in the directory, and no regular file there bears the
    new name: a rotation does not overwrite an earlier rotated file. *)
Theorem X1_next_name_is_new (w : Writer) (st : World) :
  fault st (ticks st) (OpReadDir (Filepath.Dir (filename w))) = None ->
  (forall d, In d (dirents st)
     -> d_dir d = Filepath.Dir (filename w)
     -> rotated (Filepath.Base (filename w)) (OS.info (inodes st) d) = true
     -> numberOf (Filepath.Base (filename w)) (OS.info (inodes st) d)
        < Int.maxInt64) ->
  let dir := Filepath.Dir (filename w) in
  let base := Filepath.Base (filename w) in
  exists m, 1 <= m <= Int.maxInt64 /\
    fst (processAlreadyRotatedFiles w st) =
      (filename w ++ "." ++ Fmt.Sprintf_03d m)%string /\
    (m = 1 \/
     exists d, In d (dirents st) /\ d_dir d = dir /\
       rotated base (OS.info (inodes st) d) = true /\
       numberOf base (OS.info (inodes st) d) = m - 1) /\
    (forall d, In d (dirents st) -> d_dir d = dir ->
       rotated base (OS.info (inodes st) d) = true ->
       numberOf base (OS.info (inodes st) d) < m) /\
    (forall d k, In d (dirents st) -> d_dir d = dir ->
       i_isDir (inodes st (d_ino d)) = false ->
       0 <= k <= Int.maxInt64 ->
       d_name d = (base ++ "." ++ Fmt.Sprintf_03d k)%string -> k < m) /\
    (forall d, In d (dirents st) -> d_dir d = dir ->
       i_isDir (inodes st (d_ino d)) = false ->
       d_name d <> (base ++ "." ++ Fmt.Sprintf_03d m)%string).
Proof.
  intros Hrd Hsmall dir base. fold dir base in Hrd, Hsmall.
  set (files := OS.sortByName
                  (map (OS.info (inodes st))
                     (filter (fun x => (d_dir x =? dir)%string)
                             (dirents st)))).
  assert (Hlist : forall f, In f files <->
             exists x, In x (dirents st) /\ d_dir x = dir /\
                       f = OS.info (inodes st) x)
    by (intros f; apply ReadDir_lists).
  set (now := clock st (S (ticks st))).
  destruct (scanRotatedFiles w dir base now files 0 (OS.tick (OS.tick st)))
    as [n stn] eqn:Hscan.
  assert (Hname : fst (processAlreadyRotatedFiles w st) =
            (filename w ++ "." ++
             Fmt.Sprintf_03d
               (Int.wrapInt ((if n <? 1 then 0 else n) + 1)%Z))%string).
  { unfold processAlreadyRotatedFiles. fold dir base.
    unfold bind at 1. unfold OS.ReadDir. rewrite Hrd. fold files.
    unfold bind at 1. unfold bind at 1. unfold OS.Now. simpl.
    fold now. rewrite Hscan. reflexivity. }
  destruct (scanRotatedFiles_number _ _ _ _ _ _ _ _ _ Hscan)
    as (Hle & Hall & Hex).
  assert (Hn : n < Int.maxInt64).
  { destruct Hex as [->|(f & Hf & Hr & <-)]; [reflexivity|].
    apply Hlist in Hf. destruct Hf as (x & Hx & Hxd & ->). auto. }
  assert (E : (if n <? 1 then 0 else n) = n).
  { destruct (n <? 1) eqn:E; lia. }
  rewrite E in Hname. unfold Int.maxInt64 in Hn.
  rewrite wrapInt_small in Hname
    by (unfold Int.minInt64, Int.maxInt64; lia).
  exists (n + 1). unfold Int.maxInt64.
  assert (Hbelow : forall d k, In d (dirents st) -> d_dir d = dir ->
            i_isDir (inodes st (d_ino d)) = false ->
            0 <= k <= 2 ^ 63 - 1 ->
            d_name d = (base ++ "." ++ Fmt.Sprintf_03d k)%string ->
            k < n + 1).
  { intros d k Hd Hdd Hreg Hk Hnm.
    destruct (rotated_name base k (OS.info (inodes st) d))
      as [Hr Hnum]; [exact Hk | exact Hreg | exact Hnm |].
    assert (numberOf base (OS.info (inodes st) d) <= n).
    { apply Hall; [|exact Hr]. apply Hlist. eauto. }
    lia. }
  split; [lia|]. split; [exact Hname|]. split; [|split; [|split]].
  - destruct Hex as [->|(f & Hf & Hr & Hnum)]; [left; reflexivity|].
    right. apply Hlist in Hf. destruct Hf as (x & Hx & Hxd & ->).
    exists x. repeat split; auto. lia.
  - intros d Hd Hdd Hr.
    enough (numberOf base (OS.info (inodes st) d) <= n) by lia.
    apply Hall; [|exact Hr]. apply Hlist. eauto.
  - exact Hbelow.
  - intros d Hd Hdd Hreg Hnm.
    enough (n + 1 < n + 1) by lia.
    apply (Hbelow d (n + 1)); auto. lia.
Qed.

(** *** What the retention scan leaves alone *)

(** Without a retention age the scan is a pure function of the listing. *)
Lemma scanRotatedFiles_off w dir base now files :
  keepRotatedSeconds w <= 0 ->
  forall lastNum st,
    snd (scanRotatedFiles w dir base now files lastNum st) = st.
Proof.
  intros Hk. induction files as [|f rest IH]; intros lastNum st.
  - reflexivity.
  - rewrite scanRotatedFiles_cons. cbv zeta.
    assert (E : expired w now f = false).
    { unfold expired. destruct (keepRotatedSeconds w >? 0) eqn:E; [lia|].
      reflexivity. }
    rewrite E. destruct (rotated base f); [|apply IH].
    unfold bind at 1, ret at 1. apply IH.
Qed.

Lemma processAlreadyRotatedFiles_off w st :
  keepRotatedSeconds w <= 0 ->
  snd (processAlreadyRotatedFiles w st) = OS.tick st \/
  snd (processAlreadyRotatedFiles w st) = OS.tick (OS.tick st).
Proof.
  intros Hk. remember (snd (processAlreadyRotatedFiles w st)) as st' eqn:E.
  unfold processAlreadyRotatedFiles in E. cbv zeta in E.
  unfold bind at 1 in E. unfold OS.ReadDir in E. cbv beta in E.
  destruct (fault st (ticks st) (OpReadDir (Filepath.Dir (filename w)))).
  - left. exact E.
  - right. unfold bind at 1 in E. unfold bind at 1 in E.
    unfold OS.Now in E. simpl in E.
    match type of E with context [scanRotatedFiles ?w ?d ?b ?n ?f ?l ?s] =>
      pose proof (scanRotatedFiles_off w d b n f Hk l s) as E';
      destruct (scanRotatedFiles w d b n f l s) as [k stn] end.
    simpl in E'. subst stn. exact E.
Qed.

(** X2. A writer whose retention age is not above zero (the default,
    where rotated files are kept for ever) removes nothing when it looks
    for the next name: the directory, the files and the record of calls
    are as before. *)
Theorem X2_no_retention_age_no_removal (w : Writer) (st : World) :
  keepRotatedSeconds w <= 0 ->
  let st' := snd (processAlreadyRotatedFiles w st) in
  dirents st' = dirents st /\ inodes st' = inodes st /\
  handles st' = handles st /\ trace st' = trace st.
Proof.
  intros Hk st'. unfold st'.
  destruct (processAlreadyRotatedFiles_off w st Hk) as [-> | ->];
    repeat split.
Qed.

(** The events of a scan: removals of expired rotated files of the
    listing, and the reports of those that failed. *)
Lemma scanRotatedFiles_events w dir base now files :
  forall lastNum st n st',
    scanRotatedFiles w dir base now files lastNum st = (n, st') ->
    exists tr, trace st' = trace st ++ tr /\
      forall p r, In (EvRemove p r) tr ->
        exists f, In f files /\ rotated base f = true /\
          expired w now f = true /\ p = Filepath.Join dir (fi_name f).
Proof.
  induction files as [|f rest IH]; intros lastNum st n st' H.
  - simpl in H. injection H as _ <-. exists []. rewrite app_nil_r.
    split; [reflexivity|]. intros p r [].
  - rewrite scanRotatedFiles_cons in H. cbv zeta in H.
    destruct (rotated base f) eqn:Hrot.
    + destruct (expired w now f) eqn:Hexp.
      * fold (removeExpired dir f) in H. unfold bind at 1 in H.
        destruct (removeExpired dir f st) as [u st1] eqn:ER.
        destruct (removeExpired_spec _ _ _ _ _ ER)
          as (_ & r0 & tail & Rt & _ & _).
        assert (Htail : forall p r, ~ In (EvRemove p r) tail).
        { revert ER Rt. unfold removeExpired. os_unfold.
          destruct (fault st (ticks st) _); simpl;
            [|destruct (OS.lookup _ _); simpl].
          all: intros E; injection E as _ <-; simpl.
          all: rewrite <- ?app_assoc; simpl.
          all: intros E; apply app_inv_head in E; injection E as _ <-.
          all: intros p r Hin; simpl in Hin.
          all: repeat (destruct Hin as [Hin|Hin]; try discriminate);
               try contradiction. }
        destruct (IH _ _ _ _ H) as (tr & It & Irm).
        exists (EvRemove (Filepath.Join dir (fi_name f)) r0 :: tail ++ tr).
        split.
        { rewrite It, Rt. repeat (rewrite <- app_assoc; simpl). reflexivity. }
        intros p r [E|Hin].
        { injection E as <- _. exists f. simpl. auto. }
        apply in_app_or in Hin. destruct Hin as [Hin|Hin].
        { exfalso. eapply Htail; eauto. }
        destruct (Irm _ _ Hin) as (f' & Hf' & Hx). exists f'. simpl. auto.
      * unfold bind at 1, ret at 1 in H.
        destruct (IH _ _ _ _ H) as (tr & It & Irm).
        exists tr. split; [exact It|]. intros p r Hin.
        destruct (Irm _ _ Hin) as (f' & Hf' & Hx). exists f'. simpl. auto.
    + destruct (IH _ _ _ _ H) as (tr & It & Irm).
      exists tr. split; [exact It|]. intros p r Hin.
      destruct (Irm _ _ Hin) as (f' & Hf' & Hx). exists f'. simpl. auto.
Qed.

(** X3. Whatever the scan removes, or tries to, is an entry of the log
    file's directory that is not a directory, whose name is the log file's
    name and something more, and whose age is above a retention age that
    is above zero. *)
Theorem X3_scan_removes_only_expired_rotated_files (w : Writer) (st : World)
    (p : string) (r : option error) :
  In (EvRemove p r) (since st (snd (processAlreadyRotatedFiles w st))) ->
  let dir := Filepath.Dir (filename w) in
  let base := Filepath.Base (filename w) in
  let now := clock st (S (ticks st)) in
  exists d, In d (dirents st) /\ d_dir d = dir /\ OS.path_of d = p /\
    rotated base (OS.info (inodes st) d) = true /\
    0 < keepRotatedSeconds w /\
    keepRotatedSeconds w < Time.Sub now (i_mtime (inodes st (d_ino d))).
Proof.
  intros Hin dir base now.
  destruct (fault st (ticks st) (OpReadDir dir)) eqn:Hrd.
  - exfalso. rewrite (processAlreadyRotatedFiles_unlisted _ _ _ Hrd) in Hin.
    unfold since in Hin. simpl in Hin. rewrite skipn_all in Hin.
    destruct Hin.
  - destruct (processAlreadyRotatedFiles_listed w st Hrd) as [n Hscan].
    fold dir base now in Hscan.
    destruct (scanRotatedFiles_events _ _ _ _ _ _ _ _ _ Hscan)
      as (tr & Ht & Hrm).
    simpl in Ht. rewrite (since_app _ _ _ Ht) in Hin.
    destruct (Hrm _ _ Hin) as (f & Hf & Hr & He & ->).
    apply ReadDir_lists in Hf. destruct Hf as (x & Hx & Hxd & ->).
    exists x. split; [exact Hx|]. split; [exact Hxd|]. split.
    { unfold OS.path_of. rewrite Hxd. reflexivity. }
    split; [exact Hr|].
    unfold expired in He. apply andb_true_iff in He. destruct He as [H1 H2].
    simpl in H2. split; lia.
Qed.

(** X4. In a file system where a path names one entry, the scan spares
    every entry of another directory and every entry that is a directory
    or whose name is not the log file's name and something more, whatever
    its age: the log file itself is among them.  It changes the content and
    the time of no file. *)
Theorem X4_scan_spares_everything_else (w : Writer) (st : World)
    (d : Dirent) :
  NoDup (map OS.path_of (dirents st)) ->
  In d (dirents st) ->
  d_dir d <> Filepath.Dir (filename w) \/
    rotated (Filepath.Base (filename w)) (OS.info (inodes st) d) = false ->
  let st' := snd (processAlreadyRotatedFiles w st) in
  In d (dirents st') /\ inodes st' = inodes st.
Proof.
  intros ND Hd Hnot st'.
  set (dir := Filepath.Dir (filename w)) in *.
  set (base := Filepath.Base (filename w)) in *.
  destruct (fault st (ticks st) (OpReadDir dir)) eqn:Hrd.
  - unfold st'. rewrite (processAlreadyRotatedFiles_unlisted _ _ _ Hrd).
    simpl. auto.
  - destruct (processAlreadyRotatedFiles_listed w st Hrd) as [n Hscan].
    fold dir base st' in Hscan.
    destruct (scanRotatedFiles_spec _ _ _ _ _ _ _ _ _ Hscan)
      as (Si & _ & Ssurv & _).
    simpl in Si, Ssurv. split; [|exact Si].
    apply Ssurv; [exact Hd|].
    intros f Hf Hfr _ Heq.
    apply ReadDir_lists in Hf. destruct Hf as (x & Hx & Hxd & ->).
    assert (d = x).
    { apply (NoDup_path_inj (dirents st)); auto.
      rewrite Heq. unfold OS.path_of. rewrite Hxd. reflexivity. }
    subst x. destruct Hnot as [Hnot|Hnot]; congruence.
Qed.

(** X5. [SetRotatedFilesExpiration] multiplies in 64 bits: up to
    9223372036 seconds the retention age is the number of seconds given;
    from there to 18446744073 seconds the product is below zero, and the
    writer keeps every rotated file. *)
Theorem X5_expiration_overflow (secs : Z) (w : Writer) :
  let w' := SetRotatedFilesExpiration secs w in
  (0 < secs <= 9223372036 ->
   keepRotatedSeconds w' = secs * Time.Second) /\
  (9223372037 <= secs <= 18446744073 ->
   keepRotatedSeconds w' < 0 /\
   forall st,
     dirents (snd (processAlreadyRotatedFiles w' st)) = dirents st).
Proof.
  intros w'.
  assert (E : keepRotatedSeconds w' =
              (secs * 1000000000 + 2 ^ 63) mod 2 ^ 64 - 2 ^ 63)
    by reflexivity.
  split; intros H.
  - rewrite E. unfold Time.Second. rewrite Z.mod_small; lia.
  - assert (Hneg : keepRotatedSeconds w' < 0).
    { rewrite E.
      replace (secs * 1000000000 + 2 ^ 63)
        with (secs * 1000000000 - 2 ^ 63 + 1 * 2 ^ 64) by lia.
      rewrite Z.mod_add by lia. rewrite Z.mod_small; lia. }
    split; [exact Hneg|]. intros st.
    destruct (processAlreadyRotatedFiles_off w' st) as [-> | ->];
      [lia | reflexivity | reflexivity].
Qed.

(** *** Limits below zero *)

Lemma wrapUint64_negative n :
  - 2 ^ 63 <= n < 0 -> Int.wrapUint64 n = 2 ^ 64 + n.
Proof.
  intros Hn. unfold Int.wrapUint64.
  replace n with (2 ^ 64 + n + (-1) * 2 ^ 64) at 1 by lia.
  rewrite Z.mod_add by lia. apply Z.mod_small. lia.
Qed.

(** X6. [SetRotateLines] and [SetRotateSize] convert their argument to
    [uint64]: a limit below zero is not refused and does not switch the
    limit off, it becomes a limit of 2^64 minus its size, which a counter
    below 2^63 has not reached. *)
Theorem X6_negative_limits_never_trigger (n m : Z) (w : Writer) (now : Z) :
  Int.minInt64 <= n < 0 ->
  Int.minInt64 <= m < 0 ->
  maxlinesCurlines w < 2 ^ 63 ->
  maxsizeCursize w < 2 ^ 63 ->
  daily w = false ->
  let w' := SetRotateSize m (SetRotateLines n w) in
  maxlines w' = 2 ^ 64 + n /\ maxsize w' = 2 ^ 64 + m /\
  rotationDue w' now = false.
Proof.
  intros Hn Hm Hl Hs Hd w'. unfold Int.minInt64 in Hn, Hm.
  assert (El : maxlines w' = 2 ^ 64 + n) by (apply wrapUint64_negative, Hn).
  assert (Es : maxsize w' = 2 ^ 64 + m) by (apply wrapUint64_negative, Hm).
  split; [exact El|]. split; [exact Es|].
  unfold rotationDue. rewrite El, Es.
  change (maxlinesCurlines w') with (maxlinesCurlines w).
  change (maxsizeCursize w') with (maxsizeCursize w).
  change (daily w') with (daily w). rewrite Hd.
  assert (E1 : (maxlinesCurlines w >=? 2 ^ 64 + n) = false)
    by (rewrite Z.geb_leb; apply Z.leb_gt; lia).
  assert (E2 : (maxsizeCursize w >=? 2 ^ 64 + m) = false)
    by (rewrite Z.geb_leb; apply Z.leb_gt; lia).
  rewrite E1, E2, !andb_false_r. reflexivity.
Qed.

(** *** The lines of the file that is opened *)

Lemma countLines_line l rest : forall cur num,
  hasNewline l = false ->
  cur + Z.of_nat (String.length l) < Bufio.MaxScanTokenSize ->
  Bufio.countLines (l ++ String "010" rest) cur num =
  Bufio.countLines rest 0 (num + 1).
Proof.
  unfold Bufio.MaxScanTokenSize.
  induction l as [|c l IH]; intros cur num Hn Hlen; simpl in *.
  - reflexivity.
  - apply orb_false_iff in Hn. destruct Hn as [Hc Hn]. rewrite Hc.
    unfold Bufio.MaxScanTokenSize.
    destruct (65536 <=? cur + 1) eqn:E; [lia|].
    apply IH; [exact Hn | lia].
Qed.

Lemma countLines_last l : forall cur num,
  hasNewline l = false -> 0 <= cur ->
  cur + Z.of_nat (String.length l) < Bufio.MaxScanTokenSize ->
  Bufio.countLines l cur num =
  ((if cur + Z.of_nat (String.length l) =? 0 then num else num + 1), false).
Proof.
  unfold Bufio.MaxScanTokenSize.
  induction l as [|c l IH]; intros cur num Hn H0 Hlen; simpl in *.
  - rewrite Z.add_0_r. reflexivity.
  - apply orb_false_iff in Hn. destruct Hn as [Hc Hn]. rewrite Hc.
    unfold Bufio.MaxScanTokenSize.
    destruct (65536 <=? cur + 1) eqn:E; [lia|].
    rewrite IH by (auto; lia).
    replace (cur + 1 + Z.of_nat (String.length l))
      with (cur + Z.pos (Pos.of_succ_nat (String.length l))) by lia.
    reflexivity.
Qed.

(** The scanner counts the lines of a text: the complete ones, and the
    last one when it lacks its newline. *)
Lemma countLines_unlines ls last : forall num,
  Forall shortLine ls -> shortLine last ->
  Bufio.countLines (unlines ls ++ last) 0 num =
  (num + Z.of_nat (List.length ls) +
   (if (last =? EmptyString)%string then 0 else 1), false).
Proof.
  induction ls as [|l ls IH]; intros num Hls [Hn Hlen].
  - simpl unlines. simpl append. rewrite countLines_last by (auto; lia).
    destruct last; simpl; f_equal; lia.
  - inversion Hls as [|? ? [Hl1 Hl2] Hls']; subst.
    simpl unlines. rewrite append_assoc. simpl append.
    rewrite countLines_line by (auto; lia).
    rewrite IH by (auto; split; auto).
    f_equal. simpl List.length. lia.
Qed.



(** X7. When [openNewFile] opens a file that holds lines shorter than
    the scanner's buffer, the line counter starts at the number of lines
    that end in a newline, plus one when text follows the last newline. *)
Theorem X7_openNewFile_counts_the_lines (w : Writer) (st : World)
    (w' : Writer) (st' : World) (ls : list string) (last : string) :
  openNewFile w st = ((w', None), st') ->
  fst (heldAt (filename w) st) = (unlines ls ++ last)%string ->
  Forall shortLine ls ->
  shortLine last ->
  maxlinesCurlines w' =
  Int.wrapUint64
    (Z.of_nat (List.length ls) +
     (if (last =? EmptyString)%string then 0 else 1)).
Proof.
  intros H Hdata Hls Hlast.
  destruct (openNewFile_ok _ _ _ _ H) as (_ & _ & _ & _ & Hml & _).
  rewrite Hml, Hdata, countLines_unlines by auto. reflexivity.
Qed.



(** *** The files the goroutine leaves open *)

Lemma Fprint_handles wr s st : handles (snd (Fprint wr s st)) = handles st.
Proof.
  destruct wr as [fd|]; [|reflexivity].
  apply (Fprint_spec fd s st).
Qed.

(** [closeCurrentFile] closes the writer's file and no other. *)
Lemma closeCurrentFile_handles w st :
  handles (snd (closeCurrentFile w st)) =
  match file w with
  | Some fd => filter (fun h => negb (fst h =? fd)%nat) (handles st)
  | None => handles st
  end.
Proof.
  unfold closeCurrentFile. destruct (file w) as [fd|]; [|reflexivity].
  unfold bind, OS.Now.
  pose proof (Fprint_handles (writer w)
                (FormatLogRecord (trailer w) (stamp (clock st (ticks st))))
                (OS.tick st)) as Fh.
  destruct (Fprint _ _ (OS.tick st)) as [r st1]. simpl in Fh.
  destruct (Close_spec fd st1) as (_ & Ch & _).
  destruct (OS.Close fd st1) as [[e|] st2]; simpl in *; congruence.
Qed.

(** [openNewFile] opens at most one file, which the writer then holds. *)
Lemma openNewFile_handles w st w' e st' :
  openNewFile w st = ((w', e), st') ->
  (w' = w /\ handles st' = handles st) \/
  (file w' = Some (next_fd st) /\
   exists ino, handles st' = (next_fd st, ino) :: handles st).
Proof.
  unfold openNewFile. unfold bind at 1.
  destruct (OS.OpenFile (filename w) st) as [[fd|e0] st1] eqn:EO.
  - assert (Hfd : fd = next_fd st /\
                  exists ino, handles st1 = (next_fd st, ino) :: handles st).
    { revert EO. os_unfold. os_case.
      all: intros E; try discriminate; injection E as <- <-; simpl; eauto. }
    destruct Hfd as [-> [ino Hh]].
    intros H. right.
    assert (Hw : file w' = Some (next_fd st) /\ handles st' = handles st1).
    { revert H. unfold Fprint. os_unfold. os_case.
      all: try (destruct (Bufio.countLines _ 0 0) as [num [|]]; simpl).
      all: os_case.
      all: intros E; injection E as <- _ <-; simpl; auto. }
    destruct Hw as [Hw Hh']. split; [exact Hw|]. exists ino. congruence.
  - intros H. left.
    assert (handles st1 = handles st).
    { revert EO. os_unfold. os_case.
      all: intros E; try discriminate; injection E as _ <-; reflexivity. }
    unfold ret in H. injection H as <- _ <-. auto.
Qed.

Lemma write_handles w rec st :
  handles (snd (write w rec st)) = handles st /\
  file (fst (fst (write w rec st))) = file w.
Proof.
  unfold write, bind.
  pose proof (Fprint_handles (writer w) (FormatLogRecord (format w) rec) st)
    as Fh.
  destruct (Fprint _ _ st) as [[n|e] st1]; simpl in *; auto.
Qed.

Section Keeps.

Variable R : Fd -> Prop.

Lemma rest_keeps w st : openWithin R st -> openAmong R w st.
Proof. intros H fd Hfd. right. auto. Qed.

Lemma closeCurrentFile_rest w st :
  openAmong R w st -> openWithin R (snd (closeCurrentFile w st)).
Proof.
  intros HK fd. unfold isOpen. rewrite closeCurrentFile_handles.
  destruct (file w) as [fd0|] eqn:Hf.
  - destruct (Nat.eq_dec fd fd0) as [->|N].
    + rewrite handle_closed. discriminate.
    + rewrite handle_closed_other by exact N. intros H.
      destruct (HK fd H) as [E|HR]; [congruence | exact HR].
  - intros H. destruct (HK fd H) as [E|HR]; [congruence | exact HR].
Qed.

Lemma frame_rest st st' : frame st st' -> openWithin R st -> openWithin R st'.
Proof.
  intros (Hh & _) H fd. unfold isOpen. rewrite Hh. apply H.
Qed.

Lemma frame_keeps w st st' :
  frame st st' -> openAmong R w st -> openAmong R w st'.
Proof.
  intros (Hh & _) H fd. unfold isOpen. rewrite Hh. apply H.
Qed.

Lemma openNewFile_keeps w st w' e st' :
  openWithin R st -> openNewFile w st = ((w', e), st') -> openAmong R w' st'.
Proof.
  intros HR H fd.
  destruct (openNewFile_handles _ _ _ _ _ H) as [[-> Hh]|[Hf [ino Hh]]];
    unfold isOpen; rewrite Hh.
  - intros Ho. right. apply HR. exact Ho.
  - destruct (Nat.eq_dec fd (next_fd st)) as [->|N]; [auto|].
    rewrite handle_cons_other by exact N. intros Ho. right. apply HR, Ho.
Qed.

Lemma doRotation_keeps w st w' e st' :
  openAmong R w st -> doRotation w st = ((w', e), st') -> openAmong R w' st'.
Proof.
  intros HK H. rewrite doRotation_steps in H. cbv zeta in H.
  pose proof (closeCurrentFile_rest _ _ HK) as H1.
  pose proof (frame_renameStep w (snd (closeCurrentFile w st))) as HF.
  destruct (renameStep w (snd (closeCurrentFile w st))) as [failed st2].
  simpl in HF. pose proof (frame_rest _ _ HF H1) as H2.
  destruct failed as [e0|].
  - injection H as <- _ <-. apply rest_keeps, H2.
  - destruct (file w) eqn:Hf.
    + eapply openNewFile_keeps; eauto.
    + injection H as <- _ <-. apply rest_keeps, H2.
Qed.

Lemma write_keeps w rec st w' e st' :
  openAmong R w st -> write w rec st = ((w', e), st') -> openAmong R w' st'.
Proof.
  intros HK H fd. destruct (write_handles w rec st) as [Hh Hf].
  rewrite H in Hh, Hf. simpl in Hh, Hf.
  unfold isOpen. rewrite Hh, Hf. apply HK.
Qed.

Lemma handleItem_keeps w it st w' stop st' :
  openAmong R w st -> handleItem w it st = ((w', stop), st') ->
  openAmong R w' st'.
Proof.
  intros HK H. destruct it as [|rec|]; unfold handleItem in H.
  - unfold bind at 1 in H.
    destruct (doRotation w st) as [[w1 e] st1] eqn:ER.
    pose proof (doRotation_keeps _ _ _ _ _ HK ER) as H1.
    destruct e; unfold printErr, OS.Stderr, bind, ret in H;
      injection H as <- _ <-; exact H1.
  - unfold bind at 1 in H.
    destruct (ensureOpen w st) as [[w0 e0] st0] eqn:E0.
    assert (H0 : openAmong R w0 st0).
    { unfold ensureOpen in E0. destruct (file w) eqn:Hf.
      - injection E0 as <- _ <-. exact HK.
      - eapply openNewFile_keeps; [|exact E0].
        intros fd Hfd. destruct (HK fd Hfd); [congruence | auto]. }
    destruct e0.
    { unfold printErr, OS.Stderr, bind, ret in H.
      injection H as <- _ <-. exact H0. }
    unfold rotateAndWrite in H. unfold bind at 1 in H.
    pose proof (frame_checkRotation w0 st0) as HF.
    destruct (checkRotation w0 st0) as [dec stc]. simpl in HF.
    pose proof (frame_keeps _ _ _ HF H0) as Hc.
    unfold bind at 1 in H.
    destruct ((if dec then doRotation w0 else ret (w0, None)) stc)
      as [[w1 e1] st1] eqn:ED.
    assert (Hd : openAmong R w1 st1).
    { destruct dec; [eapply doRotation_keeps; eauto|].
      injection ED as <- _ <-. exact Hc. }
    destruct e1.
    { unfold printErr, OS.Stderr, bind, ret in H.
      injection H as <- _ <-. exact Hd. }
    unfold bind at 1 in H.
    destruct (write w1 rec st1) as [[w2 e2] st2] eqn:EW.
    pose proof (write_keeps _ _ _ _ _ _ Hd EW) as Hw.
    destruct e2; unfold printErr, OS.Stderr, bind, ret in H;
      injection H as <- _ <-; exact Hw.
  - injection H as <- _ <-. exact HK.
Qed.

Lemma loop_keeps items : forall w st w' stop st',
  openAmong R w st -> loop w items st = ((w', stop), st') -> openAmong R w' st'.
Proof.
  induction items as [|it items IH]; intros w st w' stop st' HK H;
    simpl in H.
  - injection H as <- _ <-. exact HK.
  - unfold bind at 1 in H.
    destruct (handleItem w it st) as [[w1 stop1] st1] eqn:EH.
    pose proof (handleItem_keeps _ _ _ _ _ _ HK EH) as H1.
    destruct stop1; [injection H as <- _ <-; exact H1|].
    eapply IH; eauto.
Qed.

Lemma goroutine_rest w items st w' st' :
  openAmong R w st -> goroutine w items st = ((w', true), st') ->
  openWithin R st'.
Proof.
  intros HK H. unfold goroutine in H. unfold bind at 1 in H.
  destruct (loop w items st) as [[w1 stop] st1] eqn:EL.
  pose proof (loop_keeps _ _ _ _ _ _ HK EL) as H1.
  destruct stop; [|discriminate].
  pose proof (closeCurrentFile_rest _ _ H1) as H2.
  unfold bind, ret in H.
  destruct (closeCurrentFile w1 st1) as [u st2]. simpl in H2.
  injection H as _ <-. exact H2.
Qed.

End Keeps.

(** X9. When the goroutine has returned, every file that is open was
    open before it started and is not the file the writer held: the
    goroutine has closed every file it opened, and its own. *)
Theorem X9_goroutine_leaves_no_file_open (w : Writer) (items : list Item)
    (st : World) (w' : Writer) (st' : World) :
  goroutine w items st = ((w', true), st') ->
  forall fd, isOpen fd st' = true ->
    isOpen fd st = true /\ file w <> Some fd.
Proof.
  intros H.
  apply (goroutine_rest
           (fun fd => isOpen fd st = true /\ file w <> Some fd)
           w items st w' st'); [|exact H].
  intros fd Hfd.
  destruct (file w) as [fd0|]; [|right; split; [exact Hfd | discriminate]].
  destruct (Nat.eq_dec fd0 fd) as [->|N]; [left; reflexivity|].
  right. split; [exact Hfd | congruence].
Qed.

(** *** A writer without limits *)

Lemma steadily_ret {A} (a : A) : after steadily (ret a).
Proof. apply after_ret, grows_refl. constructor. Qed.

Lemma steadily_bind {A B} (c : IO A) (k : A -> IO B) :
  after steadily c -> (forall a, after steadily (k a)) ->
  after steadily (bind c k).
Proof.
  apply after_bind, grows_trans. intros a b Ha Hb. apply Forall_app. auto.
Qed.

Ltac steadily_prim :=
  intros st; os_unfold; os_case;
  eexists; (split; [ simpl; rewrite <- ?app_assoc; simpl;
                     try (symmetry; apply app_nil_r); reflexivity
                   | repeat constructor ]).

Lemma steadily_Fprint wr s : after steadily (Fprint wr s).
Proof. unfold Fprint. destruct wr; steadily_prim. Qed.

Lemma steadily_Close fd : after steadily (OS.Close fd).
Proof. steadily_prim. Qed.

Lemma steadily_Now : after steadily OS.Now.
Proof. steadily_prim. Qed.

Lemma steadily_Stderr d : after steadily (OS.Stderr d).
Proof. steadily_prim. Qed.

Create HintDb steadily.
Hint Resolve steadily_Fprint steadily_Close steadily_Now steadily_Stderr
  : steadily.

Ltac steadily_auto :=
  io_split ltac:(auto with steadily) @steadily_ret @steadily_bind.

Lemma steadily_closeCurrentFile w : after steadily (closeCurrentFile w).
Proof. unfold closeCurrentFile. steadily_auto. Qed.

Lemma steadily_write w rec : after steadily (write w rec).
Proof. unfold write. steadily_auto. Qed.

Lemma steadily_printErr w e : after steadily (printErr w e).
Proof. unfold printErr. steadily_auto. Qed.

(** [openNewFile] tries once to open the file, and renames and removes
    nothing. *)
Lemma openNewFile_trace w st w' e st' :
  openNewFile w st = ((w', e), st') ->
  exists r d, trace st' = trace st ++ EvOpen (filename w) r :: d /\
              Forall steady d.
Proof.
  unfold openNewFile, Fprint. os_unfold.
  os_case.
  all: rewrite ?handle_opened; simpl.
  all: os_case.
  all: try (destruct (Bufio.countLines _ 0 0) as [num [|]] eqn:EC; simpl).
  all: rewrite ?handle_opened; simpl.
  all: os_case.
  all: intros H; injection H as _ _ <-; simpl.
  all: do 2 eexists.
  all: (split; [rewrite <- ?app_assoc; simpl; reflexivity|]).
  all: repeat constructor.
Qed.

(** [openNewFile] leaves the configuration alone, also when it fails. *)
Lemma openNewFile_config w st w' e st' :
  openNewFile w st = ((w', e), st') -> config w' = config w.
Proof.
  unfold openNewFile, Fprint. os_unfold.
  os_case.
  all: rewrite ?handle_opened; simpl.
  all: os_case.
  all: try (destruct (Bufio.countLines _ 0 0) as [num [|]] eqn:EC; simpl).
  all: rewrite ?handle_opened; simpl.
  all: os_case.
  all: intros H; injection H as <- _ _; reflexivity.
Qed.

Lemma openNewFile_unlimited w st w' st' :
  unlimited w -> openNewFile w st = ((w', None), st') -> unlimited w'.
Proof.
  intros (H1 & H2 & H3) H.
  destruct (openNewFile_ok _ _ _ _ H) as (_ & _ & Hc & _).
  unfold config in Hc. unfold unlimited.
  injection Hc as _ _ _ _ _ -> -> -> _ _. auto.
Qed.

Lemma checkRotation_unlimited w st :
  unlimited w -> checkRotation w st = (false, st).
Proof.
  intros (H1 & H2 & H3). unfold checkRotation. rewrite H1, H2, H3.
  reflexivity.
Qed.

Lemma write_unlimited w rec st w' e st' :
  unlimited w -> write w rec st = ((w', e), st') ->
  unlimited w' /\ file w' = file w /\ filename w' = filename w.
Proof.
  unfold write, bind. destruct (Fprint _ _ st) as [[n|e0] st1];
    unfold ret; intros HU H; injection H as <- _ _; auto.
Qed.

(** A record in the hands of a writer without limits: the file is opened
    if it was not, the record is written, and that is all. *)
Lemma handleItem_unlimited w rec st w' stop st' :
  unlimited w ->
  handleItem w (RecItem rec) st = ((w', stop), st') ->
  filename w' = filename w /\
  (stop = false -> unlimited w' /\ file w' <> None) /\
  exists d, trace st' = trace st ++ d /\
    match file w with
    | Some _ => Forall steady d
    | None => exists r b, d = EvOpen (filename w) r :: b /\ Forall steady b
    end.
Proof.
  intros HU H. unfold handleItem in H. unfold bind at 1 in H.
  destruct (ensureOpen w st) as [[w0 e0] st0] eqn:E0.
  assert (H0 : filename w0 = filename w /\
               (e0 = None -> unlimited w0 /\ file w0 <> None) /\
               exists d, trace st0 = trace st ++ d /\
                 match file w with
                 | Some _ => d = []
                 | None => exists r b, d = EvOpen (filename w) r :: b /\
                                       Forall steady b
                 end).
  { unfold ensureOpen in E0. destruct (file w) as [fd|] eqn:Hf.
    - injection E0 as <- <- <-. split; [reflexivity|]. split.
      + intros _. split; [exact HU|congruence].
      + exists []. rewrite app_nil_r. auto.
    - destruct (openNewFile_trace _ _ _ _ _ E0) as (r & b & Ht & Hb).
      split.
      { apply openNewFile_config in E0. unfold config in E0. congruence. }
      split.
      + intros ->. split; [eapply openNewFile_unlimited; eauto|].
        destruct (openNewFile_ok _ _ _ _ E0) as (Of & _). congruence.
      + exists (EvOpen (filename w) r :: b). split; [exact Ht|]. eauto. }
  destruct H0 as (Hn0 & Hok0 & d0 & Ht0 & Hd0).
  destruct e0 as [e0|].
  { pose proof (steadily_printErr w0 e0 st0) as (d1 & Ht1 & Hd1).
    unfold bind, ret in H.
    destruct (printErr w0 e0 st0) as [u st1]. simpl in Ht1.
    injection H as <- <- <-. split; [exact Hn0|]. split; [discriminate|].
    exists (d0 ++ d1). split; [rewrite Ht1, Ht0, app_assoc; reflexivity|].
    destruct (file w).
    - subst d0. exact Hd1.
    - destruct Hd0 as (r & b & -> & Hb). exists r, (b ++ d1).
      split; [reflexivity|]. apply Forall_app. auto. }
  destruct (Hok0 eq_refl) as [HU0 Hf0].
  unfold rotateAndWrite in H. unfold bind at 1 in H.
  rewrite (checkRotation_unlimited _ _ HU0) in H.
  unfold bind at 1 in H. unfold ret at 1 in H. unfold bind at 1 in H.
  pose proof (steadily_write w0 rec st0) as (d1 & Ht1 & Hd1).
  destruct (write w0 rec st0) as [[w1 e1] st1] eqn:EW. simpl in Ht1.
  destruct (write_unlimited _ _ _ _ _ _ HU0 EW) as (HU1 & Hf1 & Hn1).
  assert (Hfin : exists d2, trace st' = trace st1 ++ d2 /\ Forall steady d2 /\
                   w' = w1 /\ (stop = false -> e1 = None)).
  { destruct e1 as [e1|].
    - pose proof (steadily_printErr w1 e1 st1) as (d2 & Ht2 & Hd2).
      unfold bind, ret in H.
      destruct (printErr w1 e1 st1) as [u st2]. simpl in Ht2.
      injection H as <- <- <-. exists d2. repeat split; auto. discriminate.
    - unfold ret in H. injection H as <- <- <-.
      exists []. rewrite app_nil_r. repeat split; auto. }
  destruct Hfin as (d2 & Ht2 & Hd2 & -> & Hstop).
  split; [congruence|]. split.
  { intros Hs. split; [exact HU1 | congruence]. }
  exists (d0 ++ d1 ++ d2). split.
  { rewrite Ht2, Ht1, Ht0, <- !app_assoc. reflexivity. }
  destruct (file w).
  - subst d0. simpl. apply Forall_app. auto.
  - destruct Hd0 as (r & b & -> & Hb). exists r, (b ++ d1 ++ d2).
    split; [reflexivity|]. repeat (apply Forall_app; split); auto.
Qed.

Lemma oneSession_app fName d c :
  oneSession fName d -> Forall steady c -> oneSession fName (d ++ c).
Proof.
  intros [Hd|(a & r & b & -> & Ha & Hb)] Hc.
  - left. apply Forall_app. auto.
  - right. exists a, r, (b ++ c). rewrite <- app_assoc. simpl.
    split; [reflexivity|]. split; [exact Ha|]. apply Forall_app. auto.
Qed.

Lemma calm_receive fName st0 s it buf :
  it <> RotItem -> exited s = false -> calm fName st0 s ->
  calm fName st0 (receive s it buf (rotSenders s)).
Proof.
  intros Hit He (Hr & Hu & d & Ht & Hd).
  destruct (Hu He) as [HU Hn]. rewrite He in Hd.
  destruct (receive_world s it buf (rotSenders s))
    as (Rw & Rx & Rst & _ & Rr & _).
  unfold calm. rewrite Rw, Rx, Rst, Rr. clear Rw Rx Rst Rr.
  split; [exact Hr|].
  destruct it as [|rec|]; [congruence| |].
  - destruct (handleItem (wr s) (RecItem rec) (world s))
      as [[w' stop] st'] eqn:EH. simpl.
    destruct (handleItem_unlimited _ _ _ _ _ _ HU EH)
      as (Hn' & Hok & d1 & Ht1 & Hd1).
    split.
    { intros ->. destruct (Hok eq_refl). split; [assumption|congruence]. }
    assert (Hone : oneSession fName (d ++ d1)).
    { destruct (file (wr s)).
      - apply oneSession_app; assumption.
      - destruct Hd1 as (r & b & -> & Hb). right. exists d, r, b.
        rewrite Hn. auto. }
    destruct stop.
    + pose proof (steadily_closeCurrentFile w' st') as (d2 & Ht2 & Hd2).
      exists ((d ++ d1) ++ d2). split.
      { rewrite Ht2, Ht1, Ht, <- !app_assoc. reflexivity. }
      apply oneSession_app; assumption.
    + exists (d ++ d1). split; [rewrite Ht1, Ht, app_assoc; reflexivity|].
      destruct (Hok eq_refl) as [_ Hf]. destruct (file w'); [|congruence].
      exact Hone.
  - simpl. split; [discriminate|].
    pose proof (steadily_closeCurrentFile (wr s) (world s))
      as (d2 & Ht2 & Hd2).
    exists (d ++ d2). split; [rewrite Ht2, Ht, app_assoc; reflexivity|].
    destruct (file (wr s)).
    + apply oneSession_app; assumption.
    + left. apply Forall_app. auto.
Qed.

Lemma calm_act fName st0 s a s' :
  a <> Client Rotate -> calm fName st0 s -> act s a = Next s' ->
  calm fName st0 s'.
Proof.
  intros Ha HC H. destruct a as [c|k]; simpl in H.
  - apply call_inv in H. destruct H as (Hw & Hst & He & _ & Hc).
    assert (Hr : rotSenders s' = rotSenders s).
    { destruct c; [apply Hc | congruence | apply Hc]. }
    unfold calm. rewrite Hw, Hst, He, Hr. exact HC.
  - apply select_inv in H. destruct H as (He & it & buf & rot & -> & Hit).
    destruct HC as (Hr & HC).
    destruct it as [|rec|].
    + destruct Hit as (_ & _ & Hs). congruence.
    + destruct Hit as (_ & _ & ->).
      apply calm_receive; [discriminate | exact He | split; assumption].
    + destruct Hit as (_ & _ & _ & -> & _).
      apply calm_receive; [discriminate | exact He | split; assumption].
Qed.

Lemma calm_exec fName st0 acts : forall s s',
  Forall (fun a => a <> Client Rotate) acts ->
  calm fName st0 s -> exec s acts = Next s' -> calm fName st0 s'.
Proof.
  induction acts as [|a acts IH]; intros s s' Hacts HC H; simpl in H.
  - injection H as <-. exact HC.
  - inversion Hacts as [|? ? Ha Hrest]; subst.
    destruct (act s a) as [s1| |] eqn:E; try discriminate.
    eapply IH; [exact Hrest| |exact H]. eapply calm_act; eauto.
Qed.

Lemma calm_session fName st0 s :
  calm fName st0 s -> oneSession fName (since st0 (world s)).
Proof.
  intros (_ & _ & d & Ht & Hd). rewrite (since_app _ _ _ Ht).
  destruct (exited s); [exact Hd|].
  destruct (file (wr s)); [exact Hd | left; exact Hd].
Qed.

Lemma started_calm s :
  started s -> unlimited (wr s) -> calm (filename (wr s)) (world s) s.
Proof.
  intros (Hf & _ & He & _ & Hr & _) HU. split; [exact Hr|]. split; [auto|].
  exists []. rewrite app_nil_r. split; [reflexivity|].
  rewrite He, Hf. constructor.
Qed.

(** X10. A writer that was given no limit (no line count, no size, no
    daily rotation) and is never asked to rotate goes through one session
    at most, whatever is sent to it and whichever calls fail: it opens its
    log file once or not at all, and renames and removes nothing. *)
Theorem X10_unlimited_writer_never_rotates (s0 : System)
    (acts : list Action) (s : System) :
  started s0 ->
  unlimited (wr s0) ->
  Forall (fun a => a <> Client Rotate) acts ->
  exec s0 acts = Next s ->
  oneSession (filename (wr s0)) (since (world s0) (world s)).
Proof.
  intros H0 HU Hacts H. apply calm_session.
  eapply calm_exec; [exact Hacts | apply started_calm; assumption | exact H].
Qed.

(** X11. [NewApplicationLogger] never returns its error.  Its logger has
    one filter, [s], at level INFO, on a writer for [logs/application.log]
    that has not started a session, keeps no rotated files, has no limit
    and waits on close.  The logger cannot ask for a rotation, so the
    application log goes through one session at most: it is opened once or
    not at all, and is never renamed or removed. *)
Theorem X11_application_logger (st : World) :
  exists flw,
    Log.NewApplicationLogger st =
      ([("s", {| Log.Level := Log.INFO; Log.LogWriter := flw |})], None) /\
    world flw = st /\ started flw /\
    filename (wr flw) = Log.ApplicationLogFile /\
    rotate (wr flw) = false /\ waitOnClose (wr flw) = true /\
    keepRotatedSeconds (wr flw) = 0 /\ unlimited (wr flw) /\
    forall acts s,
      Forall (fun a => a <> Client Rotate) acts ->
      exec flw acts = Next s ->
      oneSession Log.ApplicationLogFile (since st (world s)).
Proof.
  eexists. split; [reflexivity|]. simpl.
  split; [reflexivity|].
  assert (Hs : started
            (configure (SetWaitOnClose true)
               (configure (SetFormat "[%D %T][%L] %M")
                  (NewWriter Log.ApplicationLogFile false st))))
    by (repeat split).
  assert (Hu : unlimited
            (wr (configure (SetWaitOnClose true)
                   (configure (SetFormat "[%D %T][%L] %M")
                      (NewWriter Log.ApplicationLogFile false st)))))
    by (repeat split).
  split; [exact Hs|]. repeat (split; [reflexivity|]). split; [exact Hu|].
  intros acts s Hacts H.
  apply (calm_session Log.ApplicationLogFile st).
  eapply calm_exec; [exact Hacts | | exact H].
  apply (started_calm _ Hs Hu).
Qed.

(** *** The records in the file *)

Lemma concat_cons (x : string) (xs : list string) :
  String.concat EmptyString (x :: xs) =
  (x ++ String.concat EmptyString xs)%string.
Proof.
  destruct xs; simpl; [rewrite append_nil_r|]; reflexivity.
Qed.

Lemma lookup_app_new p ds d :
  OS.lookup p ds = None -> OS.path_of d = p ->
  OS.lookup p (ds ++ [d]) = Some d.
Proof.
  unfold OS.lookup. intros Hn Hp. induction ds as [|x ds IH]; simpl in *.
  - rewrite Hp, String.eqb_refl. reflexivity.
  - destruct (OS.path_of x =? p)%string; [discriminate|]. apply IH, Hn.
Qed.

(** Without failing calls, [openNewFile] opens the file it finds or makes
    at the writer's path, and writes the header at its end. *)
Lemma openNewFile_nofault w st :
  (forall n op, fault st n op = None) ->
  Filepath.Join (Filepath.Dir (filename w)) (Filepath.Base (filename w)) =
    filename w ->
  (forall d, OS.lookup (filename w) (dirents st) = Some d ->
             i_isDir (inodes st (d_ino d)) = false) ->
  snd (Bufio.countLines (fst (heldAt (filename w) st)) 0 0) = false ->
  exists w1 st1 ino d now,
    openNewFile w st = ((w1, None), st1) /\
    OS.handle (next_fd st) (handles st1) = Some ino /\
    OS.lookup (filename w) (dirents st1) = Some d /\ d_ino d = ino /\
    i_data (inodes st1 ino) =
      (fst (heldAt (filename w) st) ++
       FormatLogRecord (header w) (stamp now))%string /\
    fault st1 = fault st.
Proof.
  intros Hnf Hclean Hreg Hlines.
  unfold openNewFile, Fprint, heldAt in *. os_unfold.
  destruct (OS.lookup (filename w) (dirents st)) as [d|] eqn:El.
  - rewrite (Hreg d eq_refl). simpl in Hlines.
    destruct (Bufio.countLines (i_data (inodes st (d_ino d))) 0 0)
      as [num long] eqn:EC. simpl in Hlines. subst long.
    repeat (simpl; first [rewrite Hnf | rewrite handle_opened
                         | rewrite setInode_same | rewrite EC]).
    do 5 eexists. split; [reflexivity|]. simpl.
    rewrite handle_opened. split; [reflexivity|].
    split; [exact El|]. split; [reflexivity|].
    rewrite setInode_same. simpl. split; reflexivity.
  - repeat (simpl; first [rewrite Hnf | rewrite handle_opened
                         | rewrite setInode_same]).
    do 5 eexists. split; [reflexivity|]. simpl.
    rewrite handle_opened. split; [reflexivity|].
    split; [apply lookup_app_new; [exact El | exact Hclean]|].
    split; [reflexivity|].
    rewrite !setInode_same. simpl. split; reflexivity.
Qed.

(** Without failing calls, a record goes to the end of the open file. *)
Lemma write_nofault w rec st fd ino :
  (forall n op, fault st n op = None) ->
  writer w = Some fd -> OS.handle fd (handles st) = Some ino ->
  exists w1 st1,
    write w rec st = ((w1, None), st1) /\
    i_data (inodes st1 ino) =
      (i_data (inodes st ino) ++ FormatLogRecord (format w) rec)%string /\
    handles st1 = handles st /\ dirents st1 = dirents st /\
    fault st1 = fault st.
Proof.
  intros Hnf Hw Hh. unfold write, Fprint. rewrite Hw. os_unfold.
  repeat (simpl; first [rewrite Hnf | rewrite Hh | rewrite setInode_same]).
  do 2 eexists. split; [reflexivity|]. simpl.
  rewrite setInode_same. simpl. repeat split.
Qed.

(** Without failing calls, a writer without limits that holds its file
    open writes the records it receives one after the other, until the
    channel is closed. *)
Lemma loop_nofault recs : forall w st fd ino,
  (forall n op, fault st n op = None) ->
  unlimited w -> file w = Some fd -> writer w = Some fd ->
  OS.handle fd (handles st) = Some ino ->
  exists w1 st1,
    loop w (map RecItem recs ++ [ClosedItem]) st = ((w1, true), st1) /\
    file w1 = Some fd /\ writer w1 = Some fd /\
    trailer w1 = trailer w /\
    i_data (inodes st1 ino) =
      (i_data (inodes st ino) ++
       String.concat EmptyString
         (map (FormatLogRecord (format w)) recs))%string /\
    handles st1 = handles st /\ dirents st1 = dirents st /\
    fault st1 = fault st.
Proof.
  induction recs as [|rec recs IH]; intros w st fd ino Hnf HU Hf Hw Hh.
  - exists w, st. simpl. rewrite append_nil_r. repeat split; auto.
  - destruct (write_nofault w rec st fd ino Hnf Hw Hh)
      as (w1 & st1 & EW & Hd & Hh1 & Hde & Hfa).
    destruct (write_unlimited _ _ _ _ _ _ HU EW) as (HU1 & Hf1 & _).
    destruct (write_ok _ _ _ _ _ _ Hw EW)
      as (_ & _ & _ & _ & _ & Hw1 & Hc1 & _).
    assert (Hnf1 : forall n op, fault st1 n op = None)
      by (intros; rewrite Hfa; apply Hnf).
    destruct (IH w1 st1 fd ino Hnf1 HU1) as (w2 & st2 & EL & R);
      [congruence | congruence | congruence |].
    destruct R as (Rf & Rw & Rt & Rd & Rh & Rde & Rfa).
    exists w2, st2. split.
    { simpl. unfold bind at 1. unfold handleItem, ensureOpen.
      rewrite Hf. unfold bind at 1, ret at 1.
      unfold rotateAndWrite. unfold bind at 1.
      rewrite (checkRotation_unlimited _ _ HU).
      unfold bind at 1, ret at 1. unfold bind at 1. rewrite EW.
      unfold ret at 1. exact EL. }
    unfold config in Hc1.
    assert (Hfmt : format w1 = format w) by congruence.
    assert (Htr : trailer w1 = trailer w) by congruence.
    split; [exact Rf|]. split; [exact Rw|]. split; [congruence|].
    split.
    { rewrite Rd, Hd, Hfmt, append_assoc.
      cbn [map]. rewrite concat_cons. reflexivity. }
    repeat split; congruence.
Qed.

(** Without failing calls, closing the file puts the trailer at its
    end. *)
Lemma closeCurrentFile_nofault w st fd ino :
  (forall n op, fault st n op = None) ->
  file w = Some fd -> writer w = Some fd ->
  OS.handle fd (handles st) = Some ino ->
  exists now,
    i_data (inodes (snd (closeCurrentFile w st)) ino) =
      (i_data (inodes st ino) ++
       FormatLogRecord (trailer w) (stamp now))%string /\
    dirents (snd (closeCurrentFile w st)) = dirents st /\
    isOpen fd (snd (closeCurrentFile w st)) = false.
Proof.
  intros Hnf Hf Hw Hh. unfold closeCurrentFile, Fprint, isOpen.
  rewrite Hf, Hw. os_unfold.
  repeat (simpl; first [rewrite Hnf | rewrite Hh | rewrite setInode_same]).
  eexists. split; [reflexivity|]. split; [reflexivity|].
  rewrite handle_closed. reflexivity.
Qed.

(** X12. When no call fails, a writer without limits that is sent
    records and is then closed leaves in its log file what the file held
    before, then the header, then the records as they are formatted, in
    the order they were sent, then the trailer.  The path is one the model
    of the file system can name, and what it names is not a directory and
    holds no line the scanner cannot take. *)
Theorem X12_records_reach_the_file_in_order (w : Writer) (rec : LogRecord)
    (recs : list LogRecord) (st : World) :
  (forall n op, fault st n op = None) ->
  unlimited w ->
  file w = None ->
  Filepath.Join (Filepath.Dir (filename w)) (Filepath.Base (filename w))
    = filename w ->
  (forall d, OS.lookup (filename w) (dirents st) = Some d
     -> i_isDir (inodes st (d_ino d)) = false) ->
  snd (Bufio.countLines (fst (heldAt (filename w) st)) 0 0) = false ->
  let old := fst (heldAt (filename w) st) in
  let r := goroutine w (map RecItem (rec :: recs) ++ [ClosedItem]) st in
  snd (fst r) = true /\
  exists hnow tnow,
    fst (heldAt (filename w) (snd r)) =
      (old ++ FormatLogRecord (header w) (stamp hnow) ++
       String.concat EmptyString
         (map (FormatLogRecord (format w)) (rec :: recs)) ++
       FormatLogRecord (trailer w) (stamp tnow))%string.
Proof.
  intros Hnf HU Hf Hclean Hreg Hlines old r.
  set (path := filename w) in *.
  destruct (openNewFile_nofault w st Hnf Hclean Hreg Hlines)
    as (w1 & st1 & ino & d & hnow & EO & Hh1 & Hl1 & Hino & Hd1 & Hfa1).
  fold path old in Hd1, Hl1.
  destruct (openNewFile_ok _ _ _ _ EO) as (Of & Ow & Oc & _).
  assert (HU1 : unlimited w1) by (eapply openNewFile_unlimited; eauto).
  assert (Hnf1 : forall n op, fault st1 n op = None)
    by (intros; rewrite Hfa1; apply Hnf).
  destruct (loop_nofault (rec :: recs) w1 st1 (next_fd st) ino
              Hnf1 HU1 Of Ow Hh1)
    as (w2 & st2 & EL & Lf & Lw & Lt & Ld & Lh & Lde & Lfa).
  assert (Hnf2 : forall n op, fault st2 n op = None)
    by (intros; rewrite Lfa; apply Hnf1).
  assert (Hh2 : OS.handle (next_fd st) (handles st2) = Some ino)
    by (rewrite Lh; exact Hh1).
  destruct (closeCurrentFile_nofault w2 st2 (next_fd st) ino Hnf2 Lf Lw Hh2)
    as (tnow & Cd & Cde & _).
  assert (Er : r = ((w2, true), snd (closeCurrentFile w2 st2))).
  { unfold r, goroutine. unfold bind at 1.
    assert (EL' : loop w (map RecItem (rec :: recs) ++ [ClosedItem]) st =
                  ((w2, true), st2)).
    { assert (EH : handleItem w (RecItem rec) st =
                   handleItem w1 (RecItem rec) st1).
      { unfold handleItem, ensureOpen, bind. rewrite Hf, Of, EO.
        reflexivity. }
      cbn [map app loop] in EL |- *. unfold bind at 1 in EL.
      unfold bind at 1. rewrite EH. exact EL. }
    rewrite EL'. unfold bind, ret.
    destruct (closeCurrentFile w2 st2). reflexivity. }
  rewrite Er. simpl. split; [reflexivity|].
  exists hnow, tnow. unfold heldAt. rewrite Cde, Lde, Hl1, Hino. simpl.
  unfold config in Oc.
  assert (Hfmt : format w1 = format w) by congruence.
  assert (Htr : trailer w1 = trailer w) by congruence.
  rewrite Cd, Ld, Hd1, Lt, Htr, Hfmt, !append_assoc. reflexivity.
Qed.

(** *** The end of the goroutine *)

(** X13. Once the goroutine has returned, after a close or after a
    failure, it takes nothing more: the world and the writer stay as they
    are, every record sent later stays in the buffer and every later
    request for rotation keeps its caller waiting. *)
Theorem X13_after_the_goroutine_returned (s : System) (acts : list Action)
    (s' : System) :
  exited s = true ->
  exec s acts = Next s' ->
  exited s' = true /\ world s' = world s /\ wr s' = wr s /\
  received s' = received s /\
  Forall (fun a => exists c, a = Client c) acts /\
  exists new, sent s' = sent s ++ new /\
    recBuf s' = recBuf s ++ records new /\
    rotSenders s' = (rotSenders s + rotations new)%nat.
Proof.
  revert s. induction acts as [|a acts IH]; intros s He H; simpl in H.
  - injection H as <-. repeat split; auto. exists [].
    rewrite !app_nil_r. simpl. auto.
  - destruct (act s a) as [s1| |] eqn:E; try discriminate.
    destruct a as [c|k]; simpl in E.
    + pose proof (call_inv _ _ _ E) as (Hw & Hst & Hx & Hrc & Hc).
      destruct (IH s1) as (I1 & I2 & I3 & I4 & I5 & new & I6 & I7 & I8);
        [congruence | exact H |].
      split; [exact I1|]. split; [congruence|]. split; [congruence|].
      split; [congruence|]. split; [constructor; eauto|].
      destruct c as [rec| |].
      * destruct Hc as (Hb & Hs & Hr & _). exists (RecItem rec :: new).
        rewrite I6, I7, I8, Hb, Hs, Hr, <- !app_assoc. simpl.
        repeat split.
      * destruct Hc as (Hb & Hs & Hr & _). exists (RotItem :: new).
        rewrite I6, I7, I8, Hb, Hs, Hr, <- !app_assoc. simpl.
        repeat split. unfold rotations. simpl. lia.
      * destruct Hc as (Hb & Hs & Hr & _). exists new.
        rewrite I6, I7, I8, Hb, Hs, Hr. repeat split.
    + unfold select in E. rewrite He in E. discriminate.
Qed.

(** X14. After [Close], the goroutine can always finish: taking from
    the record channel, it returns after one receive more than there are
    records in the buffer, or earlier when a record fails; it has then
    taken the records of the buffer in their order, up to the one it
    stopped at, and a caller waiting in [Close] goes on. *)
Theorem X14_close_lets_the_goroutine_finish (s : System) :
  recClosed s = true ->
  exited s = false ->
  exists n s', (n <= S (List.length (recBuf s)))%nat /\
    exec s (repeat (Select CaseRec) n) = Next s' /\
    exited s' = true /\ waitReturns s' = true /\
    received s' = received s ++ map RecItem (firstn n (recBuf s)) /\
    recBuf s' = skipn n (recBuf s).
Proof.
  remember (recBuf s) as buf eqn:Eb. revert s Eb.
  induction buf as [|rec buf IH]; intros s Eb Hc He.
  - set (s1 := receive s ClosedItem [] (rotSenders s)).
    destruct (receive_world s ClosedItem [] (rotSenders s))
      as (_ & Hx & _ & Hb & _ & _ & _ & Hr). fold s1 in Hx, Hb, Hr.
    assert (E1 : select s CaseRec = Next s1).
    { unfold select. rewrite He, <- Eb, Hc. reflexivity. }
    exists 1%nat, s1. split; [simpl; lia|].
    cbn [repeat exec act]. rewrite E1.
    unfold waitReturns. simpl in Hx. rewrite app_nil_r in Hr.
    repeat split; auto.
  - set (s1 := receive s (RecItem rec) buf (rotSenders s)).
    destruct (receive_world s (RecItem rec) buf (rotSenders s))
      as (_ & Hx & _ & Hb & _ & Hcl & _ & Hr). fold s1 in Hx, Hb, Hcl, Hr.
    assert (E1 : select s CaseRec = Next s1).
    { unfold select. rewrite He, <- Eb. reflexivity. }
    destruct (exited s1) eqn:Ex1.
    + exists 1%nat, s1. split; [simpl; lia|].
      cbn [repeat exec act]. rewrite E1.
      unfold waitReturns. repeat split; auto.
    + destruct (IH s1) as (n & s' & Hn & Hexec & R);
        [congruence | congruence | exact Ex1 |].
      destruct R as (R1 & R2 & R3 & R4).
      exists (S n), s'. split; [simpl; lia|].
      cbn [repeat exec act]. rewrite E1.
      split; [exact Hexec|]. split; [exact R1|]. split; [exact R2|].
      rewrite R3, R4, Hr, <- app_assoc. auto.
Qed.




(** X16. When the log file cannot be opened, the first record ends the
    goroutine: the failure is reported on the standard error stream, the
    record is dropped with everything that follows it, and no file is
    made, changed or left open. *)
Theorem X16_unopenable_file_stops_the_writer (w : Writer) (rec : LogRecord)
    (rest : list Item) (st : World) (e : error) :
  file w = None ->
  fst (OS.OpenFile (filename w) st) = Err e ->
  exists st',
    goroutine w (RecItem rec :: rest) st = ((w, true), st') /\
    since st st' =
      [EvOpen (filename w) (Err e);
       EvStderr (DiagNewWriter (filename w) e)] /\
    dirents st' = dirents st /\ inodes st' = inodes st /\
    handles st' = handles st.
Proof.
  intros Hf Ho.
  assert (Hst : exists st1, OS.OpenFile (filename w) st = (Err e, st1) /\
            trace st1 = trace st ++ [EvOpen (filename w) (Err e)] /\
            dirents st1 = dirents st /\ inodes st1 = inodes st /\
            handles st1 = handles st).
  { revert Ho. os_unfold. os_case.
    all: intros E; try discriminate; injection E as <-.
    all: eexists; split; [reflexivity|]; simpl; auto. }
  destruct Hst as (st1 & EO & Ht & Hd & Hi & Hh).
  eexists. split.
  - unfold goroutine. cbn [loop]. unfold bind at 1. unfold bind at 1.
    unfold handleItem. unfold bind at 1. unfold ensureOpen. rewrite Hf.
    unfold openNewFile. unfold bind at 1. rewrite EO.
    unfold ret at 1. unfold bind at 1.
    unfold printErr, OS.Stderr. unfold ret at 1. unfold ret at 1.
    unfold closeCurrentFile. rewrite Hf. unfold bind, ret. reflexivity.
  - simpl. split; [|auto].
    apply since_app. simpl. rewrite Ht, <- app_assoc. reflexivity.
Qed.

(** *** What a rotation does to the log *)

Lemma Split_name s : hasSlash s = false -> Filepath.Split s = (EmptyString, s).
Proof.
  induction s as [|c s IH]; simpl; [reflexivity|].
  intros H. apply orb_false_iff in H. destruct H as [Hc Hs].
  rewrite (IH Hs), Hc. reflexivity.
Qed.

Lemma Split_app p s :
  hasSlash s = false ->
  Filepath.Split (p ++ s) =
  (fst (Filepath.Split p), (snd (Filepath.Split p) ++ s)%string).
Proof.
  intros Hs. induction p as [|c p IH]; simpl.
  - rewrite (Split_name s Hs). reflexivity.
  - rewrite IH. destruct (Filepath.Split p) as [d f]. simpl.
    destruct (Ascii.eqb c "/"); destruct (String.length d =? 0)%nat;
      reflexivity.
Qed.

Lemma Dir_app p s :
  hasSlash s = false -> Filepath.Dir (p ++ s) = Filepath.Dir p.
Proof.
  intros Hs. unfold Filepath.Dir. rewrite (Split_app p s Hs). reflexivity.
Qed.

Lemma Base_app p s :
  hasSlash s = false -> p <> EmptyString ->
  Filepath.Base (p ++ s) = (Filepath.Base p ++ s)%string.
Proof.
  intros Hs Hp. unfold Filepath.Base. rewrite (Split_app p s Hs).
  destruct p as [|c p]; [congruence|]. reflexivity.
Qed.

Lemma Join_app dir name s :
  Filepath.Join dir (name ++ s) = (Filepath.Join dir name ++ s)%string.
Proof.
  unfold Filepath.Join.
  destruct (dir =? ".")%string; [reflexivity|].
  destruct (dir =? "/")%string; [reflexivity|].
  rewrite !append_assoc. reflexivity.
Qed.

(** A path that [Dir], [Base] and [Join] take apart and put together
    again stays one when a suffix without separator is added. *)
Lemma clean_app p s :
  Filepath.Join (Filepath.Dir p) (Filepath.Base p) = p ->
  hasSlash s = false ->
  Filepath.Join (Filepath.Dir (p ++ s)) (Filepath.Base (p ++ s)) =
  (p ++ s)%string.
Proof.
  intros Hc Hs.
  assert (Hp : p <> EmptyString).
  { intros ->. vm_compute in Hc. discriminate. }
  rewrite Dir_app, Base_app, Join_app, Hc by assumption. reflexivity.
Qed.

Lemma hasSlash_app a b : hasSlash (a ++ b) = hasSlash a || hasSlash b.
Proof.
  induction a as [|c a IH]; simpl; [reflexivity|].
  rewrite IH, orb_assoc. reflexivity.
Qed.

Lemma hasSlash_zeros k : hasSlash (Fmt.zeros k) = false.
Proof. induction k; simpl; auto. Qed.

Lemma hasSlash_digits u : hasSlash (NilEmpty.string_of_uint u) = false.
Proof. induction u; simpl; auto. Qed.

Lemma hasSlash_Sprintf n : hasSlash (Fmt.Sprintf_03d n) = false.
Proof.
  unfold Fmt.Sprintf_03d, Fmt.padZeros, Fmt.digits.
  destruct (n <? 0); simpl; rewrite hasSlash_app, hasSlash_zeros,
    hasSlash_digits; reflexivity.
Qed.

Lemma append_inj_l s a b : (s ++ a)%string = (s ++ b)%string -> a = b.
Proof. induction s; simpl; intros H; [exact H|injection H; auto]. Qed.

Lemma Join_inj dir a b : Filepath.Join dir a = Filepath.Join dir b -> a = b.
Proof.
  unfold Filepath.Join.
  destruct (dir =? ".")%string; [auto|].
  destruct (dir =? "/")%string; [apply (append_inj_l "/")|].
  intros H. apply append_inj_l in H. apply (append_inj_l "/") in H. exact H.
Qed.

Lemma append_length a b :
  String.length (a ++ b) = (String.length a + String.length b)%nat.
Proof. induction a; simpl; auto. Qed.

Lemma append_longer p c s : (p ++ String c s)%string <> p.
Proof.
  intros H. apply (f_equal String.length) in H.
  rewrite append_length in H. simpl in H. lia.
Qed.

(** The name [processAlreadyRotatedFiles] returns is the log file's name,
    a dot and a number. *)
Lemma processAlreadyRotatedFiles_name w st :
  exists k, fst (processAlreadyRotatedFiles w st) =
            (filename w ++ "." ++ Fmt.Sprintf_03d k)%string.
Proof.
  unfold processAlreadyRotatedFiles. cbv zeta. unfold bind at 1.
  destruct (OS.ReadDir (Filepath.Dir (filename w)) st) as [r st1].
  unfold bind at 1.
  destruct (match r with Ok files => _ | Err _ => ret 0 end st1) as [n st2].
  unfold ret. simpl. eauto.
Qed.

(** The scan leaves the counter of inodes and the oracle alone. *)
Lemma scanRotatedFiles_next_ino w dir base now files :
  forall lastNum st,
    next_ino (snd (scanRotatedFiles w dir base now files lastNum st)) =
    next_ino st.
Proof.
  induction files as [|f rest IH]; intros lastNum st; [reflexivity|].
  rewrite scanRotatedFiles_cons. cbv zeta.
  destruct (rotated base f); [|apply IH].
  unfold bind at 1.
  destruct (expired w now f).
  - fold (removeExpired dir f).
    assert (E : next_ino (snd (removeExpired dir f st)) = next_ino st).
    { unfold removeExpired. os_unfold. os_case; reflexivity. }
    destruct (removeExpired dir f st) as [u st1]. simpl in E.
    rewrite IH. exact E.
  - unfold ret at 1. apply IH.
Qed.

Lemma processAlreadyRotatedFiles_next_ino w st :
  next_ino (snd (processAlreadyRotatedFiles w st)) = next_ino st.
Proof.
  remember (snd (processAlreadyRotatedFiles w st)) as st' eqn:E.
  unfold processAlreadyRotatedFiles in E. cbv zeta in E.
  unfold bind at 1 in E. unfold OS.ReadDir in E. cbv beta in E.
  destruct (fault st (ticks st) (OpReadDir (Filepath.Dir (filename w)))).
  - subst st'. reflexivity.
  - unfold bind at 1 in E. unfold bind at 1 in E.
    unfold OS.Now in E. simpl in E.
    match type of E with context [scanRotatedFiles ?w ?d ?b ?n ?f ?l ?s] =>
      pose proof (scanRotatedFiles_next_ino w d b n f l s) as E';
      destruct (scanRotatedFiles w d b n f l s) as [k stn] end.
    simpl in E'. subst st'. simpl. exact E'.
Qed.

(** The log file itself is not one of its rotated files. *)
Lemma log_file_not_rotated w st d :
  OS.path_of d = filename w ->
  Filepath.Join (Filepath.Dir (filename w)) (Filepath.Base (filename w)) =
    filename w ->
  d_dir d <> Filepath.Dir (filename w) \/
  rotated (Filepath.Base (filename w)) (OS.info (inodes st) d) = false.
Proof.
  intros Hp Hc.
  destruct (String.eqb_spec (d_dir d) (Filepath.Dir (filename w)))
    as [E|N]; [right | left; exact N].
  unfold OS.path_of in Hp. rewrite E in Hp.
  rewrite <- Hc in Hp at 2. apply Join_inj in Hp.
  unfold rotated. simpl. rewrite Hp.
  pose proof (TrimPrefix_app (Filepath.Base (filename w)) EmptyString) as T.
  rewrite append_nil_r in T. rewrite T.
  rewrite andb_false_r. reflexivity.
Qed.

(** In a file system where a path names one entry, looking a path up
    finds that entry. *)
Lemma lookup_unique ds d :
  NoDup (map OS.path_of ds) -> In d ds ->
  OS.lookup (OS.path_of d) ds = Some d.
Proof.
  intros ND Hd. unfold OS.lookup.
  destruct (find (fun x => (OS.path_of x =? OS.path_of d)%string) ds)
    as [x|] eqn:E.
  - apply find_some in E. destruct E as [Hx Hp]. apply String.eqb_eq in Hp.
    f_equal. eapply NoDup_path_inj; eauto.
  - exfalso. apply (find_none _ _ E) in Hd.
    rewrite String.eqb_refl in Hd. discriminate.
Qed.

Lemma lookup_in p ds d : OS.lookup p ds = Some d -> In d ds /\ OS.path_of d = p.
Proof.
  unfold OS.lookup. intros E. apply find_some in E. destruct E as [Hx Hp].
  apply String.eqb_eq in Hp. auto.
Qed.

Lemma processAlreadyRotatedFiles_spares w st d :
  NoDup (map OS.path_of (dirents st)) ->
  In d (dirents st) ->
  d_dir d <> Filepath.Dir (filename w) \/
    rotated (Filepath.Base (filename w)) (OS.info (inodes st) d) = false ->
  let st' := snd (processAlreadyRotatedFiles w st) in
  In d (dirents st') /\ inodes st' = inodes st /\
  forall x, In x (dirents st') -> In x (dirents st).
Proof.
  intros ND Hd Hnot st'.
  set (dir := Filepath.Dir (filename w)) in *.
  set (base := Filepath.Base (filename w)) in *.
  destruct (fault st (ticks st) (OpReadDir dir)) eqn:Hrd.
  - unfold st'. rewrite (processAlreadyRotatedFiles_unlisted _ _ _ Hrd).
    simpl. auto.
  - destruct (processAlreadyRotatedFiles_listed w st Hrd) as [n Hscan].
    fold dir base st' in Hscan.
    destruct (scanRotatedFiles_spec _ _ _ _ _ _ _ _ _ Hscan)
      as (Si & Ssub & Ssurv & _).
    simpl in Si, Ssurv, Ssub. split; [|split; [exact Si | exact Ssub]].
    apply Ssurv; [exact Hd|].
    intros f Hf Hfr _ Heq.
    apply ReadDir_lists in Hf. destruct Hf as (x & Hx & Hxd & ->).
    assert (d = x).
    { apply (NoDup_path_inj (dirents st)); auto.
      rewrite Heq. unfold OS.path_of. rewrite Hxd. reflexivity. }
    subst x. destruct Hnot as [Hnot|Hnot]; congruence.
Qed.

Lemma closeCurrentFile_next_ino w st :
  next_ino (snd (closeCurrentFile w st)) = next_ino st.
Proof.
  unfold closeCurrentFile, Fprint.
  destruct (file w); [|reflexivity]. destruct (writer w).
  all: os_unfold; os_case; reflexivity.
Qed.

Lemma lookup_renamed old new ds d :
  Filepath.Join (Filepath.Dir new) (Filepath.Base new) = new ->
  old <> new ->
  OS.lookup old ds = Some d ->
  let ds' :=
    map (fun x => if (OS.path_of x =? old)%string then renamed new x else x)
        (filter (fun x => negb (OS.path_of x =? new)%string) ds) in
  OS.lookup new ds' = Some (renamed new d) /\ OS.lookup old ds' = None.
Proof.
  intros Hc Hne Hl ds'. split.
  - unfold ds'. clear ds'. revert Hl. unfold OS.lookup.
    induction ds as [|x ds IH]; simpl; [discriminate|].
    destruct (OS.path_of x =? old)%string eqn:Eo.
    + intros E. injection E as <-. apply String.eqb_eq in Eo.
      assert (En : (OS.path_of x =? new)%string = false)
        by (apply String.eqb_neq; congruence).
      rewrite En. simpl. rewrite (proj2 (String.eqb_eq _ _) Eo).
      unfold OS.path_of at 1. simpl. rewrite Hc, String.eqb_refl.
      reflexivity.
    + intros Hl. destruct (OS.path_of x =? new)%string eqn:En; simpl.
      * apply IH, Hl.
      * rewrite Eo, En. apply IH, Hl.
  - apply lookup_none. intros x' Hx'. unfold ds' in Hx'.
    apply in_map_iff in Hx'. destruct Hx' as (x & <- & Hx).
    destruct (OS.path_of x =? old)%string eqn:Eo.
    + unfold OS.path_of. simpl. rewrite Hc. congruence.
    + apply String.eqb_neq. exact Eo.
Qed.

Lemma lookup_app_old p ds d x :
  OS.lookup p ds = Some d -> OS.lookup p (ds ++ [x]) = Some d.
Proof.
  unfold OS.lookup. induction ds as [|y ds IH]; simpl; [discriminate|].
  destruct (OS.path_of y =? p)%string; [auto | exact IH].
Qed.

(** Without failing calls, [openNewFile] on a path that names nothing
    makes a file that holds the header. *)
Lemma openNewFile_created w st :
  (forall n op, fault st n op = None) ->
  OS.lookup (filename w) (dirents st) = None ->
  exists w1 st1 hnow,
    openNewFile w st = ((w1, None), st1) /\
    dirents st1 =
      dirents st ++
      [{| d_dir := Filepath.Dir (filename w);
          d_name := Filepath.Base (filename w); d_ino := next_ino st |}] /\
    (forall j, j <> next_ino st -> inodes st1 j = inodes st j) /\
    i_data (inodes st1 (next_ino st)) =
      FormatLogRecord (header w) (stamp hnow).
Proof.
  intros Hnf El. unfold openNewFile, Fprint. os_unfold. rewrite El.
  repeat (simpl; first [rewrite Hnf | rewrite handle_opened
                       | rewrite setInode_same]).
  do 3 eexists. split; [reflexivity|]. simpl.
  split; [reflexivity|]. split.
  - intros j Hj. rewrite !setInode_other by exact Hj. reflexivity.
  - rewrite setInode_same. reflexivity.
Qed.

(** X17. When no call fails, a rotation that keeps the rotated files and
    succeeds moves the log: the file the writer held is closed with its
    trailer and renamed, so that the new name holds all that the log held
    and the trailer, and the log file's path names a new file that holds the
    header and nothing else.  The file system is one where a path names
    one entry, the writer's file is the file at its path, and the path is
    one the model of the file system can name. *)
Theorem X17_rotation_moves_the_log (w : Writer) (fd : Fd) (st : World)
    (d : Dirent) (w' : Writer) (st' : World) :
  (forall n op, fault st n op = None) ->
  rotate w = true ->
  file w = Some fd ->
  writer w = Some fd ->
  OS.handle fd (handles st) = Some (d_ino d) ->
  NoDup (map OS.path_of (dirents st)) ->
  OS.lookup (filename w) (dirents st) = Some d ->
  (d_ino d < next_ino st)%nat ->
  Filepath.Join (Filepath.Dir (filename w)) (Filepath.Base (filename w))
    = filename w ->
  doRotation w st = ((w', None), st') ->
  exists name tnow hnow,
    In (EvRename (filename w) name None) (since st st') /\
    fst (heldAt name st') =
      (i_data (inodes st (d_ino d)) ++
       FormatLogRecord (trailer w) (stamp tnow))%string /\
    fst (heldAt (filename w) st') =
      FormatLogRecord (header w) (stamp hnow).
Proof.
  intros Hnf Hrot Hf Hw Hh ND Hl Hino Hclean H.
  rewrite doRotation_steps in H. cbv zeta in H.
  (* the file is closed *)
  destruct (closeCurrentFile_nofault w st fd (d_ino d) Hnf Hf Hw Hh)
    as (tnow & Cd & Cde & _).
  pose proof (closeCurrentFile_next_ino w st) as Cn.
  destruct (byOracle_closeCurrentFile w st) as (Cfa & _).
  destruct (bal_closeCurrentFile w st) as (t1 & Ct & _).
  set (st1 := snd (closeCurrentFile w st)) in *.
  (* the next name is found *)
  unfold renameStep in H. rewrite Hrot in H. unfold bind at 1 in H.
  destruct (lookup_in _ _ _ Hl) as [Hd Hp].
  assert (ND1 : NoDup (map OS.path_of (dirents st1))) by (rewrite Cde; exact ND).
  assert (Hd1 : In d (dirents st1)) by (rewrite Cde; exact Hd).
  destruct (processAlreadyRotatedFiles_spares w st1 d ND1 Hd1
              (log_file_not_rotated w st1 d Hp Hclean))
    as (Sd & Si & Ssub).
  pose proof (processAlreadyRotatedFiles_next_ino w st1) as Sn.
  destruct (byOracle_processAlreadyRotatedFiles w st1) as (Sfa & _).
  destruct (bal_processAlreadyRotatedFiles w st1) as (t2 & St & _).
  destruct (processAlreadyRotatedFiles_name w st1) as [k Hname].
  destruct (processAlreadyRotatedFiles w st1) as [name st2] eqn:EP.
  simpl in Sd, Si, Ssub, Sn, Sfa, St, Hname.
  assert (Hcn : Filepath.Join (Filepath.Dir name) (Filepath.Base name) = name).
  { rewrite Hname. apply clean_app; [exact Hclean|].
    simpl. apply hasSlash_Sprintf. }
  assert (Hne : filename w <> name).
  { rewrite Hname. intros E. symmetry in E. revert E. apply append_longer. }
  assert (Hl2 : OS.lookup (filename w) (dirents st2) = Some d).
  { destruct (OS.lookup (filename w) (dirents st2)) as [x|] eqn:E.
    - apply lookup_in in E. destruct E as [Hx Hxp]. f_equal.
      apply (NoDup_path_inj (dirents st1)); auto. congruence.
    - exfalso. unfold OS.lookup in E. apply (find_none _ _ E) in Sd.
      rewrite Hp, String.eqb_refl in Sd. discriminate. }
  assert (Hnf2 : forall n op, fault st2 n op = None)
    by (intros; rewrite Sfa, Cfa; apply Hnf).
  (* the rename *)
  unfold bind at 1 in H. unfold OS.Rename in H.
  rewrite Hnf2, Hl2 in H.
  destruct (match OS.lookup name (dirents st2) with
            | Some d' => i_isDir (inodes st2 (d_ino d'))
            | None => false
            end).
  { simpl in H. discriminate. }
  simpl in H. rewrite Hf in H.
  destruct (lookup_renamed (filename w) name (dirents st2) d Hcn Hne Hl2)
    as [Rn Ro].
  cbv zeta in Rn, Ro.
  match type of H with openNewFile w ?s = _ => set (st3 := s) in * end.
  (* the new file *)
  assert (Hnf3 : forall n op, fault st3 n op = None) by (intros; apply Hnf2).
  destruct (openNewFile_created w st3 Hnf3 Ro)
    as (w1 & st4 & hnow & EO & Ode & Oi & Od).
  rewrite EO in H. injection H as <- <-.
  destruct (bal_openNewFile w st3) as (t4 & Ot & _).
  rewrite EO in Ot. simpl in Ot.
  exists name, tnow, hnow. split; [|split].
  - erewrite since_app.
    2:{ rewrite Ot. unfold st3. simpl. rewrite St, Ct.
        rewrite <- !app_assoc. reflexivity. }
    apply in_or_app. right. apply in_or_app. right.
    apply in_or_app. left. simpl. auto.
  - unfold heldAt. rewrite Ode.
    rewrite (lookup_app_old _ _ _ _ Rn). simpl.
    rewrite Oi by (unfold st3; simpl; lia).
    unfold st3. simpl. rewrite Si, Cd. reflexivity.
  - unfold heldAt. rewrite Ode.
    erewrite lookup_app_new; [|exact Ro | exact Hclean]. simpl.
    exact Od.
Qed.

End Facts.

(** ** The writer at work on concrete directories *)

Import Sample Scenario.

Example atoi_number : Strconv.Atoi "003" = (3, None).
Proof. reflexivity. Qed.

Example atoi_not_a_number : Strconv.Atoi "bak" = (0, Some Strconv.ErrSyntax).
Proof. reflexivity. Qed.

Example atoi_out_of_range :
  Strconv.Atoi "99999999999999999999" = (Int.maxInt64, Some Strconv.ErrRange).
Proof. vm_compute. reflexivity. Qed.

Example sprintf_pads : Fmt.Sprintf_03d 7 = "007".
Proof. reflexivity. Qed.

Example sprintf_wide : Fmt.Sprintf_03d 1234 = "1234".
Proof. reflexivity. Qed.

Example sprintf_negative : Fmt.Sprintf_03d (-5) = "-05".
Proof. reflexivity. Qed.

Example dir_of_path : Filepath.Dir "logs/application.log" = "logs".
Proof. reflexivity. Qed.

Example base_of_path : Filepath.Base "logs/application.log" = "application.log".
Proof. reflexivity. Qed.

Example lines_without_final_newline :
  Bufio.countLines ("a" ++ nl ++ "b")%string 0 0 = (2, false).
Proof. reflexivity. Qed.

Example format_message :
  FormatLogRecord "[%L] %M" (msg "up") = ("[INFO] up" ++ nl)%string.
Proof. reflexivity. Qed.

Example day_of_time : FormatDay (1793318400 * Time.Second) = "2026-10-30".
Proof. vm_compute. reflexivity. Qed.

(** The next name after [.001] and [.002] is [.003]. *)
Example next_name_after_two :
  fst (processAlreadyRotatedFiles (plain true)
         (mkWorld [fileAt "app.log.002" 0 twoLines;
                   fileAt "app.log.001" 0 twoLines]
                  noFault (at_time 0))) = "app.log.003".
Proof. vm_compute. reflexivity. Qed.

(** A suffix that is not a number counts for nothing. *)
Example next_name_ignores_words :
  fst (processAlreadyRotatedFiles (plain true)
         (mkWorld [fileAt "app.log.bak" 0 twoLines] noFault (at_time 0))) =
  "app.log.001".
Proof. vm_compute. reflexivity. Qed.

(** When the directory cannot be listed the name is [.001]. *)
Example next_name_without_listing :
  fst (processAlreadyRotatedFiles (plain true)
         (mkWorld [fileAt "app.log.007" 0 twoLines]
                  (fun _ op =>
                     match op with OpReadDir _ => Some EACCES | _ => None end)
                  (at_time 0))) = "app.log.001".
Proof. vm_compute. reflexivity. Qed.

(** Five records under a threshold of three lines: the first three are in
    [app.log.001], the other two in [app.log]. *)
Example five_records_three_lines :
  let st' := worldAfter (SetRotateLines 3 (plain true))
               (map (fun m => RecItem (msg m)) ["1"; "2"; "3"; "4"; "5"]) stEmpty in
  content "app.log.001" st' = Some ("1" ++ nl ++ "2" ++ nl ++ "3" ++ nl)%string /\
  content "app.log" st' = Some ("4" ++ nl ++ "5" ++ nl)%string.
Proof. vm_compute. split; reflexivity. Qed.

(** C4. Three records under a threshold of two lines, with
    [keepRotatedFiles] off: the rotation before the third record renames
    nothing and leaves one file, but the file is reopened for appending and
    still holds the two records written before the rotation, whereas
    [SetRotate] documents that the file is overwritten. *)
Theorem C4_reopen_appends :
  names "." c4_st' = ["app.log"] /\
  (forall old new r, ~ In (EvRename old new r) (trace c4_st')) /\
  content "app.log" c4_st' = Some ("a" ++ nl ++ "b" ++ nl ++ "c" ++ nl)%string /\
  content "app.log" c4_st' <> Some ("c" ++ nl)%string.
Proof.
  vm_compute. split; [reflexivity|]. split.
  - intros old new r H.
    repeat (destruct H as [H|H]; [discriminate|]). exact H.
  - split; [reflexivity | discriminate].
Qed.

(** C6. A rotated file whose number does not fit in [int] fails to parse,
    yet counts as the largest [int] instead of 0: the next number wraps
    around and the next name is not [.001]. *)
Theorem C6_suffix_out_of_range :
  snd (Strconv.Atoi "99999999999999999999") = Some Strconv.ErrRange /\
  fst (processAlreadyRotatedFiles (plain true) stHuge) =
  "app.log.-9223372036854775808" /\
  fst (processAlreadyRotatedFiles (plain true) stHuge) <> "app.log.001".
Proof.
  vm_compute. split; [reflexivity|]. split; [reflexivity | discriminate].
Qed.

(** C2 fails: the goroutine does not take records and rotation requests
    in one order of arrival.  A record sent before the request can be taken
    after it, and a record sent after the request can be taken before it and
    so be written to the old file. *)
Lemma C2_counterexample :
  (sent c2_early = [RecItem (msg "a"); RotItem] /\
   received c2_early = [RotItem; RecItem (msg "a")] /\
   ~ (exists rest, sent c2_early = received c2_early ++ rest)) /\
  (sent c2_late = [RecItem (msg "a"); RotItem; RecItem (msg "b")] /\
   received c2_late = [RecItem (msg "a"); RecItem (msg "b"); RotItem] /\
   ~ (exists rest, sent c2_late = received c2_late ++ rest) /\
   content "app.log.001" (world c2_late) = Some ("a" ++ nl ++ "b" ++ nl)%string /\
   content "app.log" (world c2_late) = Some EmptyString).
Proof.
  vm_compute. split.
  - split; [reflexivity|]. split; [reflexivity|].
    intros [rest H]. discriminate H.
  - split; [reflexivity|]. split; [reflexivity|].
    split; [intros [rest H]; discriminate H|]. split; reflexivity.
Qed.


(** C5 fails.  With a header, a file of 2 lines and 4 bytes and one record
    of 2 bytes leave the counters at 3 and 6 while the file holds 4 lines
    and 8 bytes; with a threshold of two lines the same record leaves them
    at 1 and 2, not at 3 and 6. *)
Lemma C5_counterexample :
  (content "app.log" (worldAfter wHeader [RecItem (msg "c")] stTwoLines) =
     Some ("a" ++ nl ++ "b" ++ nl ++ "H" ++ nl ++ "c" ++ nl)%string /\
   maxlinesCurlines (writerAfter wHeader [RecItem (msg "c")] stTwoLines) = 3 /\
   maxsizeCursize (writerAfter wHeader [RecItem (msg "c")] stTwoLines) = 6 /\
   String.length ("a" ++ nl ++ "b" ++ nl ++ "H" ++ nl ++ "c" ++ nl)%string = 8%nat) /\
  (maxlinesCurlines (writerAfter (wLines2 true) [RecItem (msg "c")] stTwoLines) = 1 /\
   maxsizeCursize (writerAfter (wLines2 true) [RecItem (msg "c")] stTwoLines) = 2).
Proof.
  vm_compute. repeat split; reflexivity.
Qed.


(** The theorems at concrete inputs. *)

(** *** The inputs *)





Lemma C5_witness :
  (file c5_w = None) /\
  (openNewFile c5_w c5_st = ((c5_w0, None), c5_st0)) /\
  (rotationDue c5_w0 (clock c5_st0 (ticks c5_st0)) = false) /\
  (handleItem c5_w (RecItem c5_rec) c5_st = ((c5_w', false), c5_st')) /\
  (let data := fst (heldAt (filename c5_w) c5_st) in
   let mtime := snd (heldAt (filename c5_w) c5_st) in
   let N := fst (Bufio.countLines data 0 0) in
   let B := Z.of_nat (String.length data) in
   let line := FormatLogRecord (format c5_w) c5_rec in
   (maxlinesCurlines c5_w0 = Int.wrapUint64 N /\
    maxsizeCursize c5_w0 = Int.wrapUint64 B /\
    dailyOpenDate c5_w0 = FormatDay mtime) /\
   (N + 1 < 2 ^ 64 ->
    B + Z.of_nat (String.length line) < 2 ^ 64 ->
    maxlinesCurlines c5_w0 = N /\ maxsizeCursize c5_w0 = B /\
    maxlinesCurlines c5_w' = N + 1 /\
    maxsizeCursize c5_w' = B + Z.of_nat (String.length line)) /\
   exists fd ino hnow (hok : bool),
     file c5_w' = Some fd /\ OS.handle fd (handles c5_st') = Some ino /\
     i_data (inodes c5_st' ino) =
       (data ++
        (if hok then FormatLogRecord (header c5_w) (stamp hnow) else EmptyString)
        ++ line)%string).
Proof.
  assert (H1 : file c5_w = None).
  { reflexivity. }
  assert (H2 : openNewFile c5_w c5_st = ((c5_w0, None), c5_st0)).
  { vm_compute; reflexivity. }
  assert (H3 : rotationDue c5_w0 (clock c5_st0 (ticks c5_st0)) = false).
  { vm_compute; reflexivity. }
  assert (H4 : handleItem c5_w (RecItem c5_rec) c5_st = ((c5_w', false), c5_st')).
  { vm_compute; reflexivity. }
  split; [exact H1|].
  split; [exact H2|].
  split; [exact H3|].
  split; [exact H4|].
  exact (C5_counters_recovered_then_counted c5_w c5_rec c5_st c5_w0 c5_st0 c5_w' c5_st' H1 H2 H3 H4).
Defined.

Lemma C8_witness :
  (rotate c8_w = true) /\
  (processAlreadyRotatedFiles c8_w (snd (closeCurrentFile c8_w c8_st)) = (c8_name, c8_st2)) /\
  (OS.Rename (filename c8_w) c8_name c8_st2 = (Some c8_err, c8_st3)) /\
  (if os_IsNotExist c8_err
   then
     doRotation c8_w c8_st =
     match file c8_w with
     | Some _ => openNewFile c8_w c8_st3
     | None => ((c8_w, None), c8_st3)
     end
   else
     doRotation c8_w c8_st = ((c8_w, Some (RotationFailed c8_err)), c8_st3) /\
     (forall rest,
        goroutine c8_w (RotItem :: rest) c8_st = goroutine c8_w [RotItem] c8_st /\
        snd (fst (goroutine c8_w [RotItem] c8_st)) = true) /\
     (forall w0 st0 stA rec rest,
        ensureOpen w0 st0 = ((c8_w, None), stA) ->
        checkRotation c8_w stA = (true, c8_st) ->
        goroutine w0 (RecItem rec :: rest) st0 =
          goroutine w0 [RecItem rec] st0 /\
        snd (fst (goroutine w0 [RecItem rec] st0)) = true)).
Proof.
  assert (H1 : rotate c8_w = true).
  { reflexivity. }
  assert (H2 : processAlreadyRotatedFiles c8_w (snd (closeCurrentFile c8_w c8_st)) = (c8_name, c8_st2)).
  { vm_compute; reflexivity. }
  assert (H3 : OS.Rename (filename c8_w) c8_name c8_st2 = (Some c8_err, c8_st3)).
  { vm_compute; reflexivity. }
  split; [exact H1|].
  split; [exact H2|].
  split; [exact H3|].
  exact (C8_rename_failure c8_w c8_st c8_name c8_st2 c8_err c8_st3 H1 H2 H3).
Defined.

Lemma C9_witness :
  (keepRotatedSeconds c9_w = Int.wrapInt (1 * Time.Second)) /\
  (0 < keepRotatedSeconds c9_w) /\
  (fault c9_st (ticks c9_st) (OpReadDir (Filepath.Dir (filename c9_w))) = None) /\
  (NoDup (map OS.path_of (dirents c9_st))) /\
  (In c9_d (dirents c9_st)) /\
  (d_dir c9_d = Filepath.Dir (filename c9_w)) /\
  (rotated (Filepath.Base (filename c9_w)) (OS.info (inodes c9_st) c9_d) = true) /\
  (let now := clock c9_st (S (ticks c9_st)) in
   let st' := snd (processAlreadyRotatedFiles c9_w c9_st) in
   let mtime := i_mtime (inodes c9_st (d_ino c9_d)) in
     (mtime < now - keepRotatedSeconds c9_w ->
      exists r,
        In (EvRemove (OS.path_of c9_d) r) (since c9_st st') /\
        (r = None ->
         ~ In c9_d (dirents st') /\
         OS.lookup (OS.path_of c9_d) (dirents st') = None)) /\
     (now - keepRotatedSeconds c9_w <= mtime ->
      In c9_d (dirents st') /\ inodes st' (d_ino c9_d) = inodes c9_st (d_ino c9_d))).
Proof.
  assert (H1 : keepRotatedSeconds c9_w = Int.wrapInt (1 * Time.Second)).
  { reflexivity. }
  assert (H2 : 0 < keepRotatedSeconds c9_w).
  { vm_compute; reflexivity. }
  assert (H3 : fault c9_st (ticks c9_st) (OpReadDir (Filepath.Dir (filename c9_w))) = None).
  { reflexivity. }
  assert (H4 : NoDup (map OS.path_of (dirents c9_st))).
  { vm_compute; repeat constructor; simpl; intuition discriminate. }
  assert (H5 : In c9_d (dirents c9_st)).
  { vm_compute; auto. }
  assert (H6 : d_dir c9_d = Filepath.Dir (filename c9_w)).
  { reflexivity. }
  assert (H7 : rotated (Filepath.Base (filename c9_w)) (OS.info (inodes c9_st) c9_d) = true).
  { vm_compute; reflexivity. }
  split; [exact H1|].
  split; [exact H2|].
  split; [exact H3|].
  split; [exact H4|].
  split; [exact H5|].
  split; [exact H6|].
  split; [exact H7|].
  exact (C9_retention_scan c9_w 1 c9_st c9_d H1 H2 H3 H4 H5 H6 H7).
Defined.

Lemma C2_witness :
  (started sys0) /\
  (exec sys0 c2_acts = Next c2_s) /\
  (records (sent c2_s) = records (received c2_s) ++ recBuf c2_s /\
   rotations (sent c2_s) = (rotations (received c2_s) + rotSenders c2_s)%nat /\
   forall fd s2 acts2 s3,
     file (wr c2_s) = Some fd ->
     select c2_s CaseRot = Next s2 ->
     exec s2 acts2 = Next s3 ->
     isOpen fd (world s3) = false /\
     forall data, ~ In (EvWrite fd data None) (since (world s2) (world s3))).
Proof.
  assert (H1 : started sys0).
  { repeat split. }
  assert (H2 : exec sys0 c2_acts = Next c2_s).
  { vm_compute; reflexivity. }
  split; [exact H1|].
  split; [exact H2|].
  exact (C2_order_of_records_and_rotations sys0 c2_acts c2_s H1 H2).
Defined.


Lemma X1_witness :
  (fault stAged (ticks stAged) (OpReadDir (Filepath.Dir (filename (plain true)))) = None) /\
  ((forall d, In d (dirents stAged)
     -> d_dir d = Filepath.Dir (filename (plain true))
     -> rotated (Filepath.Base (filename (plain true))) (OS.info (inodes stAged) d) = true
     -> numberOf (Filepath.Base (filename (plain true))) (OS.info (inodes stAged) d)
        < Int.maxInt64)) /\
  (let dir := Filepath.Dir (filename (plain true)) in
   let base := Filepath.Base (filename (plain true)) in
   exists m, 1 <= m <= Int.maxInt64 /\
     fst (processAlreadyRotatedFiles (plain true) stAged) =
       (filename (plain true) ++ "." ++ Fmt.Sprintf_03d m)%string /\
     (m = 1 \/
      exists d, In d (dirents stAged) /\ d_dir d = dir /\
        rotated base (OS.info (inodes stAged) d) = true /\
        numberOf base (OS.info (inodes stAged) d) = m - 1) /\
     (forall d, In d (dirents stAged) -> d_dir d = dir ->
        rotated base (OS.info (inodes stAged) d) = true ->
        numberOf base (OS.info (inodes stAged) d) < m) /\
     (forall d k, In d (dirents stAged) -> d_dir d = dir ->
        i_isDir (inodes stAged (d_ino d)) = false ->
        0 <= k <= Int.maxInt64 ->
        d_name d = (base ++ "." ++ Fmt.Sprintf_03d k)%string -> k < m) /\
     (forall d, In d (dirents stAged) -> d_dir d = dir ->
        i_isDir (inodes stAged (d_ino d)) = false ->
        d_name d <> (base ++ "." ++ Fmt.Sprintf_03d m)%string)).
Proof.
  assert (H1 : fault stAged (ticks stAged) (OpReadDir (Filepath.Dir (filename (plain true)))) = None).
  { reflexivity. }
  assert (H2 : (forall d, In d (dirents stAged)
     -> d_dir d = Filepath.Dir (filename (plain true))
     -> rotated (Filepath.Base (filename (plain true))) (OS.info (inodes stAged) d) = true
     -> numberOf (Filepath.Base (filename (plain true))) (OS.info (inodes stAged) d)
        < Int.maxInt64)).
  { intros d Hd _ _; vm_compute in Hd;
    destruct Hd as [<-|[<-|[]]]; vm_compute; reflexivity. }
  split; [exact H1|].
  split; [exact H2|].
  exact (X1_next_name_is_new (plain true) stAged H1 H2).
Defined.

Lemma X2_witness :
  (keepRotatedSeconds (plain true) <= 0) /\
  (let st' := snd (processAlreadyRotatedFiles (plain true) stAged) in
   dirents st' = dirents stAged /\ inodes st' = inodes stAged /\
   handles st' = handles stAged /\ trace st' = trace stAged).
Proof.
  assert (H1 : keepRotatedSeconds (plain true) <= 0).
  { simpl; lia. }
  split; [exact H1|].
  exact (X2_no_retention_age_no_removal (plain true) stAged H1).
Defined.

Lemma X3_witness :
  (In (EvRemove "app.log.001" None) (since stAged (snd (processAlreadyRotatedFiles wKeep1s stAged)))) /\
  (let dir := Filepath.Dir (filename wKeep1s) in
   let base := Filepath.Base (filename wKeep1s) in
   let now := clock stAged (S (ticks stAged)) in
   exists d, In d (dirents stAged) /\ d_dir d = dir /\ OS.path_of d = "app.log.001" /\
     rotated base (OS.info (inodes stAged) d) = true /\
     0 < keepRotatedSeconds wKeep1s /\
     keepRotatedSeconds wKeep1s < Time.Sub now (i_mtime (inodes stAged (d_ino d)))).
Proof.
  assert (H1 : In (EvRemove "app.log.001" None) (since stAged (snd (processAlreadyRotatedFiles wKeep1s stAged)))).
  { vm_compute; auto. }
  split; [exact H1|].
  exact (X3_scan_removes_only_expired_rotated_files wKeep1s stAged "app.log.001" None H1).
Defined.

Lemma X4_witness :
  (NoDup (map OS.path_of (dirents stOld))) /\
  (In x4_d (dirents stOld)) /\
  (d_dir x4_d <> Filepath.Dir (filename wKeep1s) \/
    rotated (Filepath.Base (filename wKeep1s)) (OS.info (inodes stOld) x4_d) = false) /\
  (let st' := snd (processAlreadyRotatedFiles wKeep1s stOld) in
   In x4_d (dirents st') /\ inodes st' = inodes stOld).
Proof.
  assert (H1 : NoDup (map OS.path_of (dirents stOld))).
  { vm_compute; repeat constructor; simpl; intuition discriminate. }
  assert (H2 : In x4_d (dirents stOld)).
  { vm_compute; auto. }
  assert (H3 : d_dir x4_d <> Filepath.Dir (filename wKeep1s) \/
    rotated (Filepath.Base (filename wKeep1s)) (OS.info (inodes stOld) x4_d) = false).
  { right; vm_compute; reflexivity. }
  split; [exact H1|].
  split; [exact H2|].
  split; [exact H3|].
  exact (X4_scan_spares_everything_else wKeep1s stOld x4_d H1 H2 H3).
Defined.

Lemma X6_witness :
  (Int.minInt64 <= (-1) < 0) /\
  (Int.minInt64 <= (-1) < 0) /\
  (maxlinesCurlines (plain true) < 2 ^ 63) /\
  (maxsizeCursize (plain true) < 2 ^ 63) /\
  (daily (plain true) = false) /\
  (let w' := SetRotateSize (-1) (SetRotateLines (-1) (plain true)) in
   maxlines w' = 2 ^ 64 + (-1) /\ maxsize w' = 2 ^ 64 + (-1) /\
   rotationDue w' 0 = false).
Proof.
  assert (H1 : Int.minInt64 <= (-1) < 0).
  { unfold Int.minInt64; lia. }
  assert (H2 : Int.minInt64 <= (-1) < 0).
  { unfold Int.minInt64; lia. }
  assert (H3 : maxlinesCurlines (plain true) < 2 ^ 63).
  { vm_compute; reflexivity. }
  assert (H4 : maxsizeCursize (plain true) < 2 ^ 63).
  { vm_compute; reflexivity. }
  assert (H5 : daily (plain true) = false).
  { reflexivity. }
  split; [exact H1|].
  split; [exact H2|].
  split; [exact H3|].
  split; [exact H4|].
  split; [exact H5|].
  exact (X6_negative_limits_never_trigger (-1) (-1) (plain true) 0 H1 H2 H3 H4 H5).
Defined.

Lemma X7_witness :
  (openNewFile (plain true) stTwoLines = ((x7_w', None), x7_st')) /\
  (fst (heldAt (filename (plain true)) stTwoLines) = (unlines ["a"; "b"] ++ EmptyString)%string) /\
  (Forall shortLine ["a"; "b"]) /\
  (shortLine EmptyString) /\
  (maxlinesCurlines x7_w' =
   Int.wrapUint64
     (Z.of_nat (List.length ["a"; "b"]) +
      (if (EmptyString =? EmptyString)%string then 0 else 1))).
Proof.
  assert (H1 : openNewFile (plain true) stTwoLines = ((x7_w', None), x7_st')).
  { vm_compute; reflexivity. }
  assert (H2 : fst (heldAt (filename (plain true)) stTwoLines) = (unlines ["a"; "b"] ++ EmptyString)%string).
  { vm_compute; reflexivity. }
  assert (H3 : Forall shortLine ["a"; "b"]).
  { repeat constructor. }
  assert (H4 : shortLine EmptyString).
  { split; [reflexivity | vm_compute; reflexivity]. }
  split; [exact H1|].
  split; [exact H2|].
  split; [exact H3|].
  split; [exact H4|].
  exact (X7_openNewFile_counts_the_lines (plain true) stTwoLines x7_w' x7_st' ["a"; "b"] EmptyString H1 H2 H3 H4).
Defined.


Lemma X9_witness :
  (goroutine (plain true) x9_items stEmpty = ((x9_w', true), x9_st')) /\
  (forall fd, isOpen fd x9_st' = true ->
     isOpen fd stEmpty = true /\ file (plain true) <> Some fd).
Proof.
  assert (H1 : goroutine (plain true) x9_items stEmpty = ((x9_w', true), x9_st')).
  { vm_compute; reflexivity. }
  split; [exact H1|].
  exact (X9_goroutine_leaves_no_file_open (plain true) x9_items stEmpty x9_w' x9_st' H1).
Defined.

Lemma X10_witness :
  (started sys0) /\
  (unlimited (wr sys0)) /\
  (Forall (fun a => a <> Client Rotate) c3_acts) /\
  (exec sys0 c3_acts = Next c3_s) /\
  (oneSession (filename (wr sys0)) (since (world sys0) (world c3_s))).
Proof.
  assert (H1 : started sys0).
  { repeat split. }
  assert (H2 : unlimited (wr sys0)).
  { repeat split. }
  assert (H3 : Forall (fun a => a <> Client Rotate) c3_acts).
  { repeat constructor; discriminate. }
  assert (H4 : exec sys0 c3_acts = Next c3_s).
  { vm_compute; reflexivity. }
  split; [exact H1|].
  split; [exact H2|].
  split; [exact H3|].
  split; [exact H4|].
  exact (X10_unlimited_writer_never_rotates sys0 c3_acts c3_s H1 H2 H3 H4).
Defined.

Lemma X12_witness :
  ((forall n op, fault stTwoLines n op = None)) /\
  (unlimited x12_w) /\
  (file x12_w = None) /\
  (Filepath.Join (Filepath.Dir (filename x12_w)) (Filepath.Base (filename x12_w))
    = filename x12_w) /\
  ((forall d, OS.lookup (filename x12_w) (dirents stTwoLines) = Some d
     -> i_isDir (inodes stTwoLines (d_ino d)) = false)) /\
  (snd (Bufio.countLines (fst (heldAt (filename x12_w) stTwoLines)) 0 0) = false) /\
  (let old := fst (heldAt (filename x12_w) stTwoLines) in
   let r := goroutine x12_w (map RecItem ((msg "c") :: [msg "d"]) ++ [ClosedItem]) stTwoLines in
   snd (fst r) = true /\
   exists hnow tnow,
     fst (heldAt (filename x12_w) (snd r)) =
       (old ++ FormatLogRecord (header x12_w) (stamp hnow) ++
        String.concat EmptyString
          (map (FormatLogRecord (format x12_w)) ((msg "c") :: [msg "d"])) ++
        FormatLogRecord (trailer x12_w) (stamp tnow))%string).
Proof.
  assert (H1 : (forall n op, fault stTwoLines n op = None)).
  { intros; reflexivity. }
  assert (H2 : unlimited x12_w).
  { repeat split. }
  assert (H3 : file x12_w = None).
  { reflexivity. }
  assert (H4 : Filepath.Join (Filepath.Dir (filename x12_w)) (Filepath.Base (filename x12_w))
    = filename x12_w).
  { vm_compute; reflexivity. }
  assert (H5 : (forall d, OS.lookup (filename x12_w) (dirents stTwoLines) = Some d
     -> i_isDir (inodes stTwoLines (d_ino d)) = false)).
  { intros d H; vm_compute in H; injection H as <-; reflexivity. }
  assert (H6 : snd (Bufio.countLines (fst (heldAt (filename x12_w) stTwoLines)) 0 0) = false).
  { vm_compute; reflexivity. }
  split; [exact H1|].
  split; [exact H2|].
  split; [exact H3|].
  split; [exact H4|].
  split; [exact H5|].
  split; [exact H6|].
  exact (X12_records_reach_the_file_in_order x12_w (msg "c") [msg "d"] stTwoLines H1 H2 H3 H4 H5 H6).
Defined.

Lemma X13_witness :
  (exited x13_s = true) /\
  (exec x13_s x13_acts = Next x13_s') /\
  (exited x13_s' = true /\ world x13_s' = world x13_s /\ wr x13_s' = wr x13_s /\
   received x13_s' = received x13_s /\
   Forall (fun a => exists c, a = Client c) x13_acts /\
   exists new, sent x13_s' = sent x13_s ++ new /\
     recBuf x13_s' = recBuf x13_s ++ records new /\
     rotSenders x13_s' = (rotSenders x13_s + rotations new)%nat).
Proof.
  assert (H1 : exited x13_s = true).
  { vm_compute; reflexivity. }
  assert (H2 : exec x13_s x13_acts = Next x13_s').
  { vm_compute; reflexivity. }
  split; [exact H1|].
  split; [exact H2|].
  exact (X13_after_the_goroutine_returned x13_s x13_acts x13_s' H1 H2).
Defined.

Lemma X14_witness :
  (recClosed c3_s = true) /\
  (exited c3_s = false) /\
  (exists n s', (n <= S (List.length (recBuf c3_s)))%nat /\
     exec c3_s (repeat (Select CaseRec) n) = Next s' /\
     exited s' = true /\ waitReturns s' = true /\
     received s' = received c3_s ++ map RecItem (firstn n (recBuf c3_s)) /\
     recBuf s' = skipn n (recBuf c3_s)).
Proof.
  assert (H1 : recClosed c3_s = true).
  { vm_compute; reflexivity. }
  assert (H2 : exited c3_s = false).
  { vm_compute; reflexivity. }
  split; [exact H1|].
  split; [exact H2|].
  exact (X14_close_lets_the_goroutine_finish c3_s H1 H2).
Defined.


Lemma X16_witness :
  (file x16_w = None) /\
  (fst (OS.OpenFile (filename x16_w) stBlocked) = Err (OsError EISDIR)) /\
  (exists st',
     goroutine x16_w (RecItem (msg "a") :: []) stBlocked = ((x16_w, true), st') /\
     since stBlocked st' =
       [EvOpen (filename x16_w) (Err (OsError EISDIR));
        EvStderr (DiagNewWriter (filename x16_w) (OsError EISDIR))] /\
     dirents st' = dirents stBlocked /\ inodes st' = inodes stBlocked /\
     handles st' = handles stBlocked).
Proof.
  assert (H1 : file x16_w = None).
  { reflexivity. }
  assert (H2 : fst (OS.OpenFile (filename x16_w) stBlocked) = Err (OsError EISDIR)).
  { vm_compute; reflexivity. }
  split; [exact H1|].
  split; [exact H2|].
  exact (X16_unopenable_file_stops_the_writer x16_w (msg "a") [] stBlocked (OsError EISDIR) H1 H2).
Defined.

Lemma X17_witness :
  ((forall n op, fault x17_st n op = None)) /\
  (rotate x17_w = true) /\
  (file x17_w = Some 3%nat) /\
  (writer x17_w = Some 3%nat) /\
  (OS.handle 3%nat (handles x17_st) = Some (d_ino x4_d)) /\
  (NoDup (map OS.path_of (dirents x17_st))) /\
  (OS.lookup (filename x17_w) (dirents x17_st) = Some x4_d) /\
  ((d_ino x4_d < next_ino x17_st)%nat) /\
  (Filepath.Join (Filepath.Dir (filename x17_w)) (Filepath.Base (filename x17_w))
    = filename x17_w) /\
  (doRotation x17_w x17_st = ((x17_w', None), x17_st')) /\
  (exists name tnow hnow,
     In (EvRename (filename x17_w) name None) (since x17_st x17_st') /\
     fst (heldAt name x17_st') =
       (i_data (inodes x17_st (d_ino x4_d)) ++
        FormatLogRecord (trailer x17_w) (stamp tnow))%string /\
     fst (heldAt (filename x17_w) x17_st') =
       FormatLogRecord (header x17_w) (stamp hnow)).
Proof.
  assert (H1 : (forall n op, fault x17_st n op = None)).
  { intros; reflexivity. }
  assert (H2 : rotate x17_w = true).
  { reflexivity. }
  assert (H3 : file x17_w = Some 3%nat).
  { vm_compute; reflexivity. }
  assert (H4 : writer x17_w = Some 3%nat).
  { vm_compute; reflexivity. }
  assert (H5 : OS.handle 3%nat (handles x17_st) = Some (d_ino x4_d)).
  { vm_compute; reflexivity. }
  assert (H6 : NoDup (map OS.path_of (dirents x17_st))).
  { vm_compute; repeat constructor; simpl; intuition discriminate. }
  assert (H7 : OS.lookup (filename x17_w) (dirents x17_st) = Some x4_d).
  { vm_compute; reflexivity. }
  assert (H8 : (d_ino x4_d < next_ino x17_st)%nat).
  { vm_compute; lia. }
  assert (H9 : Filepath.Join (Filepath.Dir (filename x17_w)) (Filepath.Base (filename x17_w))
    = filename x17_w).
  { vm_compute; reflexivity. }
  assert (H10 : doRotation x17_w x17_st = ((x17_w', None), x17_st')).
  { vm_compute; reflexivity. }
  split; [exact H1|].
  split; [exact H2|].
  split; [exact H3|].
  split; [exact H4|].
  split; [exact H5|].
  split; [exact H6|].
  split; [exact H7|].
  split; [exact H8|].
  split; [exact H9|].
  split; [exact H10|].
  exact (X17_rotation_moves_the_log x17_w 3%nat x17_st x4_d x17_w' x17_st' H1 H2 H3 H4 H5 H6 H7 H8 H9 H10).
Defined.
